(** * Impact analysis of the cross-repository dependency graph

    A shallow embedding of [src/services/ImpactAnalyzer.ts] and of the retry
    loop of [src/services/AIService.ts], with the properties the
    specification states about them.

    Conventions of the embedding:
    - a JavaScript string is a [string]: one [ascii] per code unit;
    - a value that comes out of [JSON.parse] is a [json];
    - [console.log] and friends are not modelled (they have no effect on the
      result), except where evaluating their argument can throw;
    - code that can throw, or that talks to the classifier, lives in the
      monad [M]: state passing over a [Frame] (the mutable locals of
      [analyzeFileChange] and the trace of outside effects), with an outcome
      that is a value or a thrown exception. *)

From Stdlib Require Import String Ascii List Bool Arith Lia PrimFloat.
From Stdlib Require Import DecimalString.
Import ListNotations.
Local Open Scope string_scope.
Local Open Scope list_scope.
Local Open Scope nat_scope.

Set Implicit Arguments.

(* ===================================================================== *)
(** ** JavaScript values and string primitives *)
(* ===================================================================== *)

Module JS.

(** The characters the source names. *)
Definition colon : ascii := ":"%char.
Definition slash : ascii := "/"%char.
Definition backslash : ascii := "\"%char.
Definition newline : ascii := ascii_of_nat 10.
Definition lbrace : ascii := "{"%char.
Definition rbrace : ascii := "}"%char.

(** [s.replace(/c/g, d)] for a one-character pattern. *)
Fixpoint replaceAll (c d : ascii) (s : string) : string :=
  match s with
  | EmptyString => EmptyString
  | String x s' => String (if Ascii.eqb x c then d else x) (replaceAll c d s')
  end.

(** [s.split(sep)] for a one-character separator: never the empty array. *)
Fixpoint split (sep : ascii) (s : string) : list string :=
  match s with
  | EmptyString => [EmptyString]
  | String x s' =>
      if Ascii.eqb x sep then EmptyString :: split sep s'
      else match split sep s' with
           | h :: t => String x h :: t
           | [] => [String x EmptyString]
           end
  end.

(** [parts.join(sep)]. *)
Definition join (sep : string) (parts : list string) : string :=
  String.concat sep parts.

(** [s.startsWith(p)]. *)
Definition startsWith (s p : string) : bool := String.prefix p s.

(** [s.includes(sub)]. *)
Fixpoint includes (s sub : string) : bool :=
  String.prefix sub s ||
  match s with
  | EmptyString => false
  | String _ s' => includes s' sub
  end.

(** [s] ends with [suf] (what [/suf$/] tests for a literal [suf]). *)
Definition endsWith (s suf : string) : bool :=
  (String.length suf <=? String.length s) &&
  String.eqb (String.substring (String.length s - String.length suf)
                               (String.length suf) s) suf.

(** White space as [String.prototype.trim] sees it, among the code units
    below 256: TAB, LF, VT, FF, CR, SPACE and NBSP. *)
Definition isWhite (c : ascii) : bool :=
  let n := nat_of_ascii c in
  ((9 <=? n) && (n <=? 13)) || (n =? 32) || (n =? 160).

Fixpoint trimStart (s : string) : string :=
  match s with
  | EmptyString => EmptyString
  | String c s' => if isWhite c then trimStart s' else s
  end.

Fixpoint rev_string (acc s : string) : string :=
  match s with
  | EmptyString => acc
  | String c s' => rev_string (String c acc) s'
  end.

Definition trimEnd (s : string) : string :=
  rev_string EmptyString (trimStart (rev_string EmptyString s)).

(** [s.trim()]. *)
Definition trim (s : string) : string := trimEnd (trimStart s).

(** [s.toLowerCase()], on the letters A to Z. *)
Fixpoint toLowerCase (s : string) : string :=
  match s with
  | EmptyString => EmptyString
  | String c s' =>
      let n := nat_of_ascii c in
      String (if (65 <=? n) && (n <=? 90) then ascii_of_nat (n + 32) else c)
             (toLowerCase s')
  end.

(** Template-literal rendering of a non-negative integer. *)
Definition string_of_nat (n : nat) : string :=
  NilEmpty.string_of_uint (Nat.to_uint n).

(** What [JSON.parse] can return.  Numbers are IEEE doubles. *)
#[warnings="-register-all"]
Inductive json : Type :=
| JNull
| JBool (b : bool)
| JNum (f : float)
| JStr (s : string)
| JArr (items : list json)
| JObj (fields : list (string * json)).

(** [undefined] is [None]: the result of reading a property that is absent. *)
Definition jsval := option json.

(** ToBoolean. *)
Definition truthy (v : json) : bool :=
  match v with
  | JNull => false
  | JBool b => b
  | JNum f => negb (PrimFloat.is_zero f || PrimFloat.is_nan f)
  | JStr s => negb (String.eqb s EmptyString)
  | JArr _ => true
  | JObj _ => true
  end.

(** [o.key] on a parsed object: the last binding of [key] wins, as it does
    when [JSON.parse] meets a duplicated key. *)
Fixpoint get_field (key : string) (fields : list (string * json)) : jsval :=
  match fields with
  | [] => None
  | (k, v) :: rest =>
      match get_field key rest with
      | Some v' => Some v'
      | None => if String.eqb k key then Some v else None
      end
  end.

(** [o.key || dflt]. *)
Definition or_default (v : jsval) (dflt : json) : json :=
  match v with
  | Some x => if truthy x then x else dflt
  | None => dflt
  end.

(** *** [Map]: insertion-ordered, one binding per key.

    [m.set(k, v)] on a key already present replaces the value and keeps
    the key's position; on a new key it appends. *)
Section JsMap.
Variable V : Type.

Definition Map := list (string * V).

Fixpoint map_set (k : string) (v : V) (m : Map) : Map :=
  match m with
  | [] => [(k, v)]
  | (k', v') :: m' =>
      if String.eqb k k' then (k, v) :: m'
      else (k', v') :: map_set k v m'
  end.

(** [new Map(entries)]: the entries are set one after the other. *)
Definition Map_of_entries (entries : list (string * V)) : Map :=
  fold_left (fun m kv => map_set (fst kv) (snd kv) m) entries [].

(** [Array.from(m.values())]. *)
Definition map_values (m : Map) : list V := List.map snd m.

Fixpoint map_get (k : string) (m : Map) : option V :=
  match m with
  | [] => None
  | (k', v') :: m' => if String.eqb k k' then Some v' else map_get k m'
  end.
End JsMap.

(** The match of [/\{[\s\S]*\}/]: from the first opening brace to the last
    closing brace after it, or no match. *)
Fixpoint upto_last_rbrace (s : string) : option string :=
  match s with
  | EmptyString => None
  | String c s' =>
      match upto_last_rbrace s' with
      | Some m => Some (String c m)
      | None => if Ascii.eqb c rbrace then Some (String c EmptyString) else None
      end
  end.

Fixpoint match_braces (s : string) : option string :=
  match s with
  | EmptyString => None
  | String c s' =>
      if Ascii.eqb c lbrace then
        match upto_last_rbrace s' with
        | Some m => Some (String c m)
        | None => None
        end
      else match_braces s'
  end.

End JS.

(* ===================================================================== *)
(** ** [path.basename] *)
(* ===================================================================== *)

(** Modelled from Node.js: [path.basename(p)] with no suffix, in its POSIX
    and Windows flavours ([path] is the platform's).  The scan runs from
    the end of the string: trailing separators are skipped, then the
    characters up to the previous separator are the base name.  On Windows
    both slashes separate, and a leading drive letter with its colon is
    never part of the scan. *)
Module Path.

Inductive platform : Type := Posix | Win32.

Definition isPathSeparator (p : platform) (c : ascii) : bool :=
  match p with
  | Posix => Ascii.eqb c JS.slash
  | Win32 => Ascii.eqb c JS.slash || Ascii.eqb c JS.backslash
  end.

Definition isWindowsDeviceRoot (c : ascii) : bool :=
  let n := nat_of_ascii c in
  ((65 <=? n) && (n <=? 90)) || ((97 <=? n) && (n <=? 122)).

Fixpoint dropWhile (f : ascii -> bool) (s : string) : string :=
  match s with
  | EmptyString => EmptyString
  | String c s' => if f c then dropWhile f s' else s
  end.

Fixpoint takeWhile (f : ascii -> bool) (s : string) : string :=
  match s with
  | EmptyString => EmptyString
  | String c s' => if f c then String c (takeWhile f s') else EmptyString
  end.

(** The scan proper, on the part of the path after [start]. *)
Definition last_component (p : platform) (s : string) : string :=
  let r := JS.rev_string EmptyString s in
  let r' := dropWhile (isPathSeparator p) r in
  JS.rev_string EmptyString
    (takeWhile (fun c => negb (isPathSeparator p c)) r').

Definition basename (p : platform) (s : string) : string :=
  match p, s with
  | Win32, String d (String c rest) =>
      if isWindowsDeviceRoot d && Ascii.eqb c JS.colon
      then last_component p rest
      else last_component p s
  | _, _ => last_component p s
  end.

End Path.

(* ===================================================================== *)
(** ** Data model *)
(* ===================================================================== *)

(** Modelled from the spec: [GraphNode], [GraphEdge] and the graph that
    [GraphService.getGraph] returns ([GraphService.ts] is not among the
    sources).  A node has an id [<repositoryId>:<relativePath>], a type
    (FILE, FUNCTION, open-ended), a label and a metadata mapping; an edge
    has a source id, a target id and a type (DEFINES, IMPORTS, open-ended).
    Neither list is required to be free of duplicates. *)
Record GraphNode : Type := {
  n_id : string;
  n_type : string;
  n_label : string;
  n_metadata : list (string * JS.json)
}.

Record GraphEdge : Type := {
  e_source : string;
  e_target : string;
  e_type : string
}.

Record Graph : Type := {
  nodes : list GraphNode;
  edges : list GraphEdge
}.

Inductive Severity : Type := LOW | MEDIUM | HIGH | CRITICAL.

(** One element of [ImpactResult.affectedFiles]. *)
Record AffectedFile : Type := {
  repoId : string;
  filePath : string;
  reason : string
}.

(** [ImpactResult].  [isBreaking] and [explanation] hold whatever the
    classifier's JSON held (the declared types are not checked at run
    time), or the defaults. *)
Record ImpactResult : Type := {
  projectId : string;
  changedFile : string;
  changedRepo : string;
  affectedFiles : list AffectedFile;
  isBreaking : JS.json;
  severity : Severity;
  explanation : JS.json;
  timestamp : string
}.

(* ===================================================================== *)
(** ** Effects: exceptions, mutable locals and the trace *)
(* ===================================================================== *)

Module Eff.

Inductive exn : Type :=
| TypeError (msg : string)
| SyntaxError (msg : string)
| IOError (msg : string).

Inductive Outcome (A : Type) : Type :=
| Val (a : A)
| Throw (e : exn).
Arguments Val {A} a.
Arguments Throw {A} e.

(** What the analysis does to the outside: one event per request sent to
    the generative model and one per back-off sleep. *)
Inductive event : Type :=
| Attempt (prompt : string) (attempt : nat)
| Sleep (ms : nat).

(** The [let]-bound locals of [analyzeFileChange] that its [try] block
    assigns, and the trace.  An assignment made before a [throw] stays. *)
Record Frame : Type := {
  loc_semanticAffectedFiles : list AffectedFile;
  loc_isBreaking : JS.json;
  loc_explanation : JS.json;
  trace : list event
}.

Definition M (A : Type) : Type := Frame -> Outcome A * Frame.

Definition ret {A} (a : A) : M A := fun st => (Val a, st).

Definition bind {A B} (m : M A) (k : A -> M B) : M B :=
  fun st =>
    match m st with
    | (Val a, st') => k a st'
    | (Throw e, st') => (Throw e, st')
    end.

Definition throw {A} (e : exn) : M A := fun st => (Throw e, st).

(** [try { body } catch (err) { handler }]. *)
Definition try_catch {A} (body : M A) (handler : exn -> M A) : M A :=
  fun st =>
    match body st with
    | (Val a, st') => (Val a, st')
    | (Throw e, st') => handler e st'
    end.

Definition get_frame : M Frame := fun st => (Val st, st).

Definition emit (e : event) : M unit :=
  fun st =>
    (Val tt, {| loc_semanticAffectedFiles := loc_semanticAffectedFiles st;
                loc_isBreaking := loc_isBreaking st;
                loc_explanation := loc_explanation st;
                trace := trace st ++ [e] |}).

Definition set_semanticAffectedFiles (v : list AffectedFile) : M unit :=
  fun st =>
    (Val tt, {| loc_semanticAffectedFiles := v;
                loc_isBreaking := loc_isBreaking st;
                loc_explanation := loc_explanation st;
                trace := trace st |}).

Definition set_isBreaking (v : JS.json) : M unit :=
  fun st =>
    (Val tt, {| loc_semanticAffectedFiles := loc_semanticAffectedFiles st;
                loc_isBreaking := v;
                loc_explanation := loc_explanation st;
                trace := trace st |}).

Definition set_explanation (v : JS.json) : M unit :=
  fun st =>
    (Val tt, {| loc_semanticAffectedFiles := loc_semanticAffectedFiles st;
                loc_isBreaking := loc_isBreaking st;
                loc_explanation := v;
                trace := trace st |}).

(** A frame with an empty trace; the locals are assigned by the callee
    before it reads them. *)
Definition frame0 : Frame :=
  {| loc_semanticAffectedFiles := [];
     loc_isBreaking := JS.JNull;
     loc_explanation := JS.JNull;
     trace := [] |}.

End Eff.

Import Eff.

Declare Scope eff_scope.
Delimit Scope eff_scope with eff.
Notation "x <- m ;; k" := (bind m (fun x => k))
  (at level 61, m at next level, right associativity) : eff_scope.
Notation "m ;; k" := (bind m (fun _ => k))
  (at level 61, right associativity) : eff_scope.
Local Open Scope eff_scope.

(* ===================================================================== *)
(** ** The world outside the analyzer *)
(* ===================================================================== *)

(** What [error.message] and [error.status] hold on the [Error] object
    thrown by the model's client: a string and a number, either of which
    may be absent. *)
Record ApiError : Type := {
  message : option string;
  status : option nat
}.

(** One attempt ([getGenerativeModel], [generateContent], [response],
    [text()]): the reply's text, or the error thrown on the way. *)
Inductive AttemptOutcome : Type :=
| Replied (text : string)
| Failed (err : ApiError).

(** A file as [fs.existsSync] and [fs.readFileSync] find it. *)
Inductive FileState : Type :=
| Missing
| Unreadable
| Content (text : string).

(** Everything the code reads from its environment.
    - [getGraph projectId]: what [new GraphService(projectId).getGraph()]
      returns;
    - [genAI]: whether the API key was configured;
    - [model_generate prompt n]: the outcome of the [n]-th attempt;
    - [JSON_parse]: [JSON.parse], [None] when it throws;
    - [js_gt_zero v]: the comparison [v > 0] of the language;
    - [fs_file repo path]: the file under [repos/<repo>/<path>];
    - [now]: [new Date().toISOString()];
    - [platform]: whose [path] module is loaded. *)
Record World : Type := {
  getGraph : string -> Graph;
  genAI : bool;
  model_generate : string -> nat -> AttemptOutcome;
  JSON_parse : string -> option JS.json;
  js_gt_zero : JS.json -> bool;
  fs_file : string -> string -> FileState;
  now : string;
  platform : Path.platform
}.

(* ===================================================================== *)
(** ** [AIService.generateContent] *)
(* ===================================================================== *)

Module AIService.

(** [error.message?.includes('429') || error.status === 429]. *)
Definition isRateLimit (error : ApiError) : bool :=
  match message error with
  | Some m => JS.includes m "429"
  | None => false
  end
  || match status error with
     | Some s => s =? 429
     | None => false
     end.

(** [Math.pow(2, attempt) * 1000], in milliseconds. *)
Definition delay (attempt : nat) : nat := 2 ^ attempt * 1000.

(** The [for] loop, over the attempt numbers still to come.  The body
    returns on a reply; in its [catch] it sleeps and continues on a
    rate-limit error with attempts left, returns [''] on the last attempt,
    and otherwise falls through to the next attempt. *)
Fixpoint for_attempts (w : World) (prompt : string) (retries : nat)
         (attempts : list nat) : M string :=
  match attempts with
  | [] => ret ""
  | attempt :: rest =>
      emit (Attempt prompt attempt) ;;
      match model_generate w prompt attempt with
      | Replied text => ret text
      | Failed error =>
          if isRateLimit error && (attempt <? retries) then
            emit (Sleep (delay attempt)) ;;
            for_attempts w prompt retries rest
          else if attempt =? retries then ret ""
          else for_attempts w prompt retries rest
      end
  end.

(** [generateContent(prompt, retries = 3)]:
    [for (let attempt = 1; attempt <= retries; attempt++)]. *)
Definition generateContent (w : World) (prompt : string) (retries : nat)
  : M string :=
  if negb (genAI w) then ret ""
  else for_attempts w prompt retries (seq 1 retries).

Definition default_retries : nat := 3.

End AIService.

(* ===================================================================== *)
(** ** [ImpactAnalyzer] *)
(* ===================================================================== *)

Module ImpactAnalyzer.

(** *** [determineSeverity] *)
Definition determineSeverity (affectedCount : nat) (isBreaking : bool)
  : Severity :=
  if isBreaking && (5 <? affectedCount) then CRITICAL
  else if isBreaking && (0 <? affectedCount) then HIGH
  else if 10 <? affectedCount then HIGH
  else if 5 <? affectedCount then MEDIUM
  else LOW.

(** *** [createEmptyResult] *)
Definition createEmptyResult (w : World) (projectId' repoId' filePath' : string)
  : ImpactResult :=
  {| projectId := projectId';
     changedFile := filePath';
     changedRepo := repoId';
     affectedFiles := [];
     isBreaking := JS.JBool false;
     severity := LOW;
     explanation := JS.JStr "File not found in dependency graph";
     timestamp := now w |}.

(** *** [findAffectedFiles]: the reverse-dependency traversal *)

(** The three mutable locals of the loop.  [visited] lists the arguments
    of the calls to [visited.add], in order. *)
Record bfs_state : Type := {
  queue : list string;
  visited : list string;
  affected : list AffectedFile
}.

(** [visited.has(x)]. *)
Definition has (visited : list string) (x : string) : bool :=
  existsb (String.eqb x) visited.

(** The body of [for (const edge of dependentEdges)]. *)
Definition visit_edge (pf : Path.platform) (changedNodeId sourceRepoId : string)
           (st : bfs_state) (edge : GraphEdge) : bfs_state :=
  if negb (has (visited st) (e_source edge)) then
    let parts := JS.split JS.colon (e_source edge) in
    let edgeRepoId := hd EmptyString parts in
    let edgeFilePath := JS.join ":" (tl parts) in
    {| queue := queue st ++ [e_source edge];
       visited := visited st ++ [e_source edge];
       affected :=
         if negb (String.eqb edgeRepoId sourceRepoId) then
           affected st ++
             [{| repoId := edgeRepoId;
                 filePath := edgeFilePath;
                 reason := String.append "Imports "
                             (Path.basename pf changedNodeId) |}]
         else affected st |}
  else st.

(** [graph.edges.filter(e => e.target === currentNodeId
                          && e.type === 'IMPORTS')]. *)
Definition dependentEdges (g : Graph) (currentNodeId : string)
  : list GraphEdge :=
  filter (fun e => String.eqb (e_target e) currentNodeId
                   && String.eqb (e_type e) "IMPORTS") (edges g).

(** One turn of [while (queue.length > 0)], after [queue.shift()]. *)
Definition bfs_iteration (pf : Path.platform) (g : Graph)
           (changedNodeId sourceRepoId : string)
           (currentNodeId : string) (st : bfs_state) : bfs_state :=
  fold_left (visit_edge pf changedNodeId sourceRepoId)
            (dependentEdges g currentNodeId) st.

(** The [while] loop, with a bound on its number of turns: [None] when the
    bound is reached with the queue still not empty. *)
Fixpoint bfs_while (pf : Path.platform) (g : Graph)
         (changedNodeId sourceRepoId : string)
         (fuel : nat) (st : bfs_state) : option bfs_state :=
  match queue st with
  | [] => Some st
  | currentNodeId :: rest =>
      match fuel with
      | 0 => None
      | S fuel' =>
          bfs_while pf g changedNodeId sourceRepoId fuel'
            (bfs_iteration pf g changedNodeId sourceRepoId currentNodeId
               {| queue := rest; visited := visited st;
                  affected := affected st |})
      end
  end.

Definition bfs_init (changedNodeId : string) : bfs_state :=
  {| queue := [changedNodeId]; visited := [changedNodeId]; affected := [] |}.

Definition bfs_run (pf : Path.platform) (g : Graph)
           (changedNodeId sourceRepoId : string) (fuel : nat)
  : option bfs_state :=
  bfs_while pf g changedNodeId sourceRepoId fuel (bfs_init changedNodeId).

(** One turn more than there are edges is always enough (proved with
    the traversal's other properties), so the second branch is dead. *)
Definition findAffectedFiles (pf : Path.platform) (g : Graph)
           (changedNodeId sourceRepoId : string) : list AffectedFile :=
  match bfs_run pf g changedNodeId sourceRepoId (S (length (edges g))) with
  | Some st => affected st
  | None => []
  end.

(** *** [searchForAffectedFiles]: the textual scan *)

(** [f.trim()] on an element of the parsed array: only a string has it. *)
Definition trim_item (f : JS.json) : M string :=
  match f with
  | JS.JStr s => ret (JS.trim s)
  | _ => throw (TypeError "f.trim is not a function")
  end.

(** [changedFunctions.map(f => f.trim())], left to right. *)
Fixpoint map_trim (items : list JS.json) : M (list string) :=
  match items with
  | [] => ret []
  | f :: rest =>
      t <- trim_item f ;;
      ts <- map_trim rest ;;
      ret (t :: ts)
  end.

(** [n.id.match(/\.(ts|tsx|js|jsx)$/)]. *)
Definition isSourceFileId (id : string) : bool :=
  JS.endsWith id ".ts" || JS.endsWith id ".tsx"
  || JS.endsWith id ".js" || JS.endsWith id ".jsx".

Definition otherRepoFiles (g : Graph) (sourceRepoId : string)
  : list GraphNode :=
  filter (fun n => String.eqb (n_type n) "FILE"
                   && negb (JS.startsWith (n_id n) sourceRepoId)
                   && isSourceFileId (n_id n)) (nodes g).

(** The index of the first line that includes [fn], counting from [i]. *)
Fixpoint first_line_including (fn : string) (lines : list string) (i : nat)
  : option nat :=
  match lines with
  | [] => None
  | l :: rest =>
      if JS.includes l fn then Some i
      else first_line_including fn rest (S i)
  end.

(** The [usages] array of one file. *)
Definition file_usages (functionList : list string) (fileContent : string)
  : list string :=
  let lines := JS.split JS.newline fileContent in
  flat_map
    (fun fn =>
       if JS.includes fileContent fn then
         match first_line_including fn lines 0 with
         | Some i =>
             [(fn ++ " (line " ++ JS.string_of_nat (i + 1) ++ ")")%string]
         | None => []
         end
       else [])
    functionList.

Definition existsSync (w : World) (repo path : string) : bool :=
  match fs_file w repo path with
  | Missing => false
  | _ => true
  end.

Definition readFileSync (w : World) (repo path : string) : M string :=
  match fs_file w repo path with
  | Content text => ret text
  | Unreadable => throw (IOError "EACCES")
  | Missing => throw (IOError "ENOENT")
  end.

(** The body of the [try] block for one file; the value is the
    [affectedFiles] array after it. *)
Definition scan_body (w : World) (functionList : list string)
           (fileRepoId filePathStr : string)
           (affectedFiles' : list AffectedFile) : M (list AffectedFile) :=
  if negb (existsSync w fileRepoId filePathStr) then ret affectedFiles'
  else
    fileContent <- readFileSync w fileRepoId filePathStr ;;
    let usages := file_usages functionList fileContent in
    if 0 <? length usages then
      ret (affectedFiles' ++
             [{| repoId := fileRepoId;
                 filePath := filePathStr;
                 reason := ("Uses modified functions: "
                            ++ JS.join ", " usages)%string |}])
    else ret affectedFiles'.

(** [for (const file of ...) { ... try { ... } catch (err) { } }]. *)
Fixpoint scan_files (w : World) (functionList : list string)
         (files : list GraphNode) (affectedFiles' : list AffectedFile)
  : M (list AffectedFile) :=
  match files with
  | [] => ret affectedFiles'
  | file :: rest =>
      let parts := JS.split JS.colon (n_id file) in
      let fileRepoId := hd EmptyString parts in
      let filePathStr := JS.join ":" (tl parts) in
      next <- try_catch
                (scan_body w functionList fileRepoId filePathStr affectedFiles')
                (fun _ => ret affectedFiles') ;;
      scan_files w functionList rest next
  end.

(** [changedFunctions] is whatever the parsed reply held.  The log line
    at the top calls [changedFunctions.join], which only an array has. *)
Definition searchForAffectedFiles (w : World) (g : Graph)
           (sourceRepoId : string) (changedFunctions : JS.json)
  : M (list AffectedFile) :=
  match changedFunctions with
  | JS.JArr items =>
      trimmed <- map_trim items ;;
      let functionList :=
        filter (fun f => 2 <? String.length f) trimmed in
      if length functionList =? 0 then ret []
      else scan_files w functionList
             (firstn 50 (otherRepoFiles g sourceRepoId)) []
  | _ => throw (TypeError "changedFunctions.join is not a function")
  end.

(** *** [analyzeFileChange] *)

Definition possibleNodeIds (repoId' filePath' : string) : list string :=
  let normalizedPath := JS.replaceAll JS.backslash JS.slash filePath' in
  [ (repoId' ++ ":" ++ normalizedPath)%string;
    (repoId' ++ ":" ++ filePath')%string;
    (repoId' ++ ":" ++ JS.replaceAll JS.slash JS.backslash filePath')%string ].

(** [graph.nodes.find(n => n.id === nodeId)] is not [undefined]. *)
Definition node_exists (g : Graph) (nodeId : string) : bool :=
  existsb (fun n => String.eqb (n_id n) nodeId) (nodes g).

(** The lookup loop: the first candidate that names a node. *)
Definition find_changedNodeId (g : Graph) (candidates : list string)
  : option string :=
  find (node_exists g) candidates.

Definition dq : string := String (ascii_of_nat 34) EmptyString.
Definition nl : string := String JS.newline EmptyString.

(** The prompt, with the first 2000 code units of each content. *)
Definition prompt_of (oldContent newContent : string) : string :=
  JS.join nl
    [ "Analyze these code changes and provide two things:";
      "1. A list of changed function names (added, modified, or removed).";
      "2. Whether this is a breaking API change.";
      "";
      "STRICT DEFINITION OF BREAKING CHANGE:";
      "- Renaming an exported function.";
      "- Changing the runtime structure of the return value (e.g., returning an object instead of an array).";
      "- Adding a required argument.";
      "- Removing an argument.";
      "";
      "NON-BREAKING CHANGES (DO NOT REPORT AS BREAKING):";
      "- Changing a specific type to 'any' or 'unknown' (Type widening is NOT breaking).";
      "- Adding an optional argument.";
      "- Internal logic changes that do not affect the output structure.";
      "- Refactoring or code cleanup.";
      "";
      "OLD CODE:";
      "```";
      String.substring 0 2000 oldContent;
      "```";
      "";
      "NEW CODE:";
      "```";
      String.substring 0 2000 newContent;
      "```";
      "";
      "Respond ONLY with valid JSON in this format:";
      "{";
      ("  " ++ dq ++ "changedFunctions" ++ dq ++ ": [" ++ dq ++ "funcName1"
         ++ dq ++ ", " ++ dq ++ "funcName2" ++ dq ++ "],")%string;
      ("  " ++ dq ++ "isBreaking" ++ dq ++ ": true/false,")%string;
      ("  " ++ dq ++ "explanation" ++ dq ++ ": " ++ dq
         ++ "Brief explanation of why it is breaking or not" ++ dq)%string;
      "}";
      ("If no functions changed, set " ++ dq ++ "changedFunctions" ++ dq
         ++ " to [].")%string ].

(** [result.key] on the value [JSON.parse] returned. *)
Definition property (result : JS.json) (key : string) : M JS.jsval :=
  match result with
  | JS.JObj fields => ret (JS.get_field key fields)
  | JS.JNull => throw (TypeError "Cannot read properties of null")
  | _ => ret None
  end.

(** [JSON.parse(text)]. *)
Definition parse (w : World) (text : string) : M JS.json :=
  match JSON_parse w text with
  | Some v => ret v
  | None => throw (SyntaxError "Unexpected token")
  end.

(** [changedFunctions.length > 0] on a value that is truthy or [[]]. *)
Definition length_gt_zero (w : World) (v : JS.json) : bool :=
  match v with
  | JS.JArr items => 0 <? length items
  | JS.JStr s => 0 <? String.length s
  | JS.JObj fields =>
      match JS.get_field "length" fields with
      | Some len => js_gt_zero w len
      | None => false
      end
  | _ => false
  end.

(** The body of [if (jsonMatch)], once [JSON.parse] has returned. *)
Definition apply_reply (w : World) (g : Graph) (repoId' : string)
           (result : JS.json) : M unit :=
  b <- property result "isBreaking" ;;
  set_isBreaking (JS.or_default b (JS.JBool false)) ;;
  e <- property result "explanation" ;;
  set_explanation (JS.or_default e (JS.JStr "Analyzed by AI")) ;;
  c <- property result "changedFunctions" ;;
  let changedFunctions := JS.or_default c (JS.JArr []) in
  if length_gt_zero w changedFunctions then
    found <- searchForAffectedFiles w g repoId' changedFunctions ;;
    set_semanticAffectedFiles found
  else ret tt.

(** The body of the [try] block of [analyzeFileChange]. *)
Definition classify (w : World) (g : Graph) (repoId' : string)
           (oldContent newContent : string) : M unit :=
  aiResponse <- AIService.generateContent w (prompt_of oldContent newContent)
                  AIService.default_retries ;;
  match JS.match_braces aiResponse with
  | None => ret tt
  | Some jsonMatch =>
      result <- parse w jsonMatch ;;
      apply_reply w g repoId' result
  end.

(** A content argument is truthy when it is given and not empty. *)
Definition given (content : option string) : bool :=
  match content with
  | Some s => negb (String.eqb s EmptyString)
  | None => false
  end.

Definition content_of (content : option string) : string :=
  match content with
  | Some s => s
  | None => EmptyString
  end.

(** The key of the [Map] that removes duplicates. *)
Definition dedup_key (f : AffectedFile) : string :=
  (repoId f ++ ":" ++ filePath f)%string.

(** [Array.from(new Map(all.map(f => [key, f])).values())]. *)
Definition uniqueAffectedFiles (allAffectedFiles : list AffectedFile)
  : list AffectedFile :=
  JS.map_values
    (JS.Map_of_entries (map (fun f => (dedup_key f, f)) allAffectedFiles)).

Definition analyzeFileChange (w : World) (projectId' repoId' filePath' : string)
           (oldContent newContent : option string) : M ImpactResult :=
  let g := getGraph w projectId' in
  match find_changedNodeId g (possibleNodeIds repoId' filePath') with
  | None => ret (createEmptyResult w projectId' repoId' filePath')
  | Some changedNodeId =>
      let graphAffectedFiles :=
        findAffectedFiles (platform w) g changedNodeId repoId' in
      set_semanticAffectedFiles [] ;;
      set_isBreaking (JS.JBool false) ;;
      set_explanation (JS.JStr "File modified") ;;
      (if given oldContent && given newContent then
         try_catch
           (classify w g repoId' (content_of oldContent)
                     (content_of newContent))
           (fun _ => ret tt)
       else ret tt) ;;
      locals <- get_frame ;;
      let allAffectedFiles :=
        graphAffectedFiles ++ loc_semanticAffectedFiles locals in
      let unique := uniqueAffectedFiles allAffectedFiles in
      if negb (JS.truthy (loc_isBreaking locals)) then
        ret {| projectId := projectId';
               changedFile := filePath';
               changedRepo := repoId';
               affectedFiles := [];
               isBreaking := loc_isBreaking locals;
               severity := LOW;
               explanation :=
                 JS.or_default (Some (loc_explanation locals))
                   (JS.JStr "Non-breaking change detected");
               timestamp := now w |}
      else
        ret {| projectId := projectId';
               changedFile := filePath';
               changedRepo := repoId';
               affectedFiles := unique;
               isBreaking := loc_isBreaking locals;
               severity :=
                 determineSeverity (length unique)
                   (JS.truthy (loc_isBreaking locals));
               explanation := loc_explanation locals;
               timestamp := now w |}
  end.

(** A call from outside: the value returned, or the exception that
    escaped, and what was done to the model meanwhile. *)
Definition run (w : World) (projectId' repoId' filePath' : string)
           (oldContent newContent : option string)
  : Outcome ImpactResult * list event :=
  let r := analyzeFileChange w projectId' repoId' filePath'
             oldContent newContent frame0 in
  (fst r, trace (snd r)).

End ImpactAnalyzer.

(* ===================================================================== *)
(** ** The specification's severity table *)
(* ===================================================================== *)

(** The decision table as the specification words it: rows of a guard on
    (breaking, affected count) and a level, read top to bottom, and the
    level when no row applies. *)
Module SeverityTable.

Definition row : Type := ((bool -> nat -> bool) * Severity)%type.

Definition rows : list row :=
  [ (fun breaking count => breaking && (5 <? count), CRITICAL);
    (fun breaking count => breaking && (0 <? count), HIGH);
    (fun _ count => 10 <? count, HIGH);
    (fun _ count => 5 <? count, MEDIUM) ].

Fixpoint first_match (table : list row) (otherwise : Severity)
         (breaking : bool) (count : nat) : Severity :=
  match table with
  | [] => otherwise
  | (guard, level) :: rest =>
      if guard breaking count then level
      else first_match rest otherwise breaking count
  end.

Definition lookup (breaking : bool) (count : nat) : Severity :=
  first_match rows LOW breaking count.

End SeverityTable.

(* ===================================================================== *)
(** ** Worked inputs *)
(* ===================================================================== *)

Module Examples.

Import ImpactAnalyzer.

Definition fileNode (id : string) : GraphNode :=
  {| n_id := id; n_type := "FILE"; n_label := id; n_metadata := [] |}.

Definition imports (src tgt : string) : GraphEdge :=
  {| e_source := src; e_target := tgt; e_type := "IMPORTS" |}.

(** The scenario of the specification: repository R1 holds [a.ts], which
    imports [./b.ts]; repository R2 holds [c.ts], which imports R1's
    [a.ts]. *)
Definition scenario_graph : Graph :=
  {| nodes := [fileNode "R1:a.ts"; fileNode "R1:b.ts"; fileNode "R2:c.ts"];
     edges := [imports "R1:a.ts" "R1:b.ts"; imports "R2:c.ts" "R1:a.ts"] |}.

(** An import cycle across two repositories. *)
Definition cycle_graph : Graph :=
  {| nodes := [fileNode "R1:a.ts"; fileNode "R2:b.ts"];
     edges := [imports "R1:a.ts" "R2:b.ts"; imports "R2:b.ts" "R1:a.ts"] |}.

(** R2's [d.ts] reaches R1's [lib/a.ts] only through R1's [lib/b.ts]. *)
Definition chain_graph : Graph :=
  {| nodes := [fileNode "R1:lib/a.ts"; fileNode "R1:lib/b.ts";
               fileNode "R2:d.ts"];
     edges := [imports "R1:lib/b.ts" "R1:lib/a.ts";
               imports "R2:d.ts" "R1:lib/b.ts"] |}.

Definition breaking_reply (changed : list JS.json) : JS.json :=
  JS.JObj [("changedFunctions", JS.JArr changed);
           ("isBreaking", JS.JBool true);
           ("explanation", JS.JStr "renamed an exported function")].

Definition harmless_reply (changed : list JS.json) : JS.json :=
  JS.JObj [("changedFunctions", JS.JArr changed);
           ("isBreaking", JS.JBool false);
           ("explanation", JS.JStr "internal refactor")].

(** A parser that knows one text. *)
Definition parse_only (text : string) (v : JS.json) (s : string)
  : option JS.json :=
  if String.eqb s text then Some v else None.

Definition no_files (repo path : string) : FileState := Missing.

(** R2's files all read as two lines, the second calling [fetchUser]. *)
Definition r2_calls_fetchUser (repo path : string) : FileState :=
  if String.eqb repo "R2"
  then Content ("import x" ++ nl ++ "fetchUser()")%string
  else Missing.

Definition world (g : Graph) (replies : string -> nat -> AttemptOutcome)
           (parsed : JS.json) (files : string -> string -> FileState)
  : World :=
  {| getGraph := fun _ => g;
     genAI := true;
     model_generate := replies;
     JSON_parse := parse_only "{reply}" parsed;
     js_gt_zero := fun _ => false;
     fs_file := files;
     now := "2026-01-16T21:13:32.000Z";
     platform := Path.Posix |}.

Definition always_replies (text : string) (prompt : string) (n : nat)
  : AttemptOutcome := Replied text.

(** The classifier says breaking and names no function. *)
Definition breaking_world : World :=
  world scenario_graph (always_replies "Sure: {reply}")
        (breaking_reply []) no_files.

(** The classifier says breaking and names [fetchUser], which R2 calls. *)
Definition breaking_fetchUser_world : World :=
  world scenario_graph (always_replies "{reply}")
        (breaking_reply [JS.JStr "fetchUser"]) r2_calls_fetchUser.

(** The classifier says not breaking, and names [fetchUser]. *)
Definition harmless_world : World :=
  world scenario_graph (always_replies "{reply}")
        (harmless_reply [JS.JStr "fetchUser"]) r2_calls_fetchUser.

Definition server_error : ApiError :=
  {| message := Some "500 Internal Server Error"; status := Some 500 |}.

Definition rate_limited : ApiError :=
  {| message := Some "[429 Too Many Requests]"; status := Some 429 |}.

(** The first attempt meets a server error, the second is answered. *)
Definition flaky (prompt : string) (n : nat) : AttemptOutcome :=
  match n with
  | 1 => Failed server_error
  | _ => Replied "recovered"
  end.

Definition flaky_world : World :=
  world scenario_graph flaky JS.JNull no_files.

(** Every attempt is rate limited. *)
Definition throttled (prompt : string) (n : nat) : AttemptOutcome :=
  Failed rate_limited.

Definition throttled_world : World :=
  world scenario_graph throttled JS.JNull no_files.

Definition structural_c : AffectedFile :=
  {| repoId := "R2"; filePath := "c.ts"; reason := "Imports a.ts" |}.

Definition semantic_c : AffectedFile :=
  {| repoId := "R2"; filePath := "c.ts";
     reason := "Uses modified functions: fetchUser (line 2)" |}.

(** What the analysis of [a.ts] returns in [harmless_world]. *)
Definition harmless_result : ImpactResult :=
  {| projectId := "P";
     changedFile := "a.ts";
     changedRepo := "R1";
     affectedFiles := [];
     isBreaking := JS.JBool false;
     severity := LOW;
     explanation := JS.JStr "internal refactor";
     timestamp := "2026-01-16T21:13:32.000Z" |}.

(** What the traversal alone finds from [a.ts] in the scenario. *)
Definition scenario_structural : list AffectedFile :=
  [{| repoId := "R2"; filePath := "c.ts"; reason := "Imports R1:a.ts" |}].

(** What the analysis of [a.ts] returns in [breaking_world]. *)
Definition breaking_result : ImpactResult :=
  {| projectId := "P";
     changedFile := "a.ts";
     changedRepo := "R1";
     affectedFiles := scenario_structural;
     isBreaking := JS.JBool true;
     severity := HIGH;
     explanation := JS.JStr "renamed an exported function";
     timestamp := "2026-01-16T21:13:32.000Z" |}.

(** What it returns in [breaking_fetchUser_world]: one entry for R2's
    [c.ts], with the reason the scan gave. *)
Definition breaking_fetchUser_result : ImpactResult :=
  {| projectId := "P";
     changedFile := "a.ts";
     changedRepo := "R1";
     affectedFiles := [semantic_c];
     isBreaking := JS.JBool true;
     severity := HIGH;
     explanation := JS.JStr "renamed an exported function";
     timestamp := "2026-01-16T21:13:32.000Z" |}.

(** What it returns there when no new content is passed. *)
Definition contentless_result : ImpactResult :=
  {| projectId := "P";
     changedFile := "a.ts";
     changedRepo := "R1";
     affectedFiles := [];
     isBreaking := JS.JBool false;
     severity := LOW;
     explanation := JS.JStr "File modified";
     timestamp := "2026-01-16T21:13:32.000Z" |}.

End Examples.

Unset Implicit Arguments.

(* ===================================================================== *)
(** ** Notions used in the statements and proofs *)
(* ===================================================================== *)

Module Notions.

Import ImpactAnalyzer.

(** *** Node ids *)

(** The repository that an id names: what comes before the first colon. *)
Definition repo_of_id (id : string) : string :=
  hd EmptyString (JS.split JS.colon id).

(** What follows the first colon. *)
Definition path_of_id (id : string) : string :=
  JS.join ":" (tl (JS.split JS.colon id)).

(** A string without a colon. *)
Fixpoint no_colon (s : string) : bool :=
  match s with
  | EmptyString => true
  | String c s' => negb (Ascii.eqb c JS.colon) && no_colon s'
  end.

(** A string without a forward slash. *)
Fixpoint no_slash (s : string) : bool :=
  match s with
  | EmptyString => true
  | String c s' => negb (Ascii.eqb c JS.slash) && no_slash s'
  end.

(** *** The traversal *)

(** The ids that can still be added: sources of edges not yet visited. *)
Definition unvisited (candidates vis : list string) : list string :=
  filter (fun x => negb (has vis x)) candidates.

(** What bounds the turns left: the queue, and what may still join it. *)
Definition budget (g : Graph) (st : bfs_state) : nat :=
  length (queue st)
  + length (unvisited (map e_source (edges g)) (visited st)).

(** The entries reported for a list of ids: one for each id whose
    repository is not the source's. *)
Definition reported (pf : Path.platform) (changedNodeId sourceRepoId : string)
           (ids : list string) : list AffectedFile :=
  flat_map
    (fun id =>
       if negb (String.eqb (repo_of_id id) sourceRepoId) then
         [{| repoId := repo_of_id id;
             filePath := path_of_id id;
             reason := String.append "Imports "
                         (Path.basename pf changedNodeId) |}]
       else [])
    ids.

(** [affected] follows [visited]: one entry for each visited id, the
    changed file apart, whose repository is not the source's. *)
Definition in_step (pf : Path.platform) (changedNodeId sourceRepoId : string)
           (st : bfs_state) : Prop :=
  exists others,
    visited st = changedNodeId :: others
    /\ affected st = reported pf changedNodeId sourceRepoId others.

(** Every importer of a visited file that has left the queue is visited. *)
Definition importers_visited (g : Graph) (st : bfs_state) : Prop :=
  forall e, In e (edges g) -> e_type e = "IMPORTS" ->
            In (e_target e) (visited st) -> ~ In (e_target e) (queue st) ->
            In (e_source e) (visited st).

(** *** Frames *)

(** The frame after more events. *)
Definition add_trace (st : Frame) (evs : list event) : Frame :=
  {| loc_semanticAffectedFiles := loc_semanticAffectedFiles st;
     loc_isBreaking := loc_isBreaking st;
     loc_explanation := loc_explanation st;
     trace := trace st ++ evs |}.

(** [result.key], once [result] is known not to be [null]. *)
Definition prop_of (result : JS.json) (key : string) : JS.jsval :=
  match result with
  | JS.JObj fields => JS.get_field key fields
  | _ => None
  end.

(** The frame a parsed reply leaves, up to the semantic list. *)
Definition classified_frame (result : JS.json) (sem : list AffectedFile)
           (tr : list event) : Frame :=
  {| loc_semanticAffectedFiles := sem;
     loc_isBreaking :=
       JS.or_default (prop_of result "isBreaking") (JS.JBool false);
     loc_explanation :=
       JS.or_default (prop_of result "explanation") (JS.JStr "Analyzed by AI");
     trace := tr |}.

(** What the [try] block does, by what the classifier answered. *)
Definition classify_post (w : World) (g : Graph) (repoId' : string)
           (text : string) (evs : list event)
           (st : Frame) (r : Outcome unit * Frame) : Prop :=
  match JS.match_braces text with
  | None => r = (Val tt, add_trace st evs)
  | Some jsonMatch =>
      match JSON_parse w jsonMatch with
      | None => exists e, r = (Throw e, add_trace st evs)
      | Some JS.JNull => exists e, r = (Throw e, add_trace st evs)
      | Some result =>
          exists o sem,
            r = (o, classified_frame result sem (trace st ++ evs))
            /\ (sem = loc_semanticAffectedFiles st
                \/ forall s,
                    searchForAffectedFiles w g repoId'
                      (JS.or_default (prop_of result "changedFunctions")
                                     (JS.JArr [])) s
                    = (Val sem, s))
      end
  end.

(** The locals as [analyzeFileChange] declares them. *)
Definition locals_init (st : Frame) : Frame :=
  {| loc_semanticAffectedFiles := [];
     loc_isBreaking := JS.JBool false;
     loc_explanation := JS.JStr "File modified";
     trace := trace st |}.

(** The frame when the [if (oldContent && newContent)] statement is over. *)
Definition after_try (w : World) (g : Graph) (repoId' : string)
           (oldContent newContent : option string) (st : Frame) : Frame :=
  if given oldContent && given newContent then
    snd (classify w g repoId' (content_of oldContent)
           (content_of newContent) (locals_init st))
  else locals_init st.

(** The value returned from the locals as they then are. *)
Definition result_of (w : World) (projectId' repoId' filePath' : string)
           (graphAffectedFiles : list AffectedFile) (locals : Frame)
  : ImpactResult :=
  let unique :=
    uniqueAffectedFiles
      (graphAffectedFiles ++ loc_semanticAffectedFiles locals) in
  if negb (JS.truthy (loc_isBreaking locals)) then
    {| projectId := projectId';
       changedFile := filePath';
       changedRepo := repoId';
       affectedFiles := [];
       isBreaking := loc_isBreaking locals;
       severity := LOW;
       explanation :=
         JS.or_default (Some (loc_explanation locals))
           (JS.JStr "Non-breaking change detected");
       timestamp := now w |}
  else
    {| projectId := projectId';
       changedFile := filePath';
       changedRepo := repoId';
       affectedFiles := unique;
       isBreaking := loc_isBreaking locals;
       severity :=
         determineSeverity (length unique) (JS.truthy (loc_isBreaking locals));
       explanation := loc_explanation locals;
       timestamp := now w |}.

(** A content argument that is missing, or the empty string. *)
Definition absent_or_empty (content : option string) : Prop :=
  content = None \/ content = Some EmptyString.

(** The classifier gave nothing to parse: the text that
    [generateContent] returned holds no braces, or [JSON.parse] throws on
    what they enclose. *)
Definition no_usable_reply (w : World) (oldContent newContent : string)
  : Prop :=
  exists text evs,
    (forall st,
        AIService.generateContent w (prompt_of oldContent newContent)
          AIService.default_retries st = (Val text, add_trace st evs))
    /\ (JS.match_braces text = None
        \/ exists jsonMatch,
            JS.match_braces text = Some jsonMatch
            /\ JSON_parse w jsonMatch = None).

(** *** The [Map] that removes duplicates *)

(** The last entry of [l] under key [k]. *)
Fixpoint last_with_key (k : string) (l : list AffectedFile)
  : option AffectedFile :=
  match l with
  | [] => None
  | e :: rest =>
      match last_with_key k rest with
      | Some e' => Some e'
      | None => if String.eqb (dedup_key e) k then Some e else None
      end
  end.

(** The first entry of [l] under key [k]. *)
Fixpoint first_with_key (k : string) (l : list AffectedFile)
  : option AffectedFile :=
  match l with
  | [] => None
  | e :: rest =>
      if String.eqb (dedup_key e) k then Some e else first_with_key k rest
  end.

(** The keys of [ks], each where it first occurs. *)
Fixpoint first_occurrences (ks : list string) : list string :=
  match ks with
  | [] => []
  | k :: rest =>
      k :: filter (fun x => negb (String.eqb x k)) (first_occurrences rest)
  end.

(** The keys of a [Map], in order. *)
Definition keys {V : Type} (m : JS.Map V) : list string := map fst m.

(** What [set] does to the keys. *)
Definition add_key (ks : list string) (k : string) : list string :=
  if has ks k then ks else ks ++ [k].

(** The entry [[key, f]] that goes into the [Map]. *)
Definition entry_of (f : AffectedFile) : string * AffectedFile :=
  (dedup_key f, f).

(** One step of [new Map(entries)]. *)
Definition set_entry (m : JS.Map AffectedFile) (kv : string * AffectedFile)
  : JS.Map AffectedFile :=
  JS.map_set (fst kv) (snd kv) m.

(** The claim as the specification words it: the entry that survives
    under a key is the first one that had the key. *)
Definition first_entry_survives : Prop :=
  forall (structural semantic : list AffectedFile) (e : AffectedFile),
    In e (uniqueAffectedFiles (structural ++ semantic)) ->
    first_with_key (dedup_key e) (structural ++ semantic) = Some e.

(** *** The retry loop *)

(** The numbers of the attempts made, in order. *)
Definition attempts_made (evs : list event) : list nat :=
  flat_map (fun e => match e with
                     | Attempt _ n => [n]
                     | Sleep _ => []
                     end) evs.













End Notions.

(* ===================================================================== *)
(** ** Further notions *)
(* ===================================================================== *)

Module Dependents.

(** [x] imports the changed file [c], directly or through other files:
    there is a chain of IMPORTS edges from [x] to [c]. *)
Inductive importer (g : Graph) (c : string) : string -> Prop :=
| importer_self : importer g c c
| importer_step (e : GraphEdge) :
    In e (edges g) -> e_type e = "IMPORTS" ->
    importer g c (e_target e) -> importer g c (e_source e).

(** The entry that [findAffectedFiles] builds for an id. *)
Definition structural_entry (pf : Path.platform) (changedNodeId id : string)
  : AffectedFile :=
  {| repoId := Notions.repo_of_id id;
     filePath := Notions.path_of_id id;
     reason := String.append "Imports " (Path.basename pf changedNodeId) |}.

(** Every IMPORTS edge joins two files of one repository. *)
Definition imports_stay_in_repository (g : Graph) : Prop :=
  forall e, In e (edges g) -> e_type e = "IMPORTS" ->
            Notions.repo_of_id (e_source e) = Notions.repo_of_id (e_target e).

(** Every file that imports another has an id with a colon in it, as the
    ids [`${repoId}:${relativePath}`] of the indexer have. *)
Definition sources_have_colon (g : Graph) : Prop :=
  forall e, In e (edges g) -> e_type e = "IMPORTS" ->
            Notions.no_colon (e_source e) = false.

(** Only importers of [c] are visited or queued. *)
Definition only_importers (g : Graph) (c : string)
           (st : ImpactAnalyzer.bfs_state) : Prop :=
  Forall (importer g c) (ImpactAnalyzer.visited st)
  /\ Forall (importer g c) (ImpactAnalyzer.queue st).

End Dependents.

Module Replies.

(** The text that [generateContent] returns for a prompt (it never
    throws, and the text does not depend on the frame). *)
Definition reply_text (w : World) (prompt : string) : string :=
  match fst (AIService.generateContent w prompt AIService.default_retries
               frame0) with
  | Val text => text
  | Throw _ => EmptyString
  end.

(** What [JSON.parse] makes of the braces of the reply, when the reply
    has braces and their content parses. *)
Definition parsed_reply (w : World) (oldContent newContent : string)
  : option JS.json :=
  match JS.match_braces
          (reply_text w (ImpactAnalyzer.prompt_of oldContent newContent)) with
  | Some jsonMatch => JSON_parse w jsonMatch
  | None => None
  end.

(** [path.replace(/\\/g, '/')]. *)
Definition normalized (filePath' : string) : string :=
  JS.replaceAll JS.backslash JS.slash filePath'.

(** A value of [changedFunctions] on which the scan throws: a string
    that is not empty, or an array holding something else than strings. *)
Definition malformed_names (v : JS.json) : Prop :=
  (exists s, v = JS.JStr s /\ s <> EmptyString)
  \/ (exists items item,
         v = JS.JArr items /\ In item items
         /\ forall s, item <> JS.JStr s).

(** The names the scan looks for: the strings of the array, trimmed,
    those longer than two code units. *)
Definition kept_names (items : list JS.json) : list string :=
  filter (fun f => 2 <? String.length f)
         (flat_map (fun item => match item with
                                | JS.JStr s => [JS.trim s]
                                | _ => []
                                end) items).

(** The text of a usage: [`${fn} (line ${k + 1})`]. *)
Definition usage (fn : string) (k : nat) : string :=
  (fn ++ " (line " ++ JS.string_of_nat (k + 1) ++ ")")%string.

End Replies.

(* ===================================================================== *)
(** ** [AIService]: the three one-shot requests *)
(* ===================================================================== *)

(** The match of [/```(?:json)?\s*(\{[\s\S]*?\})\s*```/].

    A match that starts at a given place reads the three backticks, then
    [json] if it is there (leaving it out cannot help: a [j] is neither
    white space nor a brace), then all the white space (giving some back
    cannot help either), then an opening brace.  The lazy body ends at the
    first closing brace that white space and three backticks follow.  The
    leftmost place where this succeeds gives the match; what is kept is
    the group, from the opening to the closing brace. *)
Module Fence.

Definition fence : string := "```".

Fixpoint strip_prefix (p s : string) : option string :=
  match p, s with
  | EmptyString, _ => Some s
  | String a p', String b s' =>
      if Ascii.eqb a b then strip_prefix p' s' else None
  | String _ _, EmptyString => None
  end.

(** [\s*```] matches at the head of [s]. *)
Definition closes (s : string) : bool :=
  String.prefix fence (JS.trimStart s).

(** [[\s\S]*?\}] with [\s*```] after it, at the head of [s]. *)
Fixpoint lazy_body (s : string) : option string :=
  match s with
  | EmptyString => None
  | String c s' =>
      if Ascii.eqb c JS.rbrace && closes s'
      then Some (String c EmptyString)
      else option_map (String c) (lazy_body s')
  end.

(** The group of a match that starts at the head of [s]. *)
Definition fence_here (s : string) : option string :=
  match strip_prefix fence s with
  | None => None
  | Some r =>
      let r' := match strip_prefix "json" r with
                | Some x => x
                | None => r
                end in
      match JS.trimStart r' with
      | String c body =>
          if Ascii.eqb c JS.lbrace
          then option_map (String c) (lazy_body body)
          else None
      | EmptyString => None
      end
  end.

(** [text.match(...)]: [jsonMatch[1]] of the leftmost match. *)
Fixpoint match_fence (s : string) : option string :=
  match fence_here s with
  | Some m => Some m
  | None =>
      match s with
      | EmptyString => None
      | String _ s' => match_fence s'
      end
  end.

(** [let jsonText = text; if (jsonMatch) jsonText = jsonMatch[1]]. *)
Definition jsonText (text : string) : string :=
  match match_fence text with
  | Some m => m
  | None => text
  end.

End Fence.

(** The requests and results, as the interfaces of the source type
    them. *)
Module EnrichmentRequest.
Record t : Type := {
  nodeId : string;
  nodeType : string;
  label : string;
  context : option string
}.
End EnrichmentRequest.

(** The fields after [nodeId] are what [parsed.key || default] gives: any
    value of the reply. *)
Module EnrichmentResult.
Record t : Type := {
  nodeId : string;
  description : JS.json;
  criticality : JS.json;
  riskLevel : JS.json;
  tags : JS.json
}.
End EnrichmentResult.

(** [request.graphContext] is declared [any].  The code only hands it to
    [JSON.stringify(request.graphContext, null, 2)], so the value is
    kept as what that call does with it: it returns a text; or it
    returns [undefined], as for [undefined] itself, a function or a
    symbol; or it throws, as on a cycle, on a [BigInt], or from a
    [toJSON] method. *)
Inductive Stringified : Type :=
| Text (text : string)
| NoText
| StringifyThrows (e : exn).

Module ImpactAnalysisRequest.
Record t : Type := {
  changedFiles : list string;
  graphContext : Stringified
}.
End ImpactAnalysisRequest.

Module ImpactAnalysisResult.
Record t : Type := {
  affectedNodes : JS.json;
  impactPaths : JS.json;
  summary : JS.json
}.
End ImpactAnalysisResult.

Module Classification.
Record t : Type := {
  isBreaking : JS.json;
  explanation : JS.json
}.
End Classification.

Module AIRequests.

Import ImpactAnalyzer.

(** [getGenerativeModel], [generateContent], [response], [text()], once:
    the world's first attempt at the prompt.  A failure is thrown. *)
Definition ask (w : World) (prompt : string) : M string :=
  emit (Attempt prompt 1) ;;
  match model_generate w prompt 1 with
  | Replied text => ret text
  | Failed error =>
      throw (IOError (match message error with
                      | Some m => m
                      | None => EmptyString
                      end))
  end.

(** [request.context || 'N/A']. *)
Definition context_or_NA (context : option string) : string :=
  match context with
  | Some s => if String.eqb s EmptyString then "N/A" else s
  | None => "N/A"
  end.

Definition enrich_prompt (request : EnrichmentRequest.t) : string :=
  JS.join nl
    [ "";
      "You are a code analysis assistant. Given the following code element, provide enrichment metadata.";
      "";
      ("Node Type: " ++ EnrichmentRequest.nodeType request)%string;
      ("Label: " ++ EnrichmentRequest.label request)%string;
      ("Context: "
         ++ context_or_NA (EnrichmentRequest.context request))%string;
      "";
      "Respond ONLY with valid JSON matching this schema:";
      "{";
      ("  " ++ dq ++ "description" ++ dq ++ ": " ++ dq
         ++ "Brief description of what this element does" ++ dq
         ++ ",")%string;
      ("  " ++ dq ++ "criticality" ++ dq ++ ": " ++ dq
         ++ "LOW | MEDIUM | HIGH | CRITICAL" ++ dq ++ ",")%string;
      ("  " ++ dq ++ "riskLevel" ++ dq ++ ": 0-10,")%string;
      ("  " ++ dq ++ "tags" ++ dq ++ ": [" ++ dq ++ "tag1" ++ dq ++ ", "
         ++ dq ++ "tag2" ++ dq ++ "]")%string;
      "}";
      "" ].

Definition enrichment (request : EnrichmentRequest.t)
           (description' criticality' riskLevel' tags' : JS.json)
  : EnrichmentResult.t :=
  {| EnrichmentResult.nodeId := EnrichmentRequest.nodeId request;
     EnrichmentResult.description := description';
     EnrichmentResult.criticality := criticality';
     EnrichmentResult.riskLevel := riskLevel';
     EnrichmentResult.tags := tags' |}.

(** [enrichNode(request)]. *)
Definition enrichNode (w : World) (request : EnrichmentRequest.t)
  : M EnrichmentResult.t :=
  if negb (genAI w) then
    ret (enrichment request (JS.JStr "No AI enrichment available")
                    (JS.JStr "MEDIUM") (JS.JNum 5%float) (JS.JArr []))
  else
    try_catch
      (text <- ask w (enrich_prompt request) ;;
       parsed <- parse w (Fence.jsonText text) ;;
       d <- property parsed "description" ;;
       c <- property parsed "criticality" ;;
       r <- property parsed "riskLevel" ;;
       t <- property parsed "tags" ;;
       ret (enrichment request
              (JS.or_default d (JS.JStr "Unknown"))
              (JS.or_default c (JS.JStr "MEDIUM"))
              (JS.or_default r (JS.JNum 5%float))
              (JS.or_default t (JS.JArr []))))
      (fun _ =>
         ret (enrichment request (JS.JStr "Enrichment failed")
                         (JS.JStr "MEDIUM") (JS.JNum 5%float) (JS.JArr []))).

(** The prompt, [context] being what the template literal shows for
    [JSON.stringify(request.graphContext, null, 2)]. *)
Definition impact_prompt_text (changedFiles : list string) (context : string)
  : string :=
  JS.join nl
    [ "";
      "You are a code impact analysis assistant. Given the following changed files and dependency graph context, analyze the impact.";
      "";
      "Changed Files:";
      JS.join nl changedFiles;
      "";
      "Graph Context (simplified):";
      context;
      "";
      "Respond ONLY with valid JSON matching this schema:";
      "{";
      ("  " ++ dq ++ "affectedNodes" ++ dq ++ ": [" ++ dq ++ "nodeId1" ++ dq
         ++ ", " ++ dq ++ "nodeId2" ++ dq ++ "],")%string;
      ("  " ++ dq ++ "impactPaths" ++ dq ++ ": [")%string;
      "    {";
      ("      " ++ dq ++ "path" ++ dq ++ ": [" ++ dq ++ "nodeA" ++ dq ++ ", "
         ++ dq ++ "nodeB" ++ dq ++ ", " ++ dq ++ "nodeC" ++ dq
         ++ "],")%string;
      ("      " ++ dq ++ "explanation" ++ dq ++ ": " ++ dq
         ++ "Why this path is affected" ++ dq ++ ",")%string;
      ("      " ++ dq ++ "riskLevel" ++ dq ++ ": 0-10")%string;
      "    }";
      "  ],";
      ("  " ++ dq ++ "summary" ++ dq ++ ": " ++ dq
         ++ "Overall impact summary" ++ dq)%string;
      "}";
      "" ].

(** The template literal of [analyzeImpact], which stands before the
    [try]: what [JSON.stringify] throws is thrown by [analyzeImpact], and
    [undefined] is written [undefined]. *)
Definition impact_prompt (request : ImpactAnalysisRequest.t) : M string :=
  match ImpactAnalysisRequest.graphContext request with
  | Text text =>
      ret (impact_prompt_text (ImpactAnalysisRequest.changedFiles request)
                              text)
  | NoText =>
      ret (impact_prompt_text (ImpactAnalysisRequest.changedFiles request)
                              "undefined")
  | StringifyThrows e => throw e
  end.

Definition impact (affectedNodes' impactPaths' summary' : JS.json)
  : ImpactAnalysisResult.t :=
  {| ImpactAnalysisResult.affectedNodes := affectedNodes';
     ImpactAnalysisResult.impactPaths := impactPaths';
     ImpactAnalysisResult.summary := summary' |}.

(** [analyzeImpact(request)]. *)
Definition analyzeImpact (w : World) (request : ImpactAnalysisRequest.t)
  : M ImpactAnalysisResult.t :=
  if negb (genAI w) then
    ret (impact (JS.JArr []) (JS.JArr [])
                (JS.JStr "No AI analysis available"))
  else
    prompt <- impact_prompt request ;;
    try_catch
      (text <- ask w prompt ;;
       parsed <- parse w (Fence.jsonText text) ;;
       a <- property parsed "affectedNodes" ;;
       p <- property parsed "impactPaths" ;;
       s <- property parsed "summary" ;;
       ret (impact (JS.or_default a (JS.JArr []))
                   (JS.or_default p (JS.JArr []))
                   (JS.or_default s (JS.JStr "No impact detected"))))
      (fun _ =>
         ret (impact (JS.JArr []) (JS.JArr []) (JS.JStr "Analysis failed"))).

Definition classify_prompt (oldSignature newSignature : string) : string :=
  JS.join nl
    [ "";
      "Compare these two function signatures and determine if the change is breaking.";
      "";
      ("Old: " ++ oldSignature)%string;
      ("New: " ++ newSignature)%string;
      "";
      "Respond ONLY with valid JSON:";
      "{";
      ("  " ++ dq ++ "isBreaking" ++ dq ++ ": true/false,")%string;
      ("  " ++ dq ++ "explanation" ++ dq ++ ": " ++ dq
         ++ "Brief explanation" ++ dq)%string;
      "}";
      "" ].

Definition classification (isBreaking' explanation' : JS.json)
  : Classification.t :=
  {| Classification.isBreaking := isBreaking';
     Classification.explanation := explanation' |}.

(** [classifyChange(oldSignature, newSignature)]. *)
Definition classifyChange (w : World) (oldSignature newSignature : string)
  : M Classification.t :=
  if negb (genAI w) then
    ret (classification (JS.JBool false) (JS.JStr "No AI available"))
  else
    try_catch
      (text <- ask w (classify_prompt oldSignature newSignature) ;;
       parsed <- parse w (Fence.jsonText text) ;;
       b <- property parsed "isBreaking" ;;
       e <- property parsed "explanation" ;;
       ret (classification (JS.or_default b (JS.JBool false))
                           (JS.or_default e (JS.JStr "Unknown"))))
      (fun _ =>
         ret (classification (JS.JBool false)
                             (JS.JStr "Classification failed"))).

End AIRequests.

Module Fenced.

Definition backtick : ascii := "`"%char.

Fixpoint no_backtick (s : string) : bool :=
  match s with
  | EmptyString => true
  | String c s' => negb (Ascii.eqb c backtick) && no_backtick s'
  end.

Fixpoint all_white (s : string) : bool :=
  match s with
  | EmptyString => true
  | String c s' => JS.isWhite c && all_white s'
  end.

(** The object text between braces. *)
Definition object_text (body : string) : string :=
  String JS.lbrace (body ++ String JS.rbrace EmptyString).

(** A reply that wraps an object in a code fence, tagged [json] or not,
    with prose around it. *)
Definition fenced (tagged : bool) (before ws1 body ws2 after : string)
  : string :=
  (before ++ Fence.fence ++ (if tagged then "json" else EmptyString)
     ++ ws1 ++ object_text body ++ ws2 ++ Fence.fence ++ after)%string.

(** The failures that the [catch] of a one-shot request meets: the
    request fails, or the text chosen does not parse, or parses to
    [null]. *)
Definition no_usable_answer (w : World) (prompt : string) : Prop :=
  match model_generate w prompt 1 with
  | Failed _ => True
  | Replied text =>
      JSON_parse w (Fence.jsonText text) = None
      \/ JSON_parse w (Fence.jsonText text) = Some JS.JNull
  end.

(** The value the reply gave, when there is one that parsed to something
    other than [null]. *)
Definition answer (w : World) (prompt : string) : option JS.json :=
  if genAI w then
    match model_generate w prompt 1 with
    | Failed _ => None
    | Replied text =>
        match JSON_parse w (Fence.jsonText text) with
        | Some JS.JNull => None
        | other => other
        end
    end
  else None.

(** What [enrichNode] makes of a parsed reply that is not [null]. *)
Definition read_enrichment (request : EnrichmentRequest.t)
           (parsed : JS.json) : EnrichmentResult.t :=
  AIRequests.enrichment request
    (JS.or_default (Notions.prop_of parsed "description")
                   (JS.JStr "Unknown"))
    (JS.or_default (Notions.prop_of parsed "criticality")
                   (JS.JStr "MEDIUM"))
    (JS.or_default (Notions.prop_of parsed "riskLevel") (JS.JNum 5%float))
    (JS.or_default (Notions.prop_of parsed "tags") (JS.JArr [])).

(** The prompt of [analyzeImpact], when the graph context can be
    written. *)
Definition impact_prompt_of (request : ImpactAnalysisRequest.t)
  : option string :=
  match ImpactAnalysisRequest.graphContext request with
  | Text text =>
      Some (AIRequests.impact_prompt_text
              (ImpactAnalysisRequest.changedFiles request) text)
  | NoText =>
      Some (AIRequests.impact_prompt_text
              (ImpactAnalysisRequest.changedFiles request) "undefined")
  | StringifyThrows _ => None
  end.

(** What [analyzeImpact] makes of it. *)
Definition read_impact (parsed : JS.json) : ImpactAnalysisResult.t :=
  AIRequests.impact
    (JS.or_default (Notions.prop_of parsed "affectedNodes") (JS.JArr []))
    (JS.or_default (Notions.prop_of parsed "impactPaths") (JS.JArr []))
    (JS.or_default (Notions.prop_of parsed "summary")
                   (JS.JStr "No impact detected")).

(** What [classifyChange] makes of it. *)
Definition read_classification (parsed : JS.json) : Classification.t :=
  AIRequests.classification
    (JS.or_default (Notions.prop_of parsed "isBreaking") (JS.JBool false))
    (JS.or_default (Notions.prop_of parsed "explanation")
                   (JS.JStr "Unknown")).

(** At most one request was sent, and it is the first attempt at the
    prompt. *)
Definition at_most_one_request (prompt : string) (st st' : Frame) : Prop :=
  st' = st \/ st' = Notions.add_trace st [Attempt prompt 1].

End Fenced.

(* ===================================================================== *)
(** ** The parser of a checked-out repository *)
(* ===================================================================== *)

Module AstParser.

(** What [fs.readdirSync] and [fs.statSync] make of a path, and of the
    names below it: a file (anything [isDirectory()] denies), a
    directory with its entries, a directory that [readdirSync] throws
    on, or a name that [statSync] throws on, as a link to nothing. *)
#[warnings="-register-all"]
Inductive dirent : Type :=
| File
| Directory (entries : list (string * dirent))
| Unlistable
| Unstatable.

(** The [path] and [fs] functions the parser calls.  [readFileSync] is
    [None] when it throws. *)
Record Fs : Type := {
  path_join : string -> string -> string;
  path_relative : string -> string -> string;
  path_resolve : string -> string -> string;
  path_dirname : string -> string;
  existsSync : string -> bool;
  isFile : string -> bool;
  readFileSync : string -> option string
}.

(** The statements at the top of a module that the parser looks at, with
    [node.id.name], [node.loc.start.line], [node.loc.end.line] and
    [node.source.value]. *)
Inductive statement : Type :=
| FunctionDeclaration (id : option string) (startLine endLine : float)
| ImportDeclaration (source : string)
| OtherStatement.

(** [parser.parse(content, ...)]: [ast.body], or [None] when it throws. *)
Definition Parser : Type := string -> option (list statement).

Definition skipped_directory (file : string) : bool :=
  String.eqb file "node_modules" || String.eqb file ".git"
  || String.eqb file "dist" || String.eqb file "build".

Definition source_extension (file : string) : bool :=
  JS.endsWith file ".ts" || JS.endsWith file ".tsx"
  || JS.endsWith file ".js" || JS.endsWith file ".jsx".

(** The turns of a [forEach] that pushes what each turn found: the call
    ends at the first turn that throws. *)
Fixpoint each (turns : list (option (list string))) : option (list string) :=
  match turns with
  | [] => Some []
  | None :: _ => None
  | Some found :: rest =>
      match each rest with
      | Some more => Some (found ++ more)
      | None => None
      end
  end.

(** One turn of the [forEach] of [getFiles(dir)], on the entry [file]:
    what it pushes, or [None] when it throws.  [statSync] comes first;
    a directory with a skipped name is not read. *)
Fixpoint getFiles_entry (fs : Fs) (dir file : string) (d : dirent)
  : option (list string) :=
  let fullPath := path_join fs dir file in
  match d with
  | Unstatable => None
  | Directory entries =>
      if negb (skipped_directory file)
      then each (map (fun entry =>
                        getFiles_entry fs fullPath (fst entry) (snd entry))
                     entries)
      else Some []
  | Unlistable => if negb (skipped_directory file) then None else Some []
  | File => if source_extension file then Some [fullPath] else Some []
  end.

(** [getFiles(dir)], [d] being what [dir] is; [None] when it throws. *)
Definition getFiles (fs : Fs) (dir : string) (d : dirent)
  : option (list string) :=
  match d with
  | Directory entries =>
      each (map (fun entry => getFiles_entry fs dir (fst entry) (snd entry))
                entries)
  | File | Unlistable | Unstatable => None
  end.

Definition extensions : list string := [".ts"; ".tsx"; ".js"; ".jsx"].

(** [resolveImportPath(importPath, currentFilePath, dirPath)]; [None] is
    [null]. *)
Definition resolveImportPath (fs : Fs)
           (importPath currentFilePath dirPath : string) : option string :=
  if negb (JS.startsWith importPath ".")
     && negb (JS.startsWith importPath "/")
  then None
  else
    let currentDir := path_dirname fs currentFilePath in
    let resolvedPath := path_resolve fs currentDir importPath in
    match find (fun ext =>
                  existsSync fs (resolvedPath ++ ext)%string
                  && isFile fs (resolvedPath ++ ext)%string)
               (extensions ++ [EmptyString]) with
    | Some ext => Some (path_relative fs dirPath (resolvedPath ++ ext)%string)
    | None =>
        match find (fun ext =>
                      existsSync fs
                        (path_join fs resolvedPath ("index" ++ ext)%string))
                   extensions with
        | Some ext =>
            Some (path_relative fs dirPath
                    (path_join fs resolvedPath ("index" ++ ext)%string))
        | None => None
        end
    end.

Definition file_id (repoId' relativePath : string) : string :=
  (repoId' ++ ":" ++ relativePath)%string.

Definition file_node (repoId' relativePath : string) : GraphNode :=
  {| n_id := file_id repoId' relativePath;
     n_type := "FILE";
     n_label := relativePath;
     n_metadata := [("repoId", JS.JStr repoId')] |}.

(** The first pass: a FILE node for each file, and [fileMap]. *)
Definition first_pass (fs : Fs) (dirPath repoId' : string)
           (files : list string)
  : list GraphNode * JS.Map string :=
  fold_left
    (fun acc file =>
       let relativePath := path_relative fs dirPath file in
       (fst acc ++ [file_node repoId' relativePath],
        JS.map_set relativePath (file_id repoId' relativePath) (snd acc)))
    files ([], []).

Definition function_node (fileNodeId funcName : string)
           (startLine endLine : float) : GraphNode :=
  {| n_id := (fileNodeId ++ ":" ++ funcName)%string;
     n_type := "FUNCTION";
     n_label := funcName;
     n_metadata := [("startLine", JS.JNum startLine);
                    ("endLine", JS.JNum endLine)] |}.

Definition edge (source' target' type' : string) : GraphEdge :=
  {| e_source := source'; e_target := target'; e_type := type' |}.

(** One turn of the [forEach] over [ast.body]. *)
Definition visit_statement (fs : Fs) (fileMap : JS.Map string)
           (dirPath file fileNodeId : string)
           (acc : list GraphNode * list GraphEdge) (node : statement)
  : list GraphNode * list GraphEdge :=
  match node with
  | FunctionDeclaration (Some funcName) startLine endLine =>
      (fst acc ++ [function_node fileNodeId funcName startLine endLine],
       snd acc ++ [edge fileNodeId (fileNodeId ++ ":" ++ funcName)%string
                        "DEFINES"])
  | FunctionDeclaration None _ _ => acc
  | ImportDeclaration importPath =>
      match resolveImportPath fs importPath file dirPath with
      | Some resolvedPath =>
          if negb (String.eqb resolvedPath EmptyString) then
            match JS.map_get resolvedPath fileMap with
            | Some targetFileId =>
                (fst acc, snd acc ++ [edge fileNodeId targetFileId "IMPORTS"])
            | None => acc
            end
          else acc
      | None => acc
      end
  | OtherStatement => acc
  end.

(** [fileMap.get(relativePath)!]: the first pass has set the key, so the
    other case is never met. *)
Definition get_known (fileMap : JS.Map string) (relativePath : string)
  : string :=
  match JS.map_get relativePath fileMap with
  | Some fileNodeId => fileNodeId
  | None => "undefined"
  end.

(** The second pass.  A file that cannot be read ends the whole call with
    the error; a file that does not parse is logged and left out. *)
Fixpoint second_pass (fs : Fs) (parse : Parser) (fileMap : JS.Map string)
         (dirPath : string) (files : list string)
         (acc : list GraphNode * list GraphEdge)
  : option (list GraphNode * list GraphEdge) :=
  match files with
  | [] => Some acc
  | file :: rest =>
      let relativePath := path_relative fs dirPath file in
      let fileNodeId := get_known fileMap relativePath in
      match readFileSync fs file with
      | None => None
      | Some content =>
          second_pass fs parse fileMap dirPath rest
            match parse content with
            | Some body =>
                fold_left (visit_statement fs fileMap dirPath file fileNodeId)
                          body acc
            | None => acc
            end
      end
  end.

(** [parseRepo(dirPath, repoId)], [tree] being what [dirPath] is;
    [None] when the promise is rejected: [getFiles] stands outside any
    [try]. *)
Definition parseRepo (fs : Fs) (parse : Parser)
           (tree : dirent) (dirPath repoId' : string)
  : option Graph :=
  match getFiles fs dirPath tree with
  | None => None
  | Some files =>
      let passed := first_pass fs dirPath repoId' files in
      match second_pass fs parse (snd passed) dirPath files
                        (fst passed, []) with
      | Some acc => Some {| nodes := fst acc; edges := snd acc |}
      | None => None
      end
  end.

End AstParser.

Module Checkout.

Import AstParser.

(** Induction on a directory tree, with the property known of every
    entry of a directory. *)
Section DirentInduction.
Variable P : dirent -> Prop.
Hypothesis P_File : P File.
Hypothesis P_Directory :
  forall entries,
    Forall (fun entry => P (snd entry)) entries -> P (Directory entries).
Hypothesis P_Unlistable : P Unlistable.
Hypothesis P_Unstatable : P Unstatable.

Fixpoint dirent_rect_entries (d : dirent) : P d :=
  match d with
  | File => P_File
  | Directory entries =>
      P_Directory entries
        ((fix go (l : list (string * dirent))
            : Forall (fun entry => P (snd entry)) l :=
            match l with
            | [] => Forall_nil _
            | entry :: l' =>
                Forall_cons entry (dirent_rect_entries (snd entry)) (go l')
            end) entries)
  | Unlistable => P_Unlistable
  | Unstatable => P_Unstatable
  end.
End DirentInduction.

(** [statSync(...).isDirectory()], where [statSync] returns. *)
Definition is_directory (d : dirent) : bool :=
  match d with
  | Directory _ | Unlistable => true
  | File | Unstatable => false
  end.

(** [getFiles(dir)] throws, [d] being what [dir] is: [dir] cannot be
    listed, or [statSync] throws on one of its entries, or [getFiles]
    throws on a directory below it that is not skipped. *)
Inductive throws : dirent -> Prop :=
| throws_readdir d :
    (forall entries, d <> Directory entries) -> throws d
| throws_stat entries file :
    In (file, Unstatable) entries -> throws (Directory entries)
| throws_below entries file d :
    In (file, d) entries ->
    is_directory d = true ->
    skipped_directory file = false ->
    throws d ->
    throws (Directory entries).

(** The files [getFiles] is after: those with a source extension, in
    the directory or below it, with no directory named [node_modules],
    [.git], [dist] or [build] on the way down. *)
Inductive collected (fs : Fs)
  : string -> list (string * dirent) -> string -> Prop :=
| collected_here dir entries file :
    In (file, File) entries ->
    source_extension file = true ->
    collected fs dir entries (path_join fs dir file)
| collected_below dir entries file sub p :
    In (file, Directory sub) entries ->
    skipped_directory file = false ->
    collected fs (path_join fs dir file) sub p ->
    collected fs dir entries p.

Definition node_with (g : Graph) (id type' : string) : Prop :=
  exists n, In n (nodes g) /\ n_id n = id /\ n_type n = type'.

(** No edge dangles: an IMPORTS edge joins two FILE nodes of the graph,
    a DEFINES edge goes from a FILE node to a FUNCTION node of it. *)
Definition closed_graph (g : Graph) : Prop :=
  forall e, In e (edges g) ->
            node_with g (e_source e) "FILE"
            /\ ((e_type e = "IMPORTS" /\ node_with g (e_target e) "FILE")
                \/ (e_type e = "DEFINES"
                    /\ node_with g (e_target e) "FUNCTION")).

(** A project graph as the indexer fills it: each of its IMPORTS edges
    was returned by [parseRepo] for some repository. *)
Definition indexed (g : Graph) : Prop :=
  forall e, In e (edges g) -> e_type e = "IMPORTS" ->
            exists fs parse tree dirPath repoId' parsed,
              parseRepo fs parse tree dirPath repoId' = Some parsed
              /\ In e (edges parsed).

(** What the first pass has done after [files]. *)
Definition first_pass_from (fs : Fs) (dirPath repoId' : string)
           (files : list string) (acc : list GraphNode * JS.Map string)
  : list GraphNode * JS.Map string :=
  fold_left
    (fun acc file =>
       let relativePath := path_relative fs dirPath file in
       (fst acc ++ [file_node repoId' relativePath],
        JS.map_set relativePath (file_id repoId' relativePath) (snd acc)))
    files acc.

(** The edges so far start at files of the map and, for imports, end at
    one; the nodes so far include the targets of the definitions. *)
Definition pass_invariant (repoId' : string) (fileMap : JS.Map string)
           (acc : list GraphNode * list GraphEdge) : Prop :=
  forall e, In e (snd acc) ->
            (exists k, JS.map_get k fileMap = Some (e_source e))
            /\ ((e_type e = "IMPORTS"
                 /\ exists k, JS.map_get k fileMap = Some (e_target e))
                \/ (e_type e = "DEFINES"
                    /\ exists n, In n (fst acc) /\ n_id n = e_target e
                                 /\ n_type n = "FUNCTION")).

End Checkout.

(* ===================================================================== *)
(** ** [GitService] *)
(* ===================================================================== *)

Module GitService.

(** [getChangedFiles], on the text [diff] that
    [git diff --name-only fromCommit toCommit] printed:
    [diff.split('\n').filter(f => f.trim() !== '')]. *)
Definition getChangedFiles (diff : string) : list string :=
  filter (fun f => negb (String.eqb (JS.trim f) EmptyString))
         (JS.split JS.newline diff).

End GitService.

Module Lines.

(** A string without the character [c]. *)
Fixpoint lacks (c : ascii) (s : string) : bool :=
  match s with
  | EmptyString => true
  | String x s' => negb (Ascii.eqb x c) && lacks c s'
  end.

(** The text that prints each name on a line of its own. *)
Fixpoint printed (names : list string) : string :=
  match names with
  | [] => EmptyString
  | name :: rest => (name ++ String JS.newline (printed rest))%string
  end.

(** A file name as git prints it: on one line, and not blank. *)
Definition printable (name : string) : Prop :=
  lacks JS.newline name = true /\ JS.trim name <> EmptyString.

End Lines.

(* ===================================================================== *)
(** ** Notions for the retry loop at any number of attempts *)
(* ===================================================================== *)

Module Waiting.

(** The time spent in [setTimeout], in milliseconds. *)
Definition slept (evs : list event) : nat :=
  fold_right (fun e acc => match e with
                           | Sleep ms => ms + acc
                           | Attempt _ _ => acc
                           end) 0 evs.

End Waiting.

(* ===================================================================== *)
(** ** Further worked inputs *)
(* ===================================================================== *)

Module MoreExamples.

(** Two repositories whose files import only files of their own. *)
Definition separate_graph : Graph :=
  {| nodes := [Examples.fileNode "R1:src/a.ts"; Examples.fileNode "R1:src/b.ts";
               Examples.fileNode "R2:c.ts"; Examples.fileNode "R2:d.ts"];
     edges := [Examples.imports "R1:src/b.ts" "R1:src/a.ts";
               Examples.imports "R2:d.ts" "R2:c.ts"] |}.

(** The classifier says breaking and gives the changed functions as one
    string instead of an array. *)
Definition sloppy_reply : JS.json :=
  JS.JObj [("changedFunctions", JS.JStr "fetchUser");
           ("isBreaking", JS.JBool true);
           ("explanation", JS.JStr "renamed an exported function")].

Definition sloppy_world : World :=
  Examples.world Examples.scenario_graph (Examples.always_replies "{reply}")
                 sloppy_reply Examples.r2_calls_fetchUser.

(** The scenario with its ids under a directory, so stored with forward
    slashes. *)
Definition nested_graph : Graph :=
  {| nodes := [Examples.fileNode "R1:src/a.ts"; Examples.fileNode "R2:c.ts"];
     edges := [Examples.imports "R2:c.ts" "R1:src/a.ts"] |}.

Definition nested_world : World :=
  Examples.world nested_graph (Examples.always_replies "{reply}")
                 (Examples.breaking_reply []) Examples.no_files.

(** The model wraps its answer in a tagged code fence. *)
Definition fenced_reply : string :=
  Fenced.fenced true "Here you go:" ImpactAnalyzer.nl "reply"
                ImpactAnalyzer.nl EmptyString.

(** An enrichment whose risk level is given as 0. *)
Definition riskless_enrichment : JS.json :=
  JS.JObj [("description", JS.JStr "Parses a repository");
           ("criticality", JS.JStr "HIGH");
           ("riskLevel", JS.JNum 0%float);
           ("tags", JS.JArr [JS.JStr "parser"])].

Definition enriching_world : World :=
  Examples.world Examples.scenario_graph
                 (Examples.always_replies fenced_reply)
                 riskless_enrichment Examples.no_files.

Definition parser_node : EnrichmentRequest.t :=
  {| EnrichmentRequest.nodeId := "R1:a.ts";
     EnrichmentRequest.nodeType := "FILE";
     EnrichmentRequest.label := "a.ts";
     EnrichmentRequest.context := None |}.

(** The model says breaking, inside a fence. *)
Definition fenced_breaking_world : World :=
  Examples.world Examples.scenario_graph
                 (Examples.always_replies fenced_reply)
                 (Examples.breaking_reply []) Examples.no_files.

(** A checkout with two files in [src], a note beside them and an
    installed package, whose cache cannot be listed; [b.ts] imports
    [./a] and a package, and defines a function. *)
Definition checkout_entries : list (string * AstParser.dirent) :=
  [("src", AstParser.Directory [("a.ts", AstParser.File);
                                ("b.ts", AstParser.File);
                                ("notes.md", AstParser.File)]);
   ("node_modules",
    AstParser.Directory [("lib", AstParser.Directory
                                   [("index.js", AstParser.File)]);
                         (".cache", AstParser.Unlistable)])].

Definition checkout : AstParser.dirent := AstParser.Directory checkout_entries.

(** The same checkout with a link to nothing in [src]. *)
Definition broken_checkout : AstParser.dirent :=
  AstParser.Directory
    [("src", AstParser.Directory [("a.ts", AstParser.File);
                                  ("latest", AstParser.Unstatable)])].

Definition drop_prefix (p s : string) : string :=
  match Fence.strip_prefix p s with
  | Some r => r
  | None => s
  end.

(** The disk of the checkout, with paths as POSIX writes them. *)
Definition checkout_fs : AstParser.Fs :=
  {| AstParser.path_join := fun dir file => (dir ++ "/" ++ file)%string;
     AstParser.path_relative :=
       fun from to => drop_prefix (from ++ "/")%string to;
     AstParser.path_resolve :=
       fun dir importPath => (dir ++ "/" ++ drop_prefix "./" importPath)%string;
     AstParser.path_dirname := fun p => "/repos/R1/src";
     AstParser.existsSync :=
       fun p => String.eqb p "/repos/R1/src/a.ts"
                || String.eqb p "/repos/R1/src/b.ts";
     AstParser.isFile := fun p => true;
     AstParser.readFileSync :=
       fun p => if String.eqb p "/repos/R1/src/b.ts"
                then Some "import a; import lib; function g" else Some "a" |}.

Definition checkout_parser : AstParser.Parser :=
  fun content =>
    if String.eqb content "a" then Some []
    else Some [AstParser.ImportDeclaration "./a";
               AstParser.ImportDeclaration "lib";
               AstParser.FunctionDeclaration (Some "g") 3%float 5%float].

Definition checkout_graph : Graph :=
  {| nodes := [AstParser.file_node "R1" "src/a.ts";
               AstParser.file_node "R1" "src/b.ts";
               AstParser.function_node "R1:src/b.ts" "g" 3%float 5%float];
     edges := [AstParser.edge "R1:src/b.ts" "R1:src/a.ts" "IMPORTS";
               AstParser.edge "R1:src/b.ts" "R1:src/b.ts:g" "DEFINES"] |}.

(** The project of the checkout, with a file of a second repository. *)
Definition project_graph : Graph :=
  {| nodes := nodes checkout_graph ++ [Examples.fileNode "R2:c.ts"];
     edges := edges checkout_graph |}.

Definition project_world : World :=
  Examples.world project_graph (Examples.always_replies "{reply}")
                 (Examples.breaking_reply [JS.JStr "fetchUser"])
                 Examples.r2_calls_fetchUser.

(** A request whose graph context points back to itself:
    [JSON.stringify] throws on it. *)
Definition cyclic_request : ImpactAnalysisRequest.t :=
  {| ImpactAnalysisRequest.changedFiles := ["src/a.ts"];
     ImpactAnalysisRequest.graphContext :=
       StringifyThrows
         (TypeError "Converting circular structure to JSON") |}.

(** Names that are all too short once trimmed. *)
Definition short_names : list JS.json :=
  [JS.JStr " a "; JS.JStr "id"; JS.JStr EmptyString].

End MoreExamples.

(* ===================================================================== *)
(** ** Severity *)
(* ===================================================================== *)

Module SeverityFacts.

Import ImpactAnalyzer Notions.

Lemma determineSeverity_breaking (n : nat) :
  determineSeverity n true
  = if 5 <? n then CRITICAL else if 0 <? n then HIGH else LOW.
Proof.
  unfold determineSeverity; simpl.
  destruct (5 <? n) eqn:E5; [reflexivity|].
  destruct (0 <? n) eqn:E0; [reflexivity|].
  apply Nat.ltb_ge in E0.
  replace (10 <? n) with false by (symmetry; apply Nat.ltb_ge; lia).
  reflexivity.
Qed.

Lemma determineSeverity_not_breaking (n : nat) :
  determineSeverity n false
  = if 10 <? n then HIGH else if 5 <? n then MEDIUM else LOW.
Proof. reflexivity. Qed.

(** C2.  [determineSeverity] is the specification's table read top to
    bottom: breaking and more than 5 affected is CRITICAL, breaking and
    more than 0 is HIGH, more than 10 is HIGH, more than 5 is MEDIUM,
    anything else is LOW; and each boundary (5 against 6, 0 against 1, 10
    against 11) falls on the side the table says. *)
Theorem determineSeverity_decision_table :
  (forall (affectedCount : nat) (isBreaking : bool),
      determineSeverity affectedCount isBreaking
      = SeverityTable.lookup isBreaking affectedCount)
  /\ (forall n, 5 < n -> determineSeverity n true = CRITICAL)
  /\ (forall n, 0 < n -> n <= 5 -> determineSeverity n true = HIGH)
  /\ (forall n, 10 < n -> determineSeverity n false = HIGH)
  /\ (forall n, 5 < n -> n <= 10 -> determineSeverity n false = MEDIUM)
  /\ (forall n, n <= 5 -> determineSeverity n false = LOW)
  /\ (forall b, determineSeverity 0 b = LOW)
  /\ determineSeverity 6 true = CRITICAL
  /\ determineSeverity 5 true = HIGH
  /\ determineSeverity 1 true = HIGH
  /\ determineSeverity 0 true = LOW
  /\ determineSeverity 11 false = HIGH
  /\ determineSeverity 10 false = MEDIUM
  /\ determineSeverity 6 false = MEDIUM
  /\ determineSeverity 5 false = LOW.
Proof.
  split; [intros n b; reflexivity|].
  repeat split; try reflexivity.
  - intros n H. rewrite determineSeverity_breaking.
    now apply Nat.ltb_lt in H as ->.
  - intros n H0 H5. rewrite determineSeverity_breaking.
    apply Nat.ltb_lt in H0 as ->. now apply Nat.ltb_ge in H5 as ->.
  - intros n H. rewrite determineSeverity_not_breaking.
    now apply Nat.ltb_lt in H as ->.
  - intros n H5 H10. rewrite determineSeverity_not_breaking.
    apply Nat.ltb_lt in H5 as ->. now apply Nat.ltb_ge in H10 as ->.
  - intros n H. rewrite determineSeverity_not_breaking.
    replace (10 <? n) with false by (symmetry; apply Nat.ltb_ge; lia).
    now apply Nat.ltb_ge in H as ->.
  - intros []; reflexivity.
Qed.

(** The table at seven affected files of a breaking change. *)
Lemma determineSeverity_decision_table_witness :
  determineSeverity 7 true = CRITICAL /\ determineSeverity 3 true = HIGH.
Proof.
  split.
  - apply (proj1 (proj2 determineSeverity_decision_table) 7). lia.
  - apply (proj1 (proj2 (proj2 determineSeverity_decision_table)) 3); lia.
Defined.

End SeverityFacts.

(* ===================================================================== *)
(** ** Node ids *)
(* ===================================================================== *)

Module IdFacts.

Import Notions.

(** The part of an id before its first colon is a prefix of the id. *)
Lemma repo_of_id_prefix id : String.prefix (repo_of_id id) id = true.
Proof.
  unfold repo_of_id.
  induction id as [|c id IH]; simpl; [reflexivity|].
  destruct (Ascii.eqb c JS.colon); simpl; [reflexivity|].
  destruct (JS.split JS.colon id) as [|h t]; simpl in *.
  - destruct (ascii_dec c c) as [_|N]; [|now elim N]. now destruct id.
  - destruct (ascii_dec c c) as [_|N]; [assumption | now elim N].
Qed.

(** An id that does not start with [sourceRepoId] names another
    repository. *)
Lemma not_startsWith_other_repo id sourceRepoId :
  JS.startsWith id sourceRepoId = false -> repo_of_id id <> sourceRepoId.
Proof.
  unfold JS.startsWith. intros H E.
  rewrite <- E, repo_of_id_prefix in H. discriminate.
Qed.

Lemma repo_of_id_no_colon id : no_colon (repo_of_id id) = true.
Proof.
  unfold repo_of_id.
  induction id as [|c id IH]; simpl; [reflexivity|].
  destruct (Ascii.eqb c JS.colon) eqn:E; simpl; [reflexivity|].
  destruct (JS.split JS.colon id) as [|h t]; simpl in *.
  - now rewrite E.
  - now rewrite E.
Qed.

End IdFacts.

(* ===================================================================== *)
(** ** Base names *)
(* ===================================================================== *)

Module PathFacts.

Import Notions.

Lemma rev_string_app acc a b :
  JS.rev_string acc (a ++ b)%string = JS.rev_string (JS.rev_string acc a) b.
Proof.
  revert acc. induction a as [|c a IH]; intros acc; simpl; [reflexivity|].
  apply IH.
Qed.

Lemma rev_string_acc acc s :
  JS.rev_string acc s = (JS.rev_string EmptyString s ++ acc)%string.
Proof.
  revert acc. induction s as [|c s IH]; intros acc; simpl; [reflexivity|].
  rewrite IH. rewrite (IH (String c EmptyString)).
  clear IH. generalize (JS.rev_string EmptyString s) as r.
  induction r as [|d r IHr]; simpl; [reflexivity | now f_equal].
Qed.

Lemma append_nil_r s : (s ++ EmptyString)%string = s.
Proof. induction s as [|c s IH]; simpl; [reflexivity | now f_equal]. Qed.

Lemma append_assoc a b c :
  (a ++ (b ++ c))%string = ((a ++ b) ++ c)%string.
Proof. induction a as [|x a IH]; simpl; [reflexivity | now f_equal]. Qed.

Lemma rev_string_involutive s :
  JS.rev_string EmptyString (JS.rev_string EmptyString s) = s.
Proof.
  induction s as [|c s IH]; simpl; [reflexivity|].
  rewrite (rev_string_acc (String c EmptyString) s), rev_string_app, IH.
  reflexivity.
Qed.

Lemma no_slash_app a b :
  no_slash (a ++ b)%string = no_slash a && no_slash b.
Proof.
  induction a as [|c a IH]; simpl; [reflexivity|].
  rewrite IH. now rewrite andb_assoc.
Qed.

Lemma no_slash_rev s : no_slash (JS.rev_string EmptyString s) = no_slash s.
Proof.
  induction s as [|c s IH]; simpl; [reflexivity|].
  rewrite rev_string_acc, no_slash_app, IH. simpl.
  rewrite andb_true_r. apply andb_comm.
Qed.

Lemma takeWhile_no_slash a rest :
  no_slash a = true ->
  Path.takeWhile (fun c => negb (Path.isPathSeparator Path.Posix c))
                 (a ++ String JS.slash rest)%string = a.
Proof.
  induction a as [|c a IH]; [reflexivity|].
  intros H. cbn [no_slash] in H. apply andb_prop in H as [Hc Ha].
  cbn [append Path.takeWhile Path.isPathSeparator].
  rewrite Hc. f_equal. now apply IH.
Qed.

Lemma takeWhile_no_slash_all a :
  no_slash a = true ->
  Path.takeWhile (fun c => negb (Path.isPathSeparator Path.Posix c)) a = a.
Proof.
  induction a as [|c a IH]; [reflexivity|].
  intros H. cbn [no_slash] in H. apply andb_prop in H as [Hc Ha].
  cbn [Path.takeWhile Path.isPathSeparator].
  rewrite Hc. f_equal. now apply IH.
Qed.

Lemma dropWhile_no_slash a rest :
  a <> EmptyString -> no_slash a = true ->
  Path.dropWhile (Path.isPathSeparator Path.Posix) (a ++ rest)%string
  = (a ++ rest)%string.
Proof.
  destruct a as [|c a]; [congruence|]. simpl.
  intros _ H. apply andb_prop in H as [Hc _].
  apply negb_true_iff in Hc. now rewrite Hc.
Qed.

Lemma rev_string_not_empty s :
  s <> EmptyString -> JS.rev_string EmptyString s <> EmptyString.
Proof.
  destruct s as [|c s]; [congruence|]. intros _. simpl.
  rewrite rev_string_acc. now destruct (JS.rev_string EmptyString s).
Qed.

(** The base name of a file in a directory is the file's name. *)
Lemma basename_in_directory dir name :
  name <> EmptyString -> no_slash name = true ->
  Path.basename Path.Posix (dir ++ String JS.slash name)%string = name.
Proof.
  intros Hne Hns. unfold Path.basename, Path.last_component.
  rewrite rev_string_app. simpl.
  rewrite (rev_string_acc (String JS.slash (JS.rev_string EmptyString dir))).
  pose proof (rev_string_not_empty name Hne) as Hne'.
  pose proof (no_slash_rev name) as Hns'. rewrite Hns in Hns'.
  rewrite dropWhile_no_slash, takeWhile_no_slash by assumption.
  apply rev_string_involutive.
Qed.

(** The base name of a string without a slash is the whole string. *)
Lemma basename_without_directory s :
  no_slash s = true -> Path.basename Path.Posix s = s.
Proof.
  intros Hns. unfold Path.basename, Path.last_component.
  destruct s as [|c s]; [reflexivity|].
  assert (String c s <> EmptyString) as Hne by congruence.
  pose proof (rev_string_not_empty _ Hne) as Hne'.
  pose proof (no_slash_rev (String c s)) as Hns'. rewrite Hns in Hns'.
  rewrite <- (append_nil_r (JS.rev_string EmptyString (String c s))) at 1.
  rewrite dropWhile_no_slash by assumption.
  rewrite append_nil_r.
  rewrite takeWhile_no_slash_all by assumption.
  apply rev_string_involutive.
Qed.

(** The same for node ids: under a directory the base name of the id is
    the file's name; at the root of the repository it is the whole id. *)
Lemma basename_of_nested_id repo dir name :
  name <> EmptyString -> no_slash name = true ->
  Path.basename Path.Posix
    (repo ++ ":" ++ dir ++ String JS.slash name)%string = name.
Proof.
  intros Hne Hns. rewrite !append_assoc.
  now apply basename_in_directory.
Qed.

Lemma basename_of_root_id repo name :
  no_slash repo = true -> no_slash name = true ->
  Path.basename Path.Posix (repo ++ ":" ++ name)%string
  = (repo ++ ":" ++ name)%string.
Proof.
  intros Hr Hn. apply basename_without_directory.
  rewrite !no_slash_app, Hr, Hn. reflexivity.
Qed.

End PathFacts.

(* ===================================================================== *)
(** ** The reverse-dependency traversal *)
(* ===================================================================== *)

Module TraversalFacts.

Import ImpactAnalyzer Notions IdFacts.

Section Traversal.
Variable pf : Path.platform.
Variable g : Graph.
Variables changedNodeId sourceRepoId : string.

Lemma has_In vis x : has vis x = true <-> In x vis.
Proof.
  unfold has. rewrite existsb_exists. split.
  - intros (y & Hy & E). apply String.eqb_eq in E. now subst.
  - intros H. exists x. split; [assumption | apply String.eqb_refl].
Qed.

Lemma has_snoc vis x y :
  has (vis ++ [x]) y = has vis y || String.eqb y x.
Proof. unfold has. rewrite existsb_app. simpl. now rewrite orb_false_r. Qed.

Lemma unvisited_snoc_le candidates vis x :
  length (unvisited candidates (vis ++ [x]))
  <= length (unvisited candidates vis).
Proof.
  induction candidates as [|c cs IH]; simpl; [lia|].
  rewrite has_snoc.
  destruct (has vis c); simpl; [assumption|].
  destruct (String.eqb c x); simpl; lia.
Qed.

Lemma unvisited_snoc_lt candidates vis x :
  In x candidates -> has vis x = false ->
  length (unvisited candidates (vis ++ [x]))
  < length (unvisited candidates vis).
Proof.
  intros Hin Hnew.
  induction candidates as [|c cs IH]; simpl; [contradiction|].
  rewrite has_snoc.
  destruct Hin as [->|Hin].
  - rewrite Hnew, String.eqb_refl. simpl.
    pose proof (unvisited_snoc_le cs vis x). lia.
  - specialize (IH Hin).
    destruct (has vis c); simpl; [assumption|].
    destruct (String.eqb c x); simpl; lia.
Qed.

(** One edge never raises the budget. *)
Lemma visit_edge_budget st e :
  In e (edges g) ->
  budget g (visit_edge pf changedNodeId sourceRepoId st e) <= budget g st.
Proof.
  intros He. unfold visit_edge, budget.
  destruct (has (visited st) (e_source e)) eqn:Hv; simpl; [lia|].
  rewrite length_app. simpl.
  assert (In (e_source e) (map e_source (edges g))) as Hs
      by now apply in_map.
  pose proof (unvisited_snoc_lt _ _ _ Hs Hv). lia.
Qed.

Lemma fold_visit_budget es st :
  incl es (edges g) ->
  budget g (fold_left (visit_edge pf changedNodeId sourceRepoId) es st)
  <= budget g st.
Proof.
  revert st. induction es as [|e es IH]; intros st Hincl; simpl; [lia|].
  etransitivity.
  - apply IH. intros x Hx. apply Hincl. now right.
  - apply visit_edge_budget. apply Hincl. now left.
Qed.

Lemma iteration_budget cur st :
  budget g (bfs_iteration pf g changedNodeId sourceRepoId cur st)
  <= budget g st.
Proof.
  apply fold_visit_budget. unfold dependentEdges.
  intros e He. now apply filter_In in He.
Qed.

(** An id is added to [visited] only when it is not there yet. *)
Lemma visit_edge_NoDup st e :
  NoDup (visited st) ->
  NoDup (visited (visit_edge pf changedNodeId sourceRepoId st e)).
Proof.
  intros Hnd. unfold visit_edge.
  destruct (has (visited st) (e_source e)) eqn:Hv; simpl; [assumption|].
  apply NoDup_app; [assumption | repeat constructor; intros [] | ].
  intros x Hx [<-|[]].
  apply has_In in Hx. congruence.
Qed.

Lemma fold_visit_NoDup es st :
  NoDup (visited st) ->
  NoDup (visited
           (fold_left (visit_edge pf changedNodeId sourceRepoId) es st)).
Proof.
  revert st. induction es as [|e es IH]; intros st H; simpl; [assumption|].
  apply IH. now apply visit_edge_NoDup.
Qed.

Lemma while_NoDup fuel st st' :
  bfs_while pf g changedNodeId sourceRepoId fuel st = Some st' ->
  NoDup (visited st) -> NoDup (visited st').
Proof.
  revert st. induction fuel as [|fuel IH]; intros st; simpl.
  - destruct (queue st) eqn:Q; [|discriminate].
    now intros [= <-].
  - destruct (queue st) eqn:Q; [now intros [= <-]|].
    intros H Hnd. apply IH in H; [assumption|].
    now apply fold_visit_NoDup.
Qed.

(** The loop stops only with its queue empty. *)
Lemma while_queue_empty fuel st st' :
  bfs_while pf g changedNodeId sourceRepoId fuel st = Some st' ->
  queue st' = [].
Proof.
  revert st. induction fuel as [|fuel IH]; intros st; simpl.
  - destruct (queue st) eqn:Q; [|discriminate].
    now intros [= <-].
  - destruct (queue st) eqn:Q; [now intros [= <-]|].
    apply IH.
Qed.

(** With as many turns as the budget, the loop runs to its end. *)
Lemma while_terminates fuel st :
  budget g st <= fuel ->
  exists st', bfs_while pf g changedNodeId sourceRepoId fuel st = Some st'.
Proof.
  revert st. induction fuel as [|fuel IH]; intros st Hb; simpl.
  - destruct (queue st) eqn:Q; [now eexists|].
    unfold budget in Hb. rewrite Q in Hb. simpl in Hb. lia.
  - destruct (queue st) as [|cur rest] eqn:Q; [now eexists|].
    apply IH.
    etransitivity; [apply iteration_budget|].
    unfold budget in *. rewrite Q in Hb. simpl in *. lia.
Qed.

(** More turns than needed change nothing. *)
Lemma while_more_fuel fuel fuel' st st' :
  bfs_while pf g changedNodeId sourceRepoId fuel st = Some st' ->
  fuel <= fuel' ->
  bfs_while pf g changedNodeId sourceRepoId fuel' st = Some st'.
Proof.
  revert fuel' st. induction fuel as [|fuel IH]; intros fuel' st; simpl.
  - destruct (queue st) eqn:Q; [|discriminate].
    intros [= <-] _. destruct fuel'; simpl; now rewrite Q.
  - destruct (queue st) eqn:Q.
    + intros [= <-] _. destruct fuel'; simpl; now rewrite Q.
    + intros H Hle. destruct fuel' as [|fuel']; [lia|].
      simpl. rewrite Q. apply IH; [assumption | lia].
Qed.

Lemma budget_init :
  budget g (bfs_init changedNodeId) <= S (length (edges g)).
Proof.
  change (S (length (unvisited (map e_source (edges g)) [changedNodeId]))
          <= S (length (edges g))).
  apply (proj1 (Nat.succ_le_mono _ _)).
  rewrite <- (length_map e_source (edges g)).
  apply filter_length_le.
Qed.

(** C3.  On every graph the traversal of [findAffectedFiles] comes to
    its end, with the queue empty, within one turn more than there are
    edges; no id is added to the visited set twice, import cycles or
    not; more turns would change nothing, and what [findAffectedFiles]
    returns is the list built when the loop stops. *)
Theorem findAffectedFiles_terminates :
  exists st,
    bfs_run pf g changedNodeId sourceRepoId (S (length (edges g))) = Some st
    /\ queue st = []
    /\ NoDup (visited st)
    /\ (forall fuel, S (length (edges g)) <= fuel ->
          bfs_run pf g changedNodeId sourceRepoId fuel = Some st)
    /\ findAffectedFiles pf g changedNodeId sourceRepoId = affected st.
Proof.
  destruct (while_terminates _ (bfs_init changedNodeId) budget_init)
    as [st Hst].
  exists st. unfold findAffectedFiles, bfs_run. rewrite Hst.
  repeat split.
  - eapply while_queue_empty; eassumption.
  - eapply while_NoDup; [eassumption|].
    simpl. repeat constructor. intros [].
  - intros fuel Hf. eapply while_more_fuel; eassumption.
Qed.

(** *** What is visited and what is reported *)

Lemma visit_edge_in_step st e :
  in_step pf changedNodeId sourceRepoId st ->
  in_step pf changedNodeId sourceRepoId
          (visit_edge pf changedNodeId sourceRepoId st e).
Proof.
  intros (others & Hv & Ha). unfold visit_edge.
  destruct (has (visited st) (e_source e)); simpl; [now exists others|].
  exists (others ++ [e_source e]). rewrite Hv, Ha. split; [reflexivity|].
  unfold reported. rewrite flat_map_app. simpl.
  fold (repo_of_id (e_source e)). fold (path_of_id (e_source e)).
  destruct (String.eqb (repo_of_id (e_source e)) sourceRepoId); simpl.
  - now rewrite app_nil_r.
  - reflexivity.
Qed.

Lemma fold_visit_in_step es st :
  in_step pf changedNodeId sourceRepoId st ->
  in_step pf changedNodeId sourceRepoId
          (fold_left (visit_edge pf changedNodeId sourceRepoId) es st).
Proof.
  revert st. induction es as [|e es IH]; intros st H; simpl; [assumption|].
  apply IH. now apply visit_edge_in_step.
Qed.

Lemma while_in_step fuel st st' :
  bfs_while pf g changedNodeId sourceRepoId fuel st = Some st' ->
  in_step pf changedNodeId sourceRepoId st ->
  in_step pf changedNodeId sourceRepoId st'.
Proof.
  revert st. induction fuel as [|fuel IH]; intros st; simpl.
  - destruct (queue st); [|discriminate]. now intros [= <-].
  - destruct (queue st); [now intros [= <-]|].
    intros H Hs. apply IH in H; [assumption|].
    apply fold_visit_in_step. exact Hs.
Qed.

Lemma fold_visit_grows es st :
  let st' := fold_left (visit_edge pf changedNodeId sourceRepoId) es st in
  incl (visited st) (visited st')
  /\ incl (queue st) (queue st')
  /\ (forall x, In x (visited st') -> In x (visited st) \/ In x (queue st'))
  /\ (forall e, In e es -> In (e_source e) (visited st')).
Proof.
  revert st. induction es as [|e es IH]; intros st; simpl.
  - repeat split; try apply incl_refl; [now left | contradiction].
  - destruct (IH (visit_edge pf changedNodeId sourceRepoId st e))
      as (Hv & Hq & Hnew & Hsrc).
    assert (incl (visited st)
                 (visited (visit_edge pf changedNodeId sourceRepoId st e))
            /\ incl (queue st)
                    (queue (visit_edge pf changedNodeId sourceRepoId st e))
            /\ (forall x,
                   In x (visited
                           (visit_edge pf changedNodeId sourceRepoId st e)) ->
                   In x (visited st)
                   \/ In x (queue
                              (visit_edge pf changedNodeId sourceRepoId st e)))
            /\ In (e_source e)
                  (visited (visit_edge pf changedNodeId sourceRepoId st e)))
      as (Hv1 & Hq1 & Hnew1 & Hsrc1).
    { unfold visit_edge.
      destruct (has (visited st) (e_source e)) eqn:Hh; simpl.
      - repeat split; try apply incl_refl; [now left | now apply has_In].
      - repeat split; try (apply incl_appl, incl_refl).
        + intros x Hx. apply in_app_or in Hx as [Hx|Hx]; [now left|].
          right. apply in_or_app. now right.
        + apply in_or_app. right. now left. }
    repeat split.
    + eapply incl_tran; eassumption.
    + eapply incl_tran; eassumption.
    + intros x Hx. apply Hnew in Hx as [Hx|Hx]; [|now right].
      apply Hnew1 in Hx as [Hx|Hx]; [now left | right; now apply Hq].
    + intros e' [<-|He']; [now apply Hv | now apply Hsrc].
Qed.

Lemma iteration_importers_visited cur rest st :
  queue st = cur :: rest ->
  importers_visited g st ->
  importers_visited g
    (bfs_iteration pf g changedNodeId sourceRepoId cur
       {| queue := rest; visited := visited st; affected := affected st |}).
Proof.
  intros Hq Hinv e He Ht Hvis Hnq.
  unfold bfs_iteration in *.
  destruct (fold_visit_grows (dependentEdges g cur)
              {| queue := rest; visited := visited st;
                 affected := affected st |}) as (Hv & Hqs & Hnew & Hsrc).
  simpl in Hv, Hqs, Hnew.
  destruct (String.eqb (e_target e) cur) eqn:Ecur.
  - apply Hsrc. unfold dependentEdges. apply filter_In. split; [assumption|].
    rewrite Ecur, Ht. reflexivity.
  - apply Hv. apply Hinv; try assumption.
    + apply Hnew in Hvis as [Hvis|Hvis]; [assumption | contradiction].
    + rewrite Hq. intros [Hc|Hr].
      * apply String.eqb_neq in Ecur. congruence.
      * apply Hnq. now apply Hqs.
Qed.

Lemma while_importers_visited fuel st st' :
  bfs_while pf g changedNodeId sourceRepoId fuel st = Some st' ->
  importers_visited g st -> importers_visited g st'.
Proof.
  revert st. induction fuel as [|fuel IH]; intros st; simpl.
  - destruct (queue st); [|discriminate]. now intros [= <-].
  - destruct (queue st) as [|cur rest] eqn:Q; [now intros [= <-]|].
    intros H Hinv. apply IH in H; [assumption|].
    now apply iteration_importers_visited.
Qed.

(** The traversal reaches every file that imports, directly or through
    other files of any repository, the changed one; it reports those of
    them whose repository is not the source's. *)
Lemma traversal_spec :
  exists st others,
    bfs_run pf g changedNodeId sourceRepoId (S (length (edges g))) = Some st
    /\ visited st = changedNodeId :: others
    /\ (forall e, In e (edges g) -> e_type e = "IMPORTS" ->
                  In (e_target e) (visited st) -> In (e_source e) (visited st))
    /\ findAffectedFiles pf g changedNodeId sourceRepoId
       = reported pf changedNodeId sourceRepoId others.
Proof.
  destruct (while_terminates _ (bfs_init changedNodeId) budget_init)
    as [st Hst].
  destruct (while_in_step _ _ _ Hst) as (others & Hv & Ha).
  { exists []. split; reflexivity. }
  exists st, others. unfold findAffectedFiles, bfs_run. rewrite Hst.
  repeat split; try assumption.
  intros e He Ht Hvis.
  eapply (while_importers_visited _ _ _ Hst); try eassumption.
  - intros e' _ _ Hin Hnq. simpl in *. tauto.
  - rewrite (while_queue_empty _ _ _ Hst). intros [].
Qed.

Lemma reported_other_repo ids e :
  In e (reported pf changedNodeId sourceRepoId ids) ->
  repoId e <> sourceRepoId
  /\ reason e = String.append "Imports " (Path.basename pf changedNodeId)
  /\ exists id, In id ids /\ repoId e = repo_of_id id
                /\ filePath e = path_of_id id.
Proof.
  unfold reported. intros H. apply in_flat_map in H as (id & Hid & H).
  destruct (String.eqb (repo_of_id id) sourceRepoId) eqn:E; simpl in H;
    [contradiction|].
  destruct H as [<-|[]]. simpl. apply String.eqb_neq in E.
  repeat split; try assumption. exists id. auto.
Qed.

(** A property of the entries that each edge keeps holds of the list
    returned. *)
Lemma findAffectedFiles_Forall (P : AffectedFile -> Prop) :
  (forall st e,
      Forall P (affected st) ->
      Forall P (affected (visit_edge pf changedNodeId sourceRepoId st e))) ->
  Forall P (findAffectedFiles pf g changedNodeId sourceRepoId).
Proof.
  intros Hstep.
  assert (forall es st,
             Forall P (affected st) ->
             Forall P (affected
                         (fold_left
                            (visit_edge pf changedNodeId sourceRepoId) es st)))
    as Hfold.
  { induction es as [|e es IH]; intros st H; simpl; [assumption|].
    apply IH. now apply Hstep. }
  assert (forall fuel st st',
             bfs_while pf g changedNodeId sourceRepoId fuel st = Some st' ->
             Forall P (affected st) -> Forall P (affected st')) as Hwhile.
  { induction fuel as [|fuel IH]; intros st st'; simpl.
    - destruct (queue st); [|discriminate]. now intros [= <-].
    - destruct (queue st); [now intros [= <-]|].
      intros H HP. eapply IH; [eassumption|].
      apply Hfold. exact HP. }
  unfold findAffectedFiles, bfs_run.
  destruct (bfs_while pf g changedNodeId sourceRepoId (S (length (edges g)))
              (bfs_init changedNodeId)) as [st|] eqn:E; [|constructor].
  eapply Hwhile; [eassumption | constructor].
Qed.

End Traversal.

(** The cycle A imports B imports A: two turns, each id visited once. *)
Example cycle_is_traversed_once :
  bfs_run Path.Posix Examples.cycle_graph "R1:a.ts" "R1" 3
  = Some {| queue := [];
            visited := ["R1:a.ts"; "R2:b.ts"];
            affected := [{| repoId := "R2"; filePath := "b.ts";
                            reason := "Imports R1:a.ts" |}] |}.
Proof. reflexivity. Qed.

End TraversalFacts.

(* ===================================================================== *)
(** ** Frames: what each step leaves behind *)
(* ===================================================================== *)

Module FrameFacts.

Import ImpactAnalyzer Notions.

Lemma add_trace_nil st : add_trace st [] = st.
Proof. destruct st. unfold add_trace. simpl. now rewrite app_nil_r. Qed.

Lemma add_trace_app st evs evs' :
  add_trace (add_trace st evs) evs' = add_trace st (evs ++ evs').
Proof. unfold add_trace. simpl. now rewrite app_assoc. Qed.

Lemma emit_add_trace e st : emit e st = (Val tt, add_trace st [e]).
Proof. reflexivity. Qed.

(** The retry loop returns a string, never throws, and touches nothing but
    the trace; text and events do not depend on the frame it starts in. *)
Lemma for_attempts_frame w prompt retries attempts :
  exists text evs, forall st,
    AIService.for_attempts w prompt retries attempts st
    = (Val text, add_trace st evs).
Proof.
  induction attempts as [|attempt rest (text & evs & IH)].
  - exists EmptyString, []. intros st. simpl. unfold ret.
    now rewrite add_trace_nil.
  - simpl. unfold bind.
    destruct (model_generate w prompt attempt) as [reply|error].
    + exists reply, [Attempt prompt attempt]. reflexivity.
    + destruct (AIService.isRateLimit error && (attempt <? retries)).
      * exists text,
          (Attempt prompt attempt :: Sleep (AIService.delay attempt) :: evs).
        intros st. rewrite !emit_add_trace, IH, !add_trace_app. reflexivity.
      * destruct (attempt =? retries).
        -- exists EmptyString, [Attempt prompt attempt]. reflexivity.
        -- exists text, (Attempt prompt attempt :: evs).
           intros st. rewrite emit_add_trace, IH, add_trace_app. reflexivity.
Qed.

Lemma generateContent_frame w prompt retries :
  exists text evs, forall st,
    AIService.generateContent w prompt retries st
    = (Val text, add_trace st evs).
Proof.
  unfold AIService.generateContent.
  destruct (genAI w); simpl.
  - apply for_attempts_frame.
  - exists EmptyString, []. intros st. unfold ret. now rewrite add_trace_nil.
Qed.

(** The scan of the files reads the world and changes no frame. *)
Lemma trim_item_pure f :
  exists o, forall st, trim_item f st = (o, st).
Proof. destruct f; simpl; eexists; reflexivity. Qed.

Lemma map_trim_pure items :
  exists o, forall st, map_trim items st = (o, st).
Proof.
  induction items as [|f rest [o IH]]; simpl.
  - eexists; reflexivity.
  - unfold bind. destruct (trim_item_pure f) as [[t|e] Hf].
    + destruct o as [ts|e].
      * exists (Val (t :: ts)). intros st. now rewrite Hf, IH.
      * exists (Throw e). intros st. now rewrite Hf, IH.
    + exists (Throw e). intros st. now rewrite Hf.
Qed.

(** One file: the array as it was, or with one entry more; no exception
    leaves the [try]. *)
Lemma scan_step_pure w functionList fileRepoId filePathStr acc :
  exists next, forall st,
    try_catch (scan_body w functionList fileRepoId filePathStr acc)
              (fun _ => ret acc) st = (Val next, st)
    /\ (next = acc
        \/ exists why,
             next = acc ++ [{| repoId := fileRepoId;
                               filePath := filePathStr;
                               reason := why |}]).
Proof.
  unfold try_catch, scan_body, existsSync, readFileSync, bind.
  destruct (fs_file w fileRepoId filePathStr) as [| |text]; simpl.
  - exists acc. intros st. split; [reflexivity | now left].
  - exists acc. intros st. split; [reflexivity | now left].
  - destruct (0 <? length (file_usages functionList text)).
    + eexists. intros st. split; [reflexivity|]. right. eexists. reflexivity.
    + exists acc. intros st. split; [reflexivity | now left].
Qed.

End FrameFacts.

(* ===================================================================== *)
(** ** The textual scan *)
(* ===================================================================== *)

Module ScanFacts.

Import ImpactAnalyzer Notions FrameFacts IdFacts.

(** The loop over the files never throws and changes no frame; it adds
    at most one entry per file, named after the file's id. *)
Lemma scan_files_pure w functionList files :
  forall acc, exists l,
    (forall st, scan_files w functionList files acc st = (Val l, st))
    /\ length l <= length acc + length files
    /\ (forall e, In e l ->
          In e acc
          \/ exists file, In file files
                          /\ repoId e = repo_of_id (n_id file)
                          /\ filePath e = path_of_id (n_id file)).
Proof.
  induction files as [|file rest IH]; intros acc; simpl.
  - exists acc. repeat split; [lia | now left].
  - destruct (scan_step_pure w functionList (repo_of_id (n_id file))
                (path_of_id (n_id file)) acc) as [next Hnext].
    destruct (IH next) as (l & Hl & Hlen & Hin).
    exists l. split; [|split].
    + intros st. unfold bind.
      fold (repo_of_id (n_id file)). fold (path_of_id (n_id file)).
      rewrite (proj1 (Hnext st)). apply Hl.
    + destruct (proj2 (Hnext frame0)) as [->|[why ->]];
        [|rewrite length_app in Hlen; simpl in Hlen]; lia.
    + intros e He. destruct (Hin e He) as [Hacc|(f & Hf & Hr & Hp)].
      * destruct (proj2 (Hnext frame0)) as [->|[why ->]]; [now left|].
        apply in_app_or in Hacc as [Hacc|[<-|[]]]; [now left|].
        right. exists file. simpl. auto.
      * right. exists f. auto.
Qed.

(** The scan changes no frame, and whatever it returns has at most 50
    entries, each named after one of the first 50 candidate nodes. *)
Lemma searchForAffectedFiles_pure w g sourceRepoId changedFunctions :
  exists o,
    (forall st,
        searchForAffectedFiles w g sourceRepoId changedFunctions st = (o, st))
    /\ (forall l, o = Val l ->
          length l <= 50
          /\ forall e, In e l ->
               exists file, In file (firstn 50 (otherRepoFiles g sourceRepoId))
                            /\ repoId e = repo_of_id (n_id file)
                            /\ filePath e = path_of_id (n_id file)).
Proof.
  unfold searchForAffectedFiles.
  destruct changedFunctions as [| | | |items|];
    try (eexists; split; [intros st; reflexivity | intros l [=]]).
  unfold bind.
  destruct (map_trim_pure items) as [[trimmed|e] Ht].
  - destruct (length (filter (fun f => 2 <? String.length f) trimmed) =? 0)
      eqn:E.
    + exists (Val []). split.
      * intros st. now rewrite Ht, E.
      * intros l [= <-]. split; [simpl; lia | intros e []].
    + destruct (scan_files_pure w
                  (filter (fun f => 2 <? String.length f) trimmed)
                  (firstn 50 (otherRepoFiles g sourceRepoId)) [])
        as (l & Hl & Hlen & Hin).
      exists (Val l). split.
      * intros st. now rewrite Ht, E, Hl.
      * intros l' [= <-]. split.
        -- rewrite length_firstn in Hlen.
           change (length (@nil AffectedFile)) with 0 in Hlen. lia.
        -- intros e He. destruct (Hin e He) as [[]|H]. exact H.
  - exists (Throw e). split.
    + intros st. now rewrite Ht.
    + intros l [=].
Qed.

Lemma otherRepoFiles_spec g sourceRepoId file :
  In file (otherRepoFiles g sourceRepoId) ->
  In file (nodes g)
  /\ n_type file = "FILE"
  /\ JS.startsWith (n_id file) sourceRepoId = false.
Proof.
  unfold otherRepoFiles. intros H. apply filter_In in H as [Hin Hf].
  apply andb_prop in Hf as [Hf _]. apply andb_prop in Hf as [Ht Hs].
  apply String.eqb_eq in Ht. apply negb_true_iff in Hs. auto.
Qed.

Lemma firstn_In {A} n (l : list A) x : In x (firstn n l) -> In x l.
Proof.
  revert l. induction n as [|n IH]; intros [|y l]; simpl; try tauto.
  intros [->|H]; [now left | right; now apply IH].
Qed.

End ScanFacts.

(* ===================================================================== *)
(** ** Removing duplicates through a [Map] *)
(* ===================================================================== *)

Module DedupFacts.

Import ImpactAnalyzer Notions IdFacts.

Set Implicit Arguments.

Section MapLaws.
Variable V : Type.
Implicit Types (m : JS.Map V) (k : string) (v : V).

Lemma keys_map_set k v m : keys (JS.map_set k v m) = add_key (keys m) k.
Proof.
  unfold add_key, keys, has.
  induction m as [|[k' v'] m IH]; simpl; [reflexivity|].
  destruct (String.eqb k k') eqn:E; simpl.
  - apply String.eqb_eq in E. now subst.
  - rewrite IH. now destruct (existsb (String.eqb k) (map fst m)).
Qed.

Lemma get_map_set_same k v m : JS.map_get k (JS.map_set k v m) = Some v.
Proof.
  induction m as [|[k' v'] m IH]; simpl.
  - now rewrite String.eqb_refl.
  - destruct (String.eqb k k') eqn:E; simpl.
    + now rewrite String.eqb_refl.
    + now rewrite E.
Qed.

Lemma get_map_set_other k k' v m :
  k' <> k -> JS.map_get k' (JS.map_set k v m) = JS.map_get k' m.
Proof.
  intros Hne.
  induction m as [|[k0 v0] m IH]; simpl.
  - apply String.eqb_neq in Hne. now rewrite Hne.
  - destruct (String.eqb k k0) eqn:E; simpl.
    + apply String.eqb_eq in E. subst k0.
      apply String.eqb_neq in Hne. now rewrite Hne.
    + now rewrite IH.
Qed.

Lemma add_key_NoDup ks k : NoDup ks -> NoDup (add_key ks k).
Proof.
  intros H. unfold add_key. destruct (has ks k) eqn:E; [assumption|].
  apply NoDup_app; [assumption | repeat constructor; intros [] | ].
  intros x Hx [<-|[]].
  apply TraversalFacts.has_In in Hx. congruence.
Qed.

Lemma get_In k v m : JS.map_get k m = Some v -> In (k, v) m.
Proof.
  induction m as [|[k' v'] m IH]; simpl; [discriminate|].
  destruct (String.eqb k k') eqn:E.
  - apply String.eqb_eq in E. intros [= ->]. left. now subst.
  - intros H. right. now apply IH.
Qed.

Lemma In_get k v m : NoDup (keys m) -> In (k, v) m -> JS.map_get k m = Some v.
Proof.
  unfold keys.
  induction m as [|[k' v'] m IH]; simpl; [contradiction|].
  intros Hnd [[= -> ->]|Hin].
  - now rewrite String.eqb_refl.
  - inversion Hnd as [|? ? Hnotin Hnd']; subst.
    destruct (String.eqb k k') eqn:E.
    + apply String.eqb_eq in E. subst k'.
      elim Hnotin. change k with (fst (k, v)). now apply in_map.
    + now apply IH.
Qed.

End MapLaws.

Unset Implicit Arguments.

Lemma fold_keys l m :
  keys (fold_left set_entry (map entry_of l) m)
  = fold_left (@add_key) (map dedup_key l) (keys m).
Proof.
  revert m. induction l as [|e l IH]; intros m; simpl; [reflexivity|].
  rewrite IH. f_equal. unfold set_entry. simpl. apply keys_map_set.
Qed.

Lemma fold_add_key_NoDup ks acc :
  NoDup acc -> NoDup (fold_left (@add_key) ks acc).
Proof.
  revert acc. induction ks as [|k ks IH]; intros acc H; simpl; [assumption|].
  apply IH. now apply add_key_NoDup.
Qed.

Lemma fold_get k l m :
  JS.map_get k (fold_left set_entry (map entry_of l) m)
  = match last_with_key k l with
    | Some e => Some e
    | None => JS.map_get k m
    end.
Proof.
  revert m. induction l as [|e l IH]; intros m; simpl; [reflexivity|].
  rewrite IH. destruct (last_with_key k l); [reflexivity|].
  unfold set_entry. simpl.
  destruct (String.eqb (dedup_key e) k) eqn:E.
  - apply String.eqb_eq in E. subst k. apply get_map_set_same.
  - apply get_map_set_other. apply String.eqb_neq in E. congruence.
Qed.

Lemma last_with_key_key k l e :
  last_with_key k l = Some e -> dedup_key e = k /\ In e l.
Proof.
  induction l as [|x l IH]; simpl; [discriminate|].
  destruct (last_with_key k l) as [e'|].
  - intros [= ->]. destruct (IH eq_refl). auto.
  - destruct (String.eqb (dedup_key x) k) eqn:E; [|discriminate].
    intros [= ->]. apply String.eqb_eq in E. auto.
Qed.

(** Every binding of the map built from [l] pairs a value with its key. *)
Lemma fold_In_key l m k e :
  In (k, e) (fold_left set_entry (map entry_of l) m) ->
  In (k, e) m \/ (dedup_key e = k /\ In e l).
Proof.
  revert m. induction l as [|x l IH]; intros m; simpl; [now left|].
  intros H. apply IH in H as [H|[Hk Hin]]; [|now auto].
  unfold set_entry in H. simpl in H.
  clear IH. induction m as [|[k' v'] m IHm]; simpl in H.
  - destruct H as [[= <- <-]|[]]. right. auto.
  - destruct (String.eqb (dedup_key x) k').
    + destruct H as [[= <- <-]|H]; [right; auto | left; now right].
    + destruct H as [H|H]; [left; now left|].
      apply IHm in H as [H|H]; [left; now right | now right].
Qed.

Lemma filter_filter_ext {A} (p q r : A -> bool) (l : list A) :
  (forall x, r x = p x && q x) ->
  filter p (filter q l) = filter r l.
Proof.
  intros H. induction l as [|x l IH]; simpl; [reflexivity|].
  rewrite H. destruct (q x); simpl.
  - rewrite IH. now rewrite andb_true_r.
  - now rewrite andb_false_r.
Qed.

Lemma fold_add_key_order ks acc :
  fold_left (@add_key) ks acc
  = acc ++ filter (fun x => negb (has acc x)) (first_occurrences ks).
Proof.
  revert acc. induction ks as [|k ks IH]; intros acc; simpl.
  - now rewrite app_nil_r.
  - rewrite IH. unfold add_key. cbn [filter].
    destruct (has acc k) eqn:E; cbn [negb].
    + f_equal. symmetry. apply filter_filter_ext. intros x.
      destruct (has acc x) eqn:Ex; simpl; [reflexivity|].
      destruct (String.eqb x k) eqn:Exk; [|reflexivity].
      apply String.eqb_eq in Exk. congruence.
    + rewrite <- app_assoc. cbn [app]. f_equal. f_equal.
      symmetry. apply filter_filter_ext. intros x.
      rewrite TraversalFacts.has_snoc. now rewrite negb_orb.
Qed.

(** What the [Map] keeps: one entry per key, the keys in the order of
    their first occurrence, each with the last entry that had it. *)
Lemma uniqueAffectedFiles_spec l :
  NoDup (map dedup_key (uniqueAffectedFiles l))
  /\ map dedup_key (uniqueAffectedFiles l)
     = first_occurrences (map dedup_key l)
  /\ (forall e, In e (uniqueAffectedFiles l)
                <-> last_with_key (dedup_key e) l = Some e).
Proof.
  unfold uniqueAffectedFiles, JS.Map_of_entries, JS.map_values.
  change (fun m kv => JS.map_set (fst kv) (snd kv) m) with set_entry.
  change (fun f => (dedup_key f, f)) with entry_of.
  set (m := fold_left set_entry (map entry_of l) []).
  assert (forall k e, In (k, e) m -> dedup_key e = k) as Hkey.
  { intros k e H. apply fold_In_key in H as [[]|[H _]]. exact H. }
  assert (map dedup_key (map snd m) = keys m) as Hkeys.
  { unfold keys. rewrite map_map. apply map_ext_in.
    intros [k e] H. simpl. now apply Hkey. }
  assert (NoDup (keys m)) as Hnd.
  { unfold m. rewrite fold_keys. apply fold_add_key_NoDup. constructor. }
  rewrite Hkeys. split; [exact Hnd|]. split.
  - unfold m. rewrite fold_keys, fold_add_key_order. simpl.
    apply forallb_filter_id. apply forallb_forall. reflexivity.
  - intros e. split.
    + intros H. apply in_map_iff in H as ([k e'] & <- & H). simpl.
      pose proof (Hkey _ _ H) as Hk. simpl. rewrite Hk.
      apply In_get in H; [|exact Hnd].
      unfold m in H. rewrite fold_get in H.
      now destruct (last_with_key k l).
    + intros H. apply in_map_iff. exists (dedup_key e, e).
      split; [reflexivity|].
      apply get_In. unfold m. rewrite fold_get. now rewrite H.
Qed.

(** Nothing comes out of the [Map] that did not go in. *)
Lemma uniqueAffectedFiles_incl l e :
  In e (uniqueAffectedFiles l) -> In e l.
Proof.
  intros H. apply uniqueAffectedFiles_spec in H.
  now apply last_with_key_key in H.
Qed.

Lemma last_with_key_app k a b :
  last_with_key k (a ++ b)
  = match last_with_key k b with
    | Some e => Some e
    | None => last_with_key k a
    end.
Proof.
  induction a as [|x a IH]; simpl.
  - now destruct (last_with_key k b).
  - rewrite IH. now destruct (last_with_key k b).
Qed.

Lemma last_with_key_some k l e :
  In e l -> dedup_key e = k -> exists e', last_with_key k l = Some e'.
Proof.
  intros Hin Hk. induction l as [|x l IH]; simpl; [contradiction|].
  destruct Hin as [->|Hin].
  - destruct (last_with_key k l); [now eexists|].
    apply String.eqb_eq in Hk. rewrite Hk. now eexists.
  - destruct (IH Hin) as [e' ->]. now eexists.
Qed.

(** The key stands for the pair: a repository id holds no colon, so the
    first colon of the key is the one between the two components. *)
Lemma dedup_key_pair e1 e2 :
  no_colon (repoId e1) = true -> no_colon (repoId e2) = true ->
  (dedup_key e1 = dedup_key e2
   <-> repoId e1 = repoId e2 /\ filePath e1 = filePath e2).
Proof.
  unfold dedup_key. intros H1 H2. split; [|now intros [-> ->]].
  generalize dependent (repoId e2). generalize dependent (repoId e1).
  intros r1. induction r1 as [|c r1 IH]; intros H1 [|d r2] H2 E; simpl in *.
  - now injection E.
  - injection E as Ec _. subst d. discriminate.
  - injection E as Ec _. subst c. discriminate.
  - injection E as -> E.
    apply andb_prop in H1 as [_ H1]. apply andb_prop in H2 as [_ H2].
    destruct (IH H1 r2 H2 E) as [-> ->]. auto.
Qed.

(** C5, as stated, fails: with R2's [c.ts] found by the traversal and
    again by the scan, the one entry left is the scan's, so the
    structural reason is gone. *)
Lemma dedup_overwrites_earlier_reason : ~ first_entry_survives.
Proof.
  intros H.
  specialize (H [Examples.structural_c] [Examples.semantic_c]
                Examples.semantic_c (or_introl eq_refl)).
  discriminate H.
Qed.

(** C5, amended.  Entries with the same key collapse to one: the result
    has each key once, in the order in which the keys first occur in the
    concatenation, and the entry kept under a key is the last one that
    had it.  So for a key found both structurally and semantically the
    entry kept is one of the semantic list.  The key stands for the pair
    (repository id, file path) as long as repository ids hold no colon,
    which is so of every id the analyzer splits. *)
Theorem dedup_keeps_last_entry (structural semantic : list AffectedFile) :
  NoDup (map dedup_key (uniqueAffectedFiles (structural ++ semantic)))
  /\ map dedup_key (uniqueAffectedFiles (structural ++ semantic))
     = first_occurrences (map dedup_key (structural ++ semantic))
  /\ (forall e,
         In e (uniqueAffectedFiles (structural ++ semantic))
         <-> last_with_key (dedup_key e) (structural ++ semantic) = Some e)
  /\ (forall s m,
         In s structural -> In m semantic -> dedup_key s = dedup_key m ->
         exists kept,
           In kept semantic
           /\ dedup_key kept = dedup_key s
           /\ In kept (uniqueAffectedFiles (structural ++ semantic))
           /\ forall e,
               In e (uniqueAffectedFiles (structural ++ semantic)) ->
               dedup_key e = dedup_key s -> e = kept)
  /\ (forall e1 e2,
         no_colon (repoId e1) = true -> no_colon (repoId e2) = true ->
         (dedup_key e1 = dedup_key e2
          <-> repoId e1 = repoId e2 /\ filePath e1 = filePath e2)).
Proof.
  destruct (uniqueAffectedFiles_spec (structural ++ semantic))
    as (Hnd & Horder & Hlast).
  split; [exact Hnd|]. split; [exact Horder|]. split; [exact Hlast|].
  split; [|exact dedup_key_pair].
  intros s m Hs Hm Hk.
  destruct (last_with_key_some _ semantic m Hm (eq_sym Hk)) as [kept Hkept].
  destruct (last_with_key_key _ _ _ Hkept) as [Hkk Hin].
  assert (last_with_key (dedup_key s) (structural ++ semantic) = Some kept)
    as Hall by now rewrite last_with_key_app, Hkept.
  exists kept. repeat split; try assumption.
  - apply Hlast. now rewrite Hkk.
  - intros e He Hek. apply Hlast in He. rewrite Hek in He. congruence.
Qed.

(** The same on a whole analysis: R2's [c.ts] imports the changed file
    and calls the changed function, and is reported with the scan's
    reason alone. *)
Example scenario_keeps_the_semantic_reason :
  fst (analyzeFileChange Examples.breaking_fetchUser_world "P" "R1" "a.ts"
         (Some "old") (Some "new") frame0)
  = Val Examples.breaking_fetchUser_result.
Proof. vm_compute. reflexivity. Qed.

(** The two entries for R2's [c.ts]: the scan's is the one kept. *)
Lemma dedup_keeps_last_entry_witness :
  exists kept,
    In kept [Examples.semantic_c]
    /\ dedup_key kept = dedup_key Examples.structural_c
    /\ In kept (uniqueAffectedFiles
                  ([Examples.structural_c] ++ [Examples.semantic_c]))
    /\ forall e,
        In e (uniqueAffectedFiles
                ([Examples.structural_c] ++ [Examples.semantic_c])) ->
        dedup_key e = dedup_key Examples.structural_c -> e = kept.
Proof.
  apply (proj1 (proj2 (proj2 (proj2
           (dedup_keeps_last_entry [Examples.structural_c]
                                   [Examples.semantic_c]))))
           Examples.structural_c Examples.semantic_c);
    [now left | now left | reflexivity].
Defined.

End DedupFacts.

(* ===================================================================== *)
(** ** [analyzeFileChange], step by step *)
(* ===================================================================== *)

Module AnalysisFacts.

Import ImpactAnalyzer Notions FrameFacts IdFacts ScanFacts.

(** A reply that parsed to something other than [null] sets both flags;
    the semantic list is replaced only when the scan ran to its end. *)
Lemma apply_reply_spec w g repoId' result st :
  result <> JS.JNull ->
  exists o sem,
    apply_reply w g repoId' result st
    = (o, classified_frame result sem (trace st))
    /\ (sem = loc_semanticAffectedFiles st
        \/ forall s,
            searchForAffectedFiles w g repoId'
              (JS.or_default (prop_of result "changedFunctions")
                             (JS.JArr [])) s
            = (Val sem, s)).
Proof.
  intros Hnull.
  assert (forall key s, property result key s = (Val (prop_of result key), s))
    as Hprop
      by (intros key s; destruct result; try reflexivity; now elim Hnull).
  unfold apply_reply, bind. rewrite Hprop. simpl.
  rewrite Hprop. simpl. rewrite Hprop.
  destruct (length_gt_zero w
              (JS.or_default (prop_of result "changedFunctions")
                             (JS.JArr []))).
  - destruct (searchForAffectedFiles_pure w g repoId'
                (JS.or_default (prop_of result "changedFunctions")
                               (JS.JArr []))) as ([found|e] & Hs & _).
    + exists (Val tt), found. rewrite Hs. split; [reflexivity|].
      right. exact Hs.
    + exists (Throw e), (loc_semanticAffectedFiles st). rewrite Hs.
      split; [reflexivity | now left].
  - exists (Val tt), (loc_semanticAffectedFiles st).
    split; [reflexivity | now left].
Qed.

Lemma classify_spec w g repoId' oldContent newContent :
  exists text evs,
    (forall st,
        AIService.generateContent w (prompt_of oldContent newContent)
          AIService.default_retries st = (Val text, add_trace st evs))
    /\ forall st,
        classify_post w g repoId' text evs st
          (classify w g repoId' oldContent newContent st).
Proof.
  destruct (generateContent_frame w (prompt_of oldContent newContent)
              AIService.default_retries) as (text & evs & Hgen).
  exists text, evs. split; [exact Hgen|].
  intros st. unfold classify_post, classify, bind. rewrite Hgen.
  destruct (JS.match_braces text) as [jsonMatch|]; [|reflexivity].
  unfold parse. destruct (JSON_parse w jsonMatch) as [result|];
    [|eexists; reflexivity].
  destruct result;
    try (apply (@apply_reply_spec w g repoId' _ (add_trace st evs));
         discriminate).
  eexists; reflexivity.
Qed.

Lemma analyzeFileChange_not_found w p r f old new st :
  find_changedNodeId (getGraph w p) (possibleNodeIds r f) = None ->
  analyzeFileChange w p r f old new st
  = (Val (createEmptyResult w p r f), st).
Proof. intros H. unfold analyzeFileChange. cbv zeta. now rewrite H. Qed.

Lemma analyzeFileChange_found w p r f old new st changedNodeId :
  find_changedNodeId (getGraph w p) (possibleNodeIds r f) = Some changedNodeId ->
  analyzeFileChange w p r f old new st
  = (Val (result_of w p r f
            (findAffectedFiles (platform w) (getGraph w p) changedNodeId r)
            (after_try w (getGraph w p) r old new st)),
     after_try w (getGraph w p) r old new st).
Proof.
  intros H. unfold analyzeFileChange, after_try, result_of.
  cbv zeta. rewrite H.
  unfold bind at 1 2 3. simpl.
  fold (locals_init st). unfold bind at 1.
  destruct (given old && given new).
  - unfold try_catch.
    destruct (classify w (getGraph w p) r (content_of old) (content_of new)
                (locals_init st))
      as [[[]|e] st']; simpl;
      unfold bind, get_frame;
      now destruct (JS.truthy (loc_isBreaking st')).
  - unfold ret at 1. unfold bind, get_frame. reflexivity.
Qed.

(** Whatever happens, a result is returned. *)
Lemma analyzeFileChange_returns w p r f old new st :
  exists res st', analyzeFileChange w p r f old new st = (Val res, st').
Proof.
  destruct (find_changedNodeId (getGraph w p) (possibleNodeIds r f)) eqn:E.
  - erewrite analyzeFileChange_found by eassumption. now eexists; eexists.
  - rewrite analyzeFileChange_not_found by assumption. now eexists; eexists.
Qed.

Lemma or_default_false v :
  JS.truthy (JS.or_default v (JS.JBool false)) = false ->
  JS.or_default v (JS.JBool false) = JS.JBool false.
Proof.
  destruct v as [x|]; simpl; [|reflexivity].
  destruct (JS.truthy x) eqn:E; [congruence | reflexivity].
Qed.

(** The locals after the [try]: the flag is truthy or exactly [false],
    and the semantic list is empty or the value the scan returned. *)
Lemma after_try_spec w g r old new st :
  let locals := after_try w g r old new st in
  (JS.truthy (loc_isBreaking locals) = false ->
   loc_isBreaking locals = JS.JBool false)
  /\ (loc_semanticAffectedFiles locals = []
      \/ exists changedFunctions,
           forall s,
             searchForAffectedFiles w g r changedFunctions s
             = (Val (loc_semanticAffectedFiles locals), s)).
Proof.
  unfold after_try.
  destruct (given old && given new); [|split; [reflexivity | now left]].
  destruct (classify_spec w g r (content_of old) (content_of new))
    as (text & evs & _ & Hpost).
  specialize (Hpost (locals_init st)). unfold classify_post in Hpost.
  destruct (JS.match_braces text) as [jsonMatch|];
    [|rewrite Hpost; split; [reflexivity | now left]].
  destruct (JSON_parse w jsonMatch) as [result|];
    [|destruct Hpost as [e ->]; split; [reflexivity | now left]].
  destruct result;
    [ destruct Hpost as [e ->]; split; [reflexivity | now left] | .. ];
    (destruct Hpost as (o & sem & -> & Hsem);
     cbn [snd classified_frame loc_isBreaking loc_semanticAffectedFiles];
     split;
     [ apply or_default_false
     | destruct Hsem as [->|Hsem];
       [now left | right; eexists; exact Hsem] ]).
Qed.

End AnalysisFacts.

(* ===================================================================== *)
(** ** What [analyzeFileChange] returns *)
(* ===================================================================== *)

Module ImpactFacts.

Import ImpactAnalyzer Notions FrameFacts IdFacts ScanFacts DedupFacts.
Import AnalysisFacts.

(** The lookup fails exactly when no candidate is the id of a node. *)
Lemma find_changedNodeId_none g candidates :
  (forall candidate, In candidate candidates ->
     forall n, In n (nodes g) -> n_id n <> candidate) ->
  find_changedNodeId g candidates = None.
Proof.
  unfold find_changedNodeId. intros H.
  induction candidates as [|c cs IH]; simpl; [reflexivity|].
  destruct (node_exists g c) eqn:E.
  - unfold node_exists in E. apply existsb_exists in E as (n & Hn & En).
    apply String.eqb_eq in En. elim (H c (or_introl eq_refl) n Hn En).
  - apply IH. intros c' Hc'. apply H. now right.
Qed.

(** C6.  When none of the three candidate ids (forward slashes, as given,
    backslashes) is the id of a node, the call returns, without throwing
    and without touching the frame, the empty result: no affected file,
    severity LOW, not breaking, and the explanation "File not found in
    dependency graph" (the specification's words, up to the capital). *)
Theorem unknown_file_gives_empty_result
        (w : World) (p r f : string) (old new : option string) (st : Frame) :
  (forall candidate, In candidate (possibleNodeIds r f) ->
     forall n, In n (nodes (getGraph w p)) -> n_id n <> candidate) ->
  exists res,
    analyzeFileChange w p r f old new st = (Val res, st)
    /\ res = createEmptyResult w p r f
    /\ affectedFiles res = []
    /\ severity res = LOW
    /\ isBreaking res = JS.JBool false
    /\ explanation res = JS.JStr "File not found in dependency graph"
    /\ JS.toLowerCase "File not found in dependency graph"
       = "file not found in dependency graph".
Proof.
  intros H. exists (createEmptyResult w p r f).
  rewrite analyzeFileChange_not_found
    by now apply find_changedNodeId_none.
  repeat split.
Qed.

(** [zz.ts] is not in the scenario's graph. *)
Lemma unknown_file_gives_empty_result_witness :
  exists res,
    analyzeFileChange Examples.breaking_world "P" "R1" "zz.ts"
      (Some "old") (Some "new") frame0 = (Val res, frame0)
    /\ res = createEmptyResult Examples.breaking_world "P" "R1" "zz.ts"
    /\ affectedFiles res = []
    /\ severity res = LOW
    /\ isBreaking res = JS.JBool false
    /\ explanation res = JS.JStr "File not found in dependency graph"
    /\ JS.toLowerCase "File not found in dependency graph"
       = "file not found in dependency graph".
Proof.
  apply (unknown_file_gives_empty_result Examples.breaking_world
           "P" "R1" "zz.ts" (Some "old") (Some "new") frame0).
  intros candidate Hc n Hn E.
  simpl in Hc, Hn.
  repeat (destruct Hc as [<-|Hc]; [repeat (destruct Hn as [<-|Hn];
          [discriminate E|]); exact Hn|]).
  exact Hc.
Defined.

(** C1.  A result whose breaking flag is falsy has no affected files and
    severity LOW, and its flag is exactly [false], whatever the traversal
    and the scan had found. *)
Theorem non_breaking_reports_nothing
        (w : World) (p r f : string) (old new : option string) (st : Frame)
        (res : ImpactResult) :
  fst (analyzeFileChange w p r f old new st) = Val res ->
  JS.truthy (isBreaking res) = false ->
  affectedFiles res = [] /\ severity res = LOW
  /\ isBreaking res = JS.JBool false.
Proof.
  destruct (find_changedNodeId (getGraph w p) (possibleNodeIds r f)) as [c|] eqn:E.
  - rewrite (analyzeFileChange_found w p r f old new st _ E). simpl.
    intros [= <-]. unfold result_of.
    destruct (JS.truthy (loc_isBreaking (after_try w (getGraph w p) r old new st))) eqn:T;
      simpl; [congruence|].
    intros _. repeat split.
    now apply (proj1 (after_try_spec w (getGraph w p) r old new st)).
  - rewrite (analyzeFileChange_not_found w p r f old new st E). simpl.
    intros [= <-] _. repeat split.
Qed.

(** The scenario with a classifier that says not breaking: the traversal
    finds R2's [c.ts] and so does the scan, and the result lists nothing. *)
Lemma non_breaking_reports_nothing_witness :
  findAffectedFiles Path.Posix Examples.scenario_graph "R1:a.ts" "R1"
  = Examples.scenario_structural
  /\ affectedFiles Examples.harmless_result = []
  /\ severity Examples.harmless_result = LOW
  /\ isBreaking Examples.harmless_result = JS.JBool false.
Proof.
  split; [reflexivity|].
  apply (non_breaking_reports_nothing Examples.harmless_world
           "P" "R1" "a.ts" (Some "old") (Some "new") frame0
           Examples.harmless_result);
    [vm_compute; reflexivity | reflexivity].
Defined.

Lemma absent_or_empty_not_given content :
  absent_or_empty content -> given content = false.
Proof. intros [->| ->]; reflexivity. Qed.

(** C10.  When the old or the new content is missing or empty, no request
    goes to the classifier (the trace is as it was), the flag stays
    [false], and the result has no affected files and severity LOW,
    whatever the traversal found. *)
Theorem missing_content_reports_nothing
        (w : World) (p r f : string) (old new : option string) (st : Frame) :
  absent_or_empty old \/ absent_or_empty new ->
  exists res st',
    analyzeFileChange w p r f old new st = (Val res, st')
    /\ trace st' = trace st
    /\ affectedFiles res = []
    /\ severity res = LOW
    /\ isBreaking res = JS.JBool false.
Proof.
  intros H.
  assert (given old && given new = false) as Hg.
  { destruct H as [H|H]; apply absent_or_empty_not_given in H; rewrite H;
      [reflexivity | apply andb_false_r]. }
  destruct (find_changedNodeId (getGraph w p) (possibleNodeIds r f)) as [c|] eqn:E.
  - rewrite (analyzeFileChange_found w p r f old new st _ E).
    unfold after_try. rewrite Hg.
    eexists; eexists. split; [reflexivity|]. repeat split.
  - rewrite (analyzeFileChange_not_found w p r f old new st E).
    eexists; eexists. split; [reflexivity|]. repeat split.
Qed.

(** Seen from outside: no request is sent, nothing is reported. *)
Example contentless_call_sends_nothing :
  run Examples.breaking_world "P" "R1" "a.ts" (Some "old") None
  = (Val Examples.contentless_result, []).
Proof. reflexivity. Qed.

(** The scenario, with a classifier that would say breaking, called with
    no new content: R2's [c.ts] imports the file, and is not reported. *)
Lemma missing_content_reports_nothing_witness :
  findAffectedFiles Path.Posix Examples.scenario_graph "R1:a.ts" "R1"
  = Examples.scenario_structural
  /\ exists res st',
      analyzeFileChange Examples.breaking_world "P" "R1" "a.ts"
        (Some "old") None frame0 = (Val res, st')
      /\ trace st' = trace frame0
      /\ affectedFiles res = []
      /\ severity res = LOW
      /\ isBreaking res = JS.JBool false.
Proof.
  split; [reflexivity|].
  apply (missing_content_reports_nothing Examples.breaking_world
           "P" "R1" "a.ts" (Some "old") None frame0).
  right. left. reflexivity.
Defined.

(** The traversal reports no file of the source repository. *)
Lemma findAffectedFiles_other_repo pf g changedNodeId sourceRepoId :
  Forall (fun e => repoId e <> sourceRepoId)
         (findAffectedFiles pf g changedNodeId sourceRepoId).
Proof.
  destruct (TraversalFacts.traversal_spec pf g changedNodeId sourceRepoId)
    as (bst & others & _ & _ & _ & ->).
  apply Forall_forall. intros e He.
  now apply TraversalFacts.reported_other_repo in He.
Qed.

(** The scan reports at most 50 files, each a FILE node of another
    repository. *)
Lemma searchForAffectedFiles_other_repo w g sourceRepoId changedFunctions s l :
  fst (searchForAffectedFiles w g sourceRepoId changedFunctions s) = Val l ->
  length l <= 50
  /\ Forall (fun e =>
               repoId e <> sourceRepoId
               /\ exists file,
                   In file (nodes g) /\ n_type file = "FILE"
                   /\ repoId e = repo_of_id (n_id file)
                   /\ filePath e = path_of_id (n_id file)) l.
Proof.
  destruct (searchForAffectedFiles_pure w g sourceRepoId changedFunctions)
    as (o & Ho & Hval).
  rewrite Ho. simpl. intros ->.
  destruct (Hval l eq_refl) as [Hlen Hin].
  split; [exact Hlen|].
  apply Forall_forall. intros e He.
  destruct (Hin e He) as (file & Hfile & Hr & Hp).
  apply firstn_In, otherRepoFiles_spec in Hfile as (Hnode & Htype & Hstart).
  split.
  - rewrite Hr. now apply not_startsWith_other_repo.
  - exists file. auto.
Qed.

(** C4.  Every entry of the affected files of a result names a repository
    other than the changed file's.  The traversal visits every importer
    of a visited file, of whatever repository, and reports the visited
    ids whose repository is not the source's; the scan reports at most 50
    files, each a FILE node whose id does not start with the source
    repository's id. *)
Theorem affected_files_are_in_other_repositories
        (w : World) (p r f : string) (old new : option string) (st : Frame) :
  (exists res st',
      analyzeFileChange w p r f old new st = (Val res, st')
      /\ Forall (fun e => repoId e <> r) (affectedFiles res))
  /\ (forall changedNodeId,
         exists bst others,
           bfs_run (platform w) (getGraph w p) changedNodeId r
                   (S (length (edges (getGraph w p)))) = Some bst
           /\ visited bst = changedNodeId :: others
           /\ (forall e, In e (edges (getGraph w p)) -> e_type e = "IMPORTS" ->
                         In (e_target e) (visited bst) ->
                         In (e_source e) (visited bst))
           /\ findAffectedFiles (platform w) (getGraph w p) changedNodeId r
              = reported (platform w) changedNodeId r others
           /\ Forall (fun e => repoId e <> r)
                     (findAffectedFiles (platform w) (getGraph w p)
                                        changedNodeId r))
  /\ (forall changedFunctions s l,
         fst (searchForAffectedFiles w (getGraph w p) r changedFunctions s)
         = Val l ->
         length l <= 50
         /\ Forall (fun e =>
                      repoId e <> r
                      /\ exists file,
                          In file (nodes (getGraph w p)) /\ n_type file = "FILE"
                          /\ repoId e = repo_of_id (n_id file)
                          /\ filePath e = path_of_id (n_id file)) l).
Proof.
  split; [|split].
  - destruct (find_changedNodeId (getGraph w p) (possibleNodeIds r f))
      as [c|] eqn:E.
    + rewrite (analyzeFileChange_found w p r f old new st _ E).
      eexists; eexists. split; [reflexivity|].
      unfold result_of.
      destruct (JS.truthy (loc_isBreaking (after_try w (getGraph w p) r old new st)));
        simpl; [|constructor].
      apply Forall_forall. intros e He.
      apply uniqueAffectedFiles_incl, in_app_or in He as [He|He].
      * pose proof (findAffectedFiles_other_repo (platform w) (getGraph w p) c r)
          as H.
        rewrite Forall_forall in H. now apply H.
      * destruct (proj2 (after_try_spec w (getGraph w p) r old new st)) as [Hnil|[cf Hcf]].
        -- rewrite Hnil in He. contradiction.
        -- pose proof (searchForAffectedFiles_other_repo w (getGraph w p) r cf
                         frame0 _ (f_equal fst (Hcf frame0))) as [_ H].
           rewrite Forall_forall in H. now apply H.
    + rewrite (analyzeFileChange_not_found w p r f old new st E).
      eexists; eexists. split; [reflexivity | constructor].
  - intros c.
    destruct (TraversalFacts.traversal_spec (platform w) (getGraph w p) c r)
      as (bst & others & Hrun & Hv & Hclosed & Hrep).
    exists bst, others. repeat split; try assumption.
    apply findAffectedFiles_other_repo.
  - intros cf s l. apply searchForAffectedFiles_other_repo.
Qed.

(** The traversal passes through R1's own [lib/b.ts] to reach R2's
    [d.ts], and reports only the latter. *)
Example same_repository_importer_is_traversed :
  bfs_run Path.Posix Examples.chain_graph "R1:lib/a.ts" "R1" 3
  = Some {| queue := [];
            visited := ["R1:lib/a.ts"; "R1:lib/b.ts"; "R2:d.ts"];
            affected := [{| repoId := "R2"; filePath := "d.ts";
                            reason := "Imports a.ts" |}] |}.
Proof. reflexivity. Qed.

(** *** Failures of the classifier and of the file system *)

(** When every attempt fails, the retry loop returns the empty string. *)
Lemma for_attempts_all_fail w prompt retries attempts :
  (forall n, In n attempts ->
     exists error, model_generate w prompt n = Failed error) ->
  exists evs, forall st,
    AIService.for_attempts w prompt retries attempts st
    = (Val EmptyString, add_trace st evs).
Proof.
  induction attempts as [|attempt rest IH]; intros Hfail.
  - exists []. intros st. simpl. unfold ret. now rewrite add_trace_nil.
  - destruct IH as [evs IH]; [intros n Hn; apply Hfail; now right|].
    destruct (Hfail attempt (or_introl eq_refl)) as [error Herr].
    simpl. unfold bind. rewrite Herr.
    destruct (AIService.isRateLimit error && (attempt <? retries)).
    + eexists. intros st.
      rewrite !emit_add_trace, IH, !add_trace_app. reflexivity.
    + destruct (attempt =? retries).
      * eexists. intros st. rewrite emit_add_trace. reflexivity.
      * eexists. intros st.
        rewrite emit_add_trace, IH, add_trace_app. reflexivity.
Qed.

Lemma classifier_down_no_usable_reply w oldContent newContent :
  genAI w = false
  \/ (forall n, 1 <= n <= 3 ->
        exists error,
          model_generate w (prompt_of oldContent newContent) n
          = Failed error) ->
  no_usable_reply w oldContent newContent.
Proof.
  intros H. unfold no_usable_reply, AIService.generateContent.
  destruct (genAI w) eqn:G; simpl.
  - destruct H as [H|H]; [discriminate|].
    destruct (for_attempts_all_fail w (prompt_of oldContent newContent)
                AIService.default_retries (seq 1 AIService.default_retries))
      as [evs Hevs].
    { intros n Hn. apply H. apply in_seq in Hn.
      unfold AIService.default_retries in Hn. lia. }
    exists EmptyString, evs. split; [exact Hevs | now left].
  - exists EmptyString, []. split; [|now left].
    intros st. unfold ret. now rewrite add_trace_nil.
Qed.

(** With nothing to parse, the [try] statement changes no local. *)
Lemma try_classify_no_contribution w g r oldContent newContent :
  no_usable_reply w oldContent newContent ->
  exists evs, forall st,
    try_catch (classify w g r oldContent newContent) (fun _ => ret tt) st
    = (Val tt, add_trace st evs).
Proof.
  intros (text & evs & Hgen & Hbad).
  destruct (classify_spec w g r oldContent newContent)
    as (text' & evs' & Hgen' & Hpost).
  pose proof (Hgen frame0) as E. rewrite Hgen' in E.
  injection E as -> ->.
  exists evs. intros st. specialize (Hpost st).
  unfold classify_post in Hpost. unfold try_catch.
  destruct Hbad as [Hnone|(jsonMatch & Hsome & Hparse)].
  - rewrite Hnone in Hpost. now rewrite Hpost.
  - rewrite Hsome, Hparse in Hpost. destruct Hpost as [e ->]. reflexivity.
Qed.

(** Unreadable files count as missing ones. *)
Lemma scan_files_unreadable w w' functionList files :
  (forall repo path,
      fs_file w' repo path
      = match fs_file w repo path with
        | Unreadable => Missing
        | state => state
        end) ->
  forall acc s,
    scan_files w' functionList files acc s
    = scan_files w functionList files acc s.
Proof.
  intros Hfs. induction files as [|file rest IH]; intros acc s; simpl;
    [reflexivity|].
  unfold bind, try_catch, scan_body, existsSync, readFileSync. rewrite Hfs.
  destruct (fs_file w (hd EmptyString (JS.split JS.colon (n_id file)))
              (JS.join ":" (tl (JS.split JS.colon (n_id file)))));
    simpl; try apply IH.
  unfold bind. simpl.
  destruct (0 <? length (file_usages functionList text)); simpl; apply IH.
Qed.

(** C7.  The analysis always returns a result.  When the classifier is
    not configured or fails at each of its attempts, the reply is empty;
    a reply with nothing to parse (no braces, or text that [JSON.parse]
    rejects) leaves the locals as they were, so the result is not
    breaking, with no affected file and the default explanation; and a
    file that cannot be read during the scan is passed over like a
    missing one, the scan going on to its end. *)
Theorem failures_are_no_contribution
        (w : World) (p r f : string) (old new : option string) (st : Frame) :
  (exists res st', analyzeFileChange w p r f old new st = (Val res, st'))
  /\ (genAI w = false
      \/ (forall n, 1 <= n <= 3 ->
            exists error,
              model_generate w
                (prompt_of (content_of old) (content_of new)) n
              = Failed error) ->
      no_usable_reply w (content_of old) (content_of new))
  /\ (no_usable_reply w (content_of old) (content_of new) ->
      forall changedNodeId,
        find_changedNodeId (getGraph w p) (possibleNodeIds r f)
        = Some changedNodeId ->
        exists res st',
          analyzeFileChange w p r f old new st = (Val res, st')
          /\ loc_semanticAffectedFiles st' = []
          /\ isBreaking res = JS.JBool false
          /\ affectedFiles res = []
          /\ severity res = LOW
          /\ explanation res = JS.JStr "File modified")
  /\ (forall functionList files acc s,
         exists l,
           scan_files w functionList files acc s = (Val l, s)
           /\ forall w',
               (forall repo path,
                   fs_file w' repo path
                   = match fs_file w repo path with
                     | Unreadable => Missing
                     | state => state
                     end) ->
               scan_files w' functionList files acc s = (Val l, s)).
Proof.
  split; [apply analyzeFileChange_returns|].
  split; [apply classifier_down_no_usable_reply|].
  split.
  - intros Hbad c E.
    rewrite (analyzeFileChange_found w p r f old new st _ E).
    eexists; eexists. split; [reflexivity|].
    assert (exists evs,
               after_try w (getGraph w p) r old new st
               = add_trace (locals_init st) evs)
      as [evs ->].
    { unfold after_try. destruct (given old && given new).
      - destruct (try_classify_no_contribution w (getGraph w p) r _ _ Hbad) as [evs Hevs].
        exists evs. specialize (Hevs (locals_init st)).
        unfold try_catch in Hevs.
        destruct (classify w (getGraph w p) r (content_of old)
                    (content_of new) (locals_init st)) as [[[]|e] st']; simpl in *;
          now injection Hevs.
      - exists []. now rewrite add_trace_nil. }
    repeat split.
  - intros functionList files acc s.
    destruct (scan_files_pure w functionList files acc) as (l & Hl & _).
    exists l. split; [apply Hl|].
    intros w' Hfs. rewrite (scan_files_unreadable w w') by exact Hfs.
    apply Hl.
Qed.

(** Every attempt is rate limited: the scenario's change is reported as
    not breaking, with the default explanation. *)
Lemma failures_are_no_contribution_witness :
  exists res st',
    analyzeFileChange Examples.throttled_world "P" "R1" "a.ts"
      (Some "old") (Some "new") frame0 = (Val res, st')
    /\ loc_semanticAffectedFiles st' = []
    /\ isBreaking res = JS.JBool false
    /\ affectedFiles res = []
    /\ severity res = LOW
    /\ explanation res = JS.JStr "File modified".
Proof.
  destruct (failures_are_no_contribution Examples.throttled_world
              "P" "R1" "a.ts" (Some "old") (Some "new") frame0)
    as (_ & Hdown & Hnone & _).
  apply (Hnone (Hdown (or_intror
                         (fun n _ => ex_intro _ Examples.rate_limited eq_refl)))
               "R1:a.ts" eq_refl).
Defined.

(** *** The reason of a structural entry *)

(** C9.  Each structural entry's reason is "Imports " followed by
    [path.basename] of the changed node's id.  In the specification's
    scenario the reason of R2's [c.ts] is "Imports R1:a.ts", on either
    platform, which does not mention "imports a.ts" even with the case
    set aside.  In general (POSIX): for a file at the root of its
    repository the id holds no separator and its base name is the whole
    id, repository id included; for a file in a directory it is the
    file's own name. *)
Theorem root_level_reason_keeps_repository_id :
  (forall pf g changedNodeId sourceRepoId,
      Forall (fun e =>
                reason e
                = String.append "Imports " (Path.basename pf changedNodeId))
             (findAffectedFiles pf g changedNodeId sourceRepoId))
  /\ fst (analyzeFileChange Examples.breaking_world "P" "R1" "a.ts"
            (Some "old") (Some "new") frame0)
     = Val Examples.breaking_result
  /\ affectedFiles Examples.breaking_result
     = [{| repoId := "R2"; filePath := "c.ts";
           reason := "Imports R1:a.ts" |}]
  /\ Path.basename Path.Posix "R1:a.ts" = "R1:a.ts"
  /\ Path.basename Path.Win32 "R1:a.ts" = "R1:a.ts"
  /\ JS.includes (JS.toLowerCase "Imports R1:a.ts") "imports a.ts" = false
  /\ (forall repo name,
         no_slash repo = true -> no_slash name = true ->
         Path.basename Path.Posix (repo ++ ":" ++ name)%string
         = (repo ++ ":" ++ name)%string)
  /\ (forall repo dir name,
         name <> EmptyString -> no_slash name = true ->
         Path.basename Path.Posix
           (repo ++ ":" ++ dir ++ String JS.slash name)%string = name).
Proof.
  split.
  - intros pf g c src.
    destruct (TraversalFacts.traversal_spec pf g c src)
      as (bst & others & _ & _ & _ & ->).
    apply Forall_forall. intros e He.
    now apply TraversalFacts.reported_other_repo in He.
  - split; [vm_compute; reflexivity|].
    split; [reflexivity|]. split; [reflexivity|]. split; [reflexivity|].
    split; [reflexivity|].
    split; [exact PathFacts.basename_of_root_id
           | exact PathFacts.basename_of_nested_id].
Qed.

End ImpactFacts.

(* ===================================================================== *)
(** ** The retry policy of [generateContent] *)
(* ===================================================================== *)

Module RetryFacts.

Import Notions FrameFacts.


Example flaky_world_recovers :
  AIService.generateContent Examples.flaky_world "prompt"
    AIService.default_retries frame0
  = (Val "recovered",
     add_trace frame0 [Attempt "prompt" 1; Attempt "prompt" 2]).
Proof. reflexivity. Qed.

Example throttled_world_backs_off :
  AIService.generateContent Examples.throttled_world "prompt"
    AIService.default_retries frame0
  = (Val EmptyString,
     add_trace frame0 [Attempt "prompt" 1; Sleep 2000;
                       Attempt "prompt" 2; Sleep 4000;
                       Attempt "prompt" 3]).
Proof. reflexivity. Qed.




End RetryFacts.

(* ===================================================================== *)
(** ** What the traversal computes *)
(* ===================================================================== *)

Module ReachFacts.

Import ImpactAnalyzer Notions Dependents.

Section Reach.
Variable pf : Path.platform.
Variable g : Graph.
Variables changedNodeId sourceRepoId : string.

Lemma dependentEdges_In cur e :
  In e (dependentEdges g cur) <->
  In e (edges g) /\ e_target e = cur /\ e_type e = "IMPORTS".
Proof.
  unfold dependentEdges. rewrite filter_In, andb_true_iff, !String.eqb_eq.
  tauto.
Qed.

Lemma visit_edge_only_importers st e :
  only_importers g changedNodeId st ->
  importer g changedNodeId (e_source e) ->
  only_importers g changedNodeId
    (visit_edge pf changedNodeId sourceRepoId st e).
Proof.
  intros [Hv Hq] He. unfold visit_edge.
  destruct (has (visited st) (e_source e)); simpl; [now split|].
  split; simpl; apply Forall_app; split; auto.
Qed.

Lemma fold_visit_only_importers es st :
  Forall (fun e => importer g changedNodeId (e_source e)) es ->
  only_importers g changedNodeId st ->
  only_importers g changedNodeId
    (fold_left (visit_edge pf changedNodeId sourceRepoId) es st).
Proof.
  revert st. induction es as [|e es IH]; intros st Hes Hst; simpl;
    [assumption|].
  inversion Hes as [|? ? He Hes']; subst.
  apply IH; [assumption|]. now apply visit_edge_only_importers.
Qed.

Lemma while_only_importers fuel st st' :
  bfs_while pf g changedNodeId sourceRepoId fuel st = Some st' ->
  only_importers g changedNodeId st ->
  only_importers g changedNodeId st'.
Proof.
  revert st. induction fuel as [|fuel IH]; intros st; simpl.
  - destruct (queue st); [|discriminate]. now intros [= <-].
  - destruct (queue st) as [|cur rest] eqn:Q; [now intros [= <-]|].
    intros H [Hv Hq]. apply IH in H; [assumption|].
    rewrite Q in Hq. inversion Hq as [|? ? Hcur Hrest]; subst.
    apply fold_visit_only_importers; [|now split].
    apply Forall_forall. intros e He.
    apply dependentEdges_In in He as (Hin & Ht & Hty).
    apply importer_step; [assumption | assumption | now rewrite Ht].
Qed.

Lemma In_reported ids e :
  In e (reported pf changedNodeId sourceRepoId ids) <->
  exists id, In id ids /\ repo_of_id id <> sourceRepoId
             /\ e = structural_entry pf changedNodeId id.
Proof.
  unfold reported. rewrite in_flat_map. split.
  - intros (id & Hid & H). exists id.
    destruct (String.eqb (repo_of_id id) sourceRepoId) eqn:E; simpl in H;
      [contradiction|].
    destruct H as [<-|[]]. apply String.eqb_neq in E. auto.
  - intros (id & Hid & Hne & ->). exists id. split; [assumption|].
    apply String.eqb_neq in Hne. rewrite Hne. now left.
Qed.

(** The ids visited are exactly the importers of the changed file. *)
Lemma visited_are_the_importers :
  exists st others,
    bfs_run pf g changedNodeId sourceRepoId (S (length (edges g))) = Some st
    /\ visited st = changedNodeId :: others
    /\ ~ In changedNodeId others
    /\ NoDup others
    /\ (forall x, In x (visited st) <-> importer g changedNodeId x)
    /\ findAffectedFiles pf g changedNodeId sourceRepoId
       = reported pf changedNodeId sourceRepoId others.
Proof.
  destruct (TraversalFacts.traversal_spec pf g changedNodeId sourceRepoId)
    as (st & others & Hrun & Hv & Hclosed & Hrep).
  exists st, others.
  assert (NoDup (visited st)) as Hnd.
  { eapply TraversalFacts.while_NoDup; [exact Hrun|].
    simpl. repeat constructor. intros []. }
  rewrite Hv in Hnd. inversion Hnd as [|? ? Hnotin Hnd']; subst.
  repeat split; try assumption.
  - intros Hx.
    pose proof (while_only_importers _ _ _ Hrun) as [Himp _].
    { split; simpl; repeat constructor. }
    rewrite Forall_forall in Himp. now apply Himp.
  - intros Hx. induction Hx as [|e He Hty Ht IH].
    + rewrite Hv. now left.
    + now apply Hclosed.
Qed.

(** X1.  [findAffectedFiles] returns one entry for each file, other than
    the changed one, that imports the changed file directly or through a
    chain of IMPORTS edges and whose repository is not the source's, and
    nothing else. *)
Theorem findAffectedFiles_reports_the_importers (e : AffectedFile) :
  In e (findAffectedFiles pf g changedNodeId sourceRepoId) <->
  exists id,
    importer g changedNodeId id /\ id <> changedNodeId
    /\ repo_of_id id <> sourceRepoId
    /\ e = structural_entry pf changedNodeId id.
Proof.
  destruct visited_are_the_importers
    as (st & others & _ & Hv & Hnotin & _ & Himp & ->).
  rewrite In_reported. split.
  - intros (id & Hid & Hne & ->). exists id. repeat split; try assumption.
    + apply Himp. rewrite Hv. now right.
    + intros ->. contradiction.
  - intros (id & Hi & Hneq & Hne & ->). exists id. repeat split; try assumption.
    apply Himp in Hi. rewrite Hv in Hi. destruct Hi as [Hi|Hi];
      [now elim Hneq | assumption].
Qed.

(** Along IMPORTS edges that stay in a repository, every importer is of
    the repository of the changed file. *)
Lemma importers_share_the_repository x :
  imports_stay_in_repository g ->
  importer g changedNodeId x -> repo_of_id x = repo_of_id changedNodeId.
Proof.
  intros Hintra Hx. induction Hx as [|e He Hty Ht IH]; [reflexivity|].
  now rewrite (Hintra e He Hty).
Qed.

Lemma reported_nil ids :
  (forall id, In id ids -> repo_of_id id = sourceRepoId) ->
  reported pf changedNodeId sourceRepoId ids = [].
Proof.
  induction ids as [|id ids IH]; intros Hall; [reflexivity|].
  unfold reported in *. simpl.
  rewrite (Hall id (or_introl eq_refl)), String.eqb_refl. simpl.
  apply IH. intros id' Hid'. apply Hall. now right.
Qed.

(** When all the importers are of the source repository, nothing is
    reported. *)
Lemma same_repository_reports_nothing :
  (forall x, importer g changedNodeId x -> repo_of_id x = sourceRepoId) ->
  findAffectedFiles pf g changedNodeId sourceRepoId = [].
Proof.
  intros Hrepo.
  destruct visited_are_the_importers
    as (st & others & _ & Hv & _ & _ & Himp & ->).
  apply reported_nil. intros id Hid. apply Hrepo, Himp. rewrite Hv.
  now right.
Qed.

(** X2.  When every IMPORTS edge joins two files of one repository and
    the changed file is of the source repository, the traversal reports
    nothing: every importer is of the source repository too. *)
Theorem intra_repository_imports_report_nothing :
  imports_stay_in_repository g ->
  repo_of_id changedNodeId = sourceRepoId ->
  findAffectedFiles pf g changedNodeId sourceRepoId = [].
Proof.
  intros Hintra Hsrc. apply same_repository_reports_nothing.
  intros x Hx. rewrite <- Hsrc. now apply importers_share_the_repository.
Qed.

End Reach.

(** Two repositories that do not import each other: a change to R1's
    [src/a.ts] reaches R1's [src/b.ts] and no file of R2. *)
Lemma intra_repository_imports_report_nothing_witness :
  findAffectedFiles Path.Posix MoreExamples.separate_graph "R1:src/a.ts" "R1"
  = [].
Proof.
  apply (intra_repository_imports_report_nothing Path.Posix
           MoreExamples.separate_graph "R1:src/a.ts" "R1");
    [|reflexivity].
  intros e He _. simpl in He.
  destruct He as [<-|[<-|[]]]; reflexivity.
Defined.

End ReachFacts.

(* ===================================================================== *)
(** ** What a result holds *)
(* ===================================================================== *)

Module ResultFacts.

Import ImpactAnalyzer Notions FrameFacts ScanFacts AnalysisFacts Replies.

Lemma reply_text_spec w prompt text evs :
  (forall st,
      AIService.generateContent w prompt AIService.default_retries st
      = (Val text, add_trace st evs)) ->
  reply_text w prompt = text.
Proof. intros H. unfold reply_text. now rewrite H. Qed.

Lemma or_default_truthy v d :
  JS.truthy d = true -> JS.truthy (JS.or_default v d) = true.
Proof.
  intros Hd. destruct v as [x|]; simpl; [|assumption].
  now destruct (JS.truthy x) eqn:E.
Qed.

(** The locals after the [try], by what the reply parsed to. *)
Lemma after_try_cases w g r old new st :
  let locals := after_try w g r old new st in
  (exists evs, locals = add_trace (locals_init st) evs)
  \/ (given old && given new = true
      /\ exists result sem evs,
          parsed_reply w (content_of old) (content_of new) = Some result
          /\ result <> JS.JNull
          /\ locals = classified_frame result sem (trace st ++ evs)
          /\ (sem = []
              \/ forall s,
                  searchForAffectedFiles w g r
                    (JS.or_default (prop_of result "changedFunctions")
                                   (JS.JArr [])) s
                  = (Val sem, s))).
Proof.
  unfold after_try.
  destruct (given old && given new);
    [|left; exists []; now rewrite add_trace_nil].
  destruct (classify_spec w g r (content_of old) (content_of new))
    as (text & evs & Hgen & Hpost).
  specialize (Hpost (locals_init st)). unfold classify_post in Hpost.
  unfold parsed_reply. rewrite (reply_text_spec _ _ _ _ Hgen).
  destruct (JS.match_braces text) as [jsonMatch|];
    [|rewrite Hpost; left; now exists evs].
  destruct (JSON_parse w jsonMatch) as [result|];
    [|destruct Hpost as [e ->]; left; now exists evs].
  destruct result;
    [ destruct Hpost as [e ->]; left; now exists evs | .. ];
    (destruct Hpost as (o & sem & -> & Hsem);
     right; split; [reflexivity|];
     eexists; exists sem, evs;
     split; [reflexivity|]; split; [discriminate|];
     split; [reflexivity | exact Hsem]).
Qed.

(** X3.  The severity of a result follows from the number of its affected
    files alone: LOW when there is none, HIGH from one to five, CRITICAL
    above five; MEDIUM is never returned, and a result that lists a file
    is flagged breaking. *)
Theorem result_severity_follows_the_count
        (w : World) (p r f : string) (old new : option string) (st : Frame) :
  exists res st',
    analyzeFileChange w p r f old new st = (Val res, st')
    /\ severity res <> MEDIUM
    /\ (affectedFiles res = [] -> severity res = LOW)
    /\ (1 <= length (affectedFiles res) <= 5 -> severity res = HIGH)
    /\ (5 < length (affectedFiles res) -> severity res = CRITICAL)
    /\ (affectedFiles res <> [] -> JS.truthy (isBreaking res) = true).
Proof.
  destruct (find_changedNodeId (getGraph w p) (possibleNodeIds r f))
    as [c|] eqn:E.
  - rewrite (analyzeFileChange_found w p r f old new st _ E).
    eexists; eexists. split; [reflexivity|]. unfold result_of.
    destruct (JS.truthy (loc_isBreaking
                           (after_try w (getGraph w p) r old new st))) eqn:T;
      cbn [negb severity affectedFiles isBreaking length].
    + rewrite SeverityFacts.determineSeverity_breaking.
      set (n := length _).
      destruct (5 <? n) eqn:E5; [apply Nat.ltb_lt in E5|apply Nat.ltb_ge in E5];
        [|destruct (0 <? n) eqn:E0;
          [apply Nat.ltb_lt in E0|apply Nat.ltb_ge in E0]];
        (split; [discriminate|]);
        (split; [intros Hnil; subst n; rewrite Hnil in *; simpl in *;
                 try reflexivity; lia|]);
        (split; [intros ?; try reflexivity; lia|]);
        (split; [intros ?; try reflexivity; lia | intros _; exact T]).
    + repeat split; try discriminate; try (simpl; lia).
      intros H. now elim H.
  - rewrite (analyzeFileChange_not_found w p r f old new st E).
    eexists; eexists. split; [reflexivity|]. simpl.
    repeat split; try discriminate; try lia. intros H. now elim H.
Qed.

(** The locals after the [try] when the reply parsed. *)
Lemma after_try_parsed w g r old new st result :
  given old && given new = true ->
  parsed_reply w (content_of old) (content_of new) = Some result ->
  result <> JS.JNull ->
  exists sem evs,
    after_try w g r old new st
    = classified_frame result sem (trace st ++ evs)
    /\ (sem = []
        \/ forall s,
            searchForAffectedFiles w g r
              (JS.or_default (prop_of result "changedFunctions")
                             (JS.JArr [])) s
            = (Val sem, s)).
Proof.
  intros Hg Hparsed Hnull. unfold after_try. rewrite Hg.
  destruct (classify_spec w g r (content_of old) (content_of new))
    as (text & evs & Hgen & Hpost).
  specialize (Hpost (locals_init st)). unfold classify_post in Hpost.
  unfold parsed_reply in Hparsed.
  rewrite (reply_text_spec _ _ _ _ Hgen) in Hparsed.
  destruct (JS.match_braces text) as [jsonMatch|]; [|discriminate].
  rewrite Hparsed in Hpost.
  destruct result; [now elim Hnull | ..];
    (destruct Hpost as (o & sem & -> & Hsem); exists sem, evs;
     split; [reflexivity | exact Hsem]).
Qed.

(** X4.  When the file is in the graph, both contents are given and the
    classifier's reply parses, the result carries the reply's verdict
    and explanation ([false] and "Analyzed by AI" standing in for what is
    missing or falsy), and lists the merged affected files exactly when
    the verdict is truthy. *)
Theorem result_carries_the_verdict
        (w : World) (p r f : string) (old new : option string) (st : Frame)
        (changedNodeId : string) (result : JS.json) :
  find_changedNodeId (getGraph w p) (possibleNodeIds r f)
  = Some changedNodeId ->
  given old && given new = true ->
  parsed_reply w (content_of old) (content_of new) = Some result ->
  result <> JS.JNull ->
  exists res st',
    analyzeFileChange w p r f old new st = (Val res, st')
    /\ isBreaking res
       = JS.or_default (prop_of result "isBreaking") (JS.JBool false)
    /\ explanation res
       = JS.or_default (prop_of result "explanation")
                       (JS.JStr "Analyzed by AI")
    /\ affectedFiles res
       = (if JS.truthy (isBreaking res)
          then uniqueAffectedFiles
                 (findAffectedFiles (platform w) (getGraph w p)
                                    changedNodeId r
                  ++ loc_semanticAffectedFiles st')
          else [])
    /\ severity res
       = (if JS.truthy (isBreaking res)
          then determineSeverity (length (affectedFiles res)) true
          else LOW).
Proof.
  intros E Hg Hparsed Hnull.
  rewrite (analyzeFileChange_found w p r f old new st _ E).
  destruct (after_try_parsed w (getGraph w p) r old new st result
              Hg Hparsed Hnull) as (sem & evs & -> & _).
  eexists; eexists. split; [reflexivity|]. unfold result_of.
  cbn [classified_frame loc_isBreaking loc_explanation
       loc_semanticAffectedFiles].
  destruct (JS.truthy
              (JS.or_default (prop_of result "isBreaking") (JS.JBool false)))
    eqn:T; cbn [negb isBreaking explanation affectedFiles severity];
    rewrite ?T; repeat split.
  cbn [JS.or_default].
  rewrite (or_default_truthy (prop_of result "explanation")
             (JS.JStr "Analyzed by AI") eq_refl).
  reflexivity.
Qed.

(** The scenario, breaking: the verdict and the explanation are the
    reply's. *)
Lemma result_carries_the_verdict_witness :
  exists res st',
    analyzeFileChange Examples.breaking_world "P" "R1" "a.ts"
      (Some "old") (Some "new") frame0 = (Val res, st')
    /\ isBreaking res
       = JS.or_default (prop_of (Examples.breaking_reply []) "isBreaking")
                       (JS.JBool false)
    /\ explanation res
       = JS.or_default (prop_of (Examples.breaking_reply []) "explanation")
                       (JS.JStr "Analyzed by AI")
    /\ affectedFiles res
       = (if JS.truthy (isBreaking res)
          then uniqueAffectedFiles
                 (findAffectedFiles
                    (platform Examples.breaking_world)
                    (getGraph Examples.breaking_world "P") "R1:a.ts" "R1"
                  ++ loc_semanticAffectedFiles st')
          else [])
    /\ severity res
       = (if JS.truthy (isBreaking res)
          then determineSeverity (length (affectedFiles res)) true
          else LOW).
Proof.
  apply (result_carries_the_verdict Examples.breaking_world "P" "R1" "a.ts"
           (Some "old") (Some "new") frame0 "R1:a.ts"
           (Examples.breaking_reply []));
    [reflexivity | reflexivity | reflexivity | discriminate].
Defined.

Lemma map_trim_throws items item :
  In item items -> (forall s, item <> JS.JStr s) ->
  forall st, exists e, map_trim items st = (Throw e, st).
Proof.
  intros Hin Hnot st.
  induction items as [|x items IH]; [contradiction|].
  simpl. unfold bind.
  destruct x as [| | |s| |]; simpl;
    try (eexists; reflexivity).
  destruct Hin as [<-|Hin]; [now elim (Hnot s)|].
  destruct (IH Hin) as [e ->]. now exists e.
Qed.

Lemma malformed_names_throw w g r v :
  malformed_names v ->
  forall st, exists e, searchForAffectedFiles w g r v st = (Throw e, st).
Proof.
  intros [(s & -> & _)|(items & item & -> & Hin & Hnot)] st.
  - eexists; reflexivity.
  - simpl. unfold bind.
    destruct (map_trim_throws items item Hin Hnot st) as [e ->].
    now exists e.
Qed.

(** X5.  A reply that parses but gives its changed functions as a string,
    or as an array holding something that is not a string, makes the
    scan throw after the verdict was taken: the result keeps the verdict
    and the explanation and lists the structural files alone. *)
Theorem verdict_survives_malformed_names
        (w : World) (p r f : string) (old new : option string) (st : Frame)
        (changedNodeId : string) (result : JS.json) :
  find_changedNodeId (getGraph w p) (possibleNodeIds r f)
  = Some changedNodeId ->
  given old && given new = true ->
  parsed_reply w (content_of old) (content_of new) = Some result ->
  result <> JS.JNull ->
  malformed_names
    (JS.or_default (prop_of result "changedFunctions") (JS.JArr [])) ->
  exists res st',
    analyzeFileChange w p r f old new st = (Val res, st')
    /\ loc_semanticAffectedFiles st' = []
    /\ isBreaking res
       = JS.or_default (prop_of result "isBreaking") (JS.JBool false)
    /\ affectedFiles res
       = (if JS.truthy (isBreaking res)
          then uniqueAffectedFiles
                 (findAffectedFiles (platform w) (getGraph w p)
                                    changedNodeId r)
          else []).
Proof.
  intros E Hg Hparsed Hnull Hbad.
  rewrite (analyzeFileChange_found w p r f old new st _ E).
  destruct (after_try_parsed w (getGraph w p) r old new st result
              Hg Hparsed Hnull) as (sem & evs & -> & Hsem).
  assert (sem = []) as ->.
  { destruct Hsem as [->|Hsem]; [reflexivity|].
    destruct (malformed_names_throw w (getGraph w p) r _ Hbad frame0)
      as [e He].
    rewrite Hsem in He. discriminate. }
  eexists; eexists. split; [reflexivity|]. unfold result_of.
  cbn [classified_frame loc_isBreaking loc_explanation
       loc_semanticAffectedFiles].
  rewrite app_nil_r.
  destruct (JS.truthy
              (JS.or_default (prop_of result "isBreaking") (JS.JBool false)))
    eqn:T; cbn [negb isBreaking affectedFiles]; rewrite ?T; repeat split.
Qed.

(** The scenario with the names given as one string: R2's [c.ts] calls
    the function, yet is reported for its import only. *)
Lemma verdict_survives_malformed_names_witness :
  exists res st',
    analyzeFileChange MoreExamples.sloppy_world "P" "R1" "a.ts"
      (Some "old") (Some "new") frame0 = (Val res, st')
    /\ loc_semanticAffectedFiles st' = []
    /\ isBreaking res
       = JS.or_default (prop_of MoreExamples.sloppy_reply "isBreaking")
                       (JS.JBool false)
    /\ affectedFiles res
       = (if JS.truthy (isBreaking res)
          then uniqueAffectedFiles
                 (findAffectedFiles
                    (platform MoreExamples.sloppy_world)
                    (getGraph MoreExamples.sloppy_world "P") "R1:a.ts" "R1")
          else []).
Proof.
  apply (verdict_survives_malformed_names MoreExamples.sloppy_world
           "P" "R1" "a.ts" (Some "old") (Some "new") frame0 "R1:a.ts"
           MoreExamples.sloppy_reply);
    [reflexivity | reflexivity | reflexivity | discriminate |].
  left. exists "fetchUser". split; [reflexivity | discriminate].
Defined.


Lemma replaceAll_same_target c d s :
  JS.replaceAll c d (JS.replaceAll c d s) = JS.replaceAll c d s.
Proof.
  induction s as [|x s IH]; simpl; [reflexivity|]. rewrite IH. f_equal.
  destruct (Ascii.eqb x c) eqn:E; [|now rewrite E].
  now destruct (Ascii.eqb d c).
Qed.

(** X7.  When the graph stores the file under its forward-slash id, every
    spelling of the path that differs only in its separators finds that
    node, and the analysis gives the same affected files, verdict,
    severity and explanation; only the echoed [changedFile] differs. *)
Theorem lookup_ignores_separators
        (w : World) (p r f f' : string) (old new : option string)
        (st : Frame) :
  normalized f' = normalized f ->
  node_exists (getGraph w p) (r ++ ":" ++ normalized f)%string = true ->
  find_changedNodeId (getGraph w p) (possibleNodeIds r f')
  = Some (r ++ ":" ++ normalized f)%string
  /\ exists res res' st',
      analyzeFileChange w p r f old new st = (Val res, st')
      /\ analyzeFileChange w p r f' old new st = (Val res', st')
      /\ changedFile res' = f'
      /\ affectedFiles res' = affectedFiles res
      /\ isBreaking res' = isBreaking res
      /\ severity res' = severity res
      /\ explanation res' = explanation res.
Proof.
  intros Hsame Hnode.
  assert (forall x, normalized x = normalized f ->
                    find_changedNodeId (getGraph w p) (possibleNodeIds r x)
                    = Some (r ++ ":" ++ normalized f)%string) as Hfind.
  { intros x Hx. unfold find_changedNodeId, possibleNodeIds.
    fold (normalized x). rewrite Hx. cbn [find]. now rewrite Hnode. }
  split; [now apply Hfind|].
  rewrite (analyzeFileChange_found w p r f old new st _ (Hfind f eq_refl)).
  rewrite (analyzeFileChange_found w p r f' old new st _ (Hfind f' Hsame)).
  eexists; eexists; eexists. split; [reflexivity|]. split; [reflexivity|].
  unfold result_of.
  destruct (JS.truthy (loc_isBreaking
                         (after_try w (getGraph w p) r old new st)));
    repeat split.
Qed.

(** [src/a.ts] is stored with a forward slash and asked for with a
    backslash. *)
Lemma lookup_ignores_separators_witness :
  find_changedNodeId (getGraph MoreExamples.nested_world "P")
                     (possibleNodeIds "R1" "src\a.ts")
  = Some ("R1" ++ ":" ++ normalized "src/a.ts")%string
  /\ exists res res' st',
      analyzeFileChange MoreExamples.nested_world "P" "R1" "src/a.ts"
        (Some "old") (Some "new") frame0 = (Val res, st')
      /\ analyzeFileChange MoreExamples.nested_world "P" "R1" "src\a.ts"
           (Some "old") (Some "new") frame0 = (Val res', st')
      /\ changedFile res' = "src\a.ts"
      /\ affectedFiles res' = affectedFiles res
      /\ isBreaking res' = isBreaking res
      /\ severity res' = severity res
      /\ explanation res' = explanation res.
Proof.
  apply (lookup_ignores_separators MoreExamples.nested_world "P" "R1"
           "src/a.ts" "src\a.ts" (Some "old") (Some "new") frame0);
    reflexivity.
Defined.

End ResultFacts.

(* ===================================================================== *)
(** ** What the scan reports *)
(* ===================================================================== *)

Module ScanReportFacts.

Import ImpactAnalyzer Notions FrameFacts ScanFacts Replies.

(** On an array of strings the trimming succeeds. *)
Lemma map_trim_val items trimmed st st' :
  map_trim items st = (Val trimmed, st') ->
  trimmed = flat_map (fun item => match item with
                                  | JS.JStr s => [JS.trim s]
                                  | _ => []
                                  end) items.
Proof.
  revert trimmed st st'.
  induction items as [|x items IH]; intros trimmed st st'; simpl.
  - now intros [= <-].
  - unfold bind. destruct x as [| | |s| |]; simpl; try discriminate.
    destruct (map_trim items st) as [[ts|e] st1] eqn:E; [|discriminate].
    intros [= <- _]. simpl. f_equal. eapply IH. exact E.
Qed.


Lemma first_line_including_some fn lines i line :
  In line lines -> JS.includes line fn = true ->
  exists k, first_line_including fn lines i = Some k.
Proof.
  revert i. induction lines as [|l lines IH]; intros i Hin Hinc;
    [contradiction|]. simpl.
  destruct (JS.includes l fn) eqn:E; [now eexists|].
  destruct Hin as [->|Hin]; [congruence|]. now apply IH.
Qed.



(** One file of the loop, seen from its result. *)
Lemma scan_step_sound w functionList fileRepoId filePathStr acc next st st' :
  try_catch (scan_body w functionList fileRepoId filePathStr acc)
            (fun _ => ret acc) st = (Val next, st') ->
  next = acc
  \/ exists text,
      fs_file w fileRepoId filePathStr = Content text
      /\ file_usages functionList text <> []
      /\ next = acc ++ [{| repoId := fileRepoId;
                           filePath := filePathStr;
                           reason := ("Uses modified functions: "
                                      ++ JS.join ", "
                                           (file_usages functionList text))
                                     %string |}].
Proof.
  unfold try_catch, scan_body, existsSync, readFileSync, bind.
  destruct (fs_file w fileRepoId filePathStr) as [| |text]; simpl.
  - intros [= <- _]. now left.
  - intros [= <- _]. now left.
  - destruct (file_usages functionList text) as [|u us] eqn:E; simpl.
    + intros [= <- _]. now left.
    + intros [= <- _]. right. exists text. rewrite E.
      repeat split. discriminate.
Qed.

Lemma scan_files_sound w functionList files :
  forall acc l st st',
    scan_files w functionList files acc st = (Val l, st') ->
    forall e, In e l ->
      In e acc
      \/ exists text,
          fs_file w (repoId e) (filePath e) = Content text
          /\ file_usages functionList text <> []
          /\ reason e = ("Uses modified functions: "
                         ++ JS.join ", " (file_usages functionList text))
                        %string.
Proof.
  induction files as [|file rest IH]; intros acc l st st'; simpl.
  - intros [= <- _] e He. now left.
  - unfold bind.
    destruct (try_catch _ _ st) as [[next|ex] st1] eqn:Estep; [|discriminate].
    intros Hrest e He.
    destruct (IH _ _ _ _ Hrest e He) as [Hnext|Hnew]; [|now right].
    apply scan_step_sound in Estep as [->|(text & Hfs & Hne & ->)];
      [now left|].
    apply in_app_or in Hnext as [Hacc|[<-|[]]]; [now left|].
    right. exists text. simpl. auto.
Qed.

Lemma file_usages_not_nil functionList text :
  file_usages functionList text <> [] ->
  exists fn, In fn functionList /\ JS.includes text fn = true.
Proof.
  intros H. destruct (file_usages functionList text) as [|u us] eqn:E;
    [now elim H|].
  assert (In u (file_usages functionList text)) as Hu
      by (rewrite E; now left).
  unfold file_usages in Hu. apply in_flat_map in Hu as (fn & Hfn & Hu).
  exists fn. split; [assumption|].
  destruct (JS.includes text fn); [reflexivity | contradiction].
Qed.

(** X9.  A file is reported by the scan only if it exists, can be read,
    and its content includes one of the names looked for (a string of
    the array, trimmed, longer than two code units); its reason lists the
    usages found in that content. *)
Theorem scan_reports_only_files_that_use_a_name
        (w : World) (g : Graph) (sourceRepoId : string)
        (items : list JS.json) (st : Frame)
        (l : list AffectedFile) (e : AffectedFile) :
  fst (searchForAffectedFiles w g sourceRepoId (JS.JArr items) st) = Val l ->
  In e l ->
  exists text fn,
    fs_file w (repoId e) (filePath e) = Content text
    /\ In fn (kept_names items)
    /\ JS.includes text fn = true
    /\ reason e
       = ("Uses modified functions: "
          ++ JS.join ", " (file_usages (kept_names items) text))%string.
Proof.
  unfold searchForAffectedFiles, bind.
  destruct (map_trim items st) as [[trimmed|ex] st1] eqn:Et;
    [|simpl; discriminate].
  apply map_trim_val in Et. subst trimmed. fold (kept_names items).
  destruct (length (kept_names items) =? 0).
  - simpl. intros [= <-] [].
  - destruct (scan_files w (kept_names items)
                (firstn 50 (otherRepoFiles g sourceRepoId)) [] st1)
      as [[l'|ex] st2] eqn:Es; simpl; [|discriminate].
    intros [= <-] He.
    destruct (scan_files_sound _ _ _ _ _ _ _ Es e He)
      as [[]|(text & Hfs & Hne & Hreason)].
    destruct (file_usages_not_nil _ _ Hne) as (fn & Hfn & Hinc).
    exists text, fn. auto.
Qed.

(** The scenario's scan for [fetchUser]: R2's [c.ts] is read and holds
    the name. *)
Lemma scan_reports_only_files_that_use_a_name_witness :
  exists text fn,
    fs_file Examples.breaking_fetchUser_world
            (repoId Examples.semantic_c) (filePath Examples.semantic_c)
    = Content text
    /\ In fn (kept_names [JS.JStr "fetchUser"])
    /\ JS.includes text fn = true
    /\ reason Examples.semantic_c
       = ("Uses modified functions: "
          ++ JS.join ", "
               (file_usages (kept_names [JS.JStr "fetchUser"]) text))%string.
Proof.
  apply (scan_reports_only_files_that_use_a_name
           Examples.breaking_fetchUser_world Examples.scenario_graph "R1"
           [JS.JStr "fetchUser"] frame0 [Examples.semantic_c]);
    [reflexivity | now left].
Defined.

(** X10.  When every name of the array is a string of at most two code
    units once trimmed, the scan returns the empty list at once: it reads
    no file, whatever the graph and the disk hold. *)
Theorem short_names_are_not_searched
        (w : World) (g : Graph) (sourceRepoId : string)
        (items : list JS.json) (st : Frame) :
  (forall item, In item items ->
     exists s, item = JS.JStr s /\ String.length (JS.trim s) <= 2) ->
  searchForAffectedFiles w g sourceRepoId (JS.JArr items) st = (Val [], st)
  /\ kept_names items = [].
Proof.
  intros Hshort.
  assert (kept_names items = []) as Hnone.
  { unfold kept_names. induction items as [|x items IH]; [reflexivity|].
    destruct (Hshort x (or_introl eq_refl)) as (s & -> & Hlen).
    simpl. apply Nat.ltb_ge in Hlen. rewrite Hlen.
    apply IH. intros item Hitem. apply Hshort. now right. }
  split; [|exact Hnone].
  assert (map_trim items st
          = (Val (flat_map (fun item => match item with
                                        | JS.JStr s => [JS.trim s]
                                        | _ => []
                                        end) items), st)) as Ht.
  { clear Hnone. induction items as [|x items IH]; [reflexivity|].
    destruct (Hshort x (or_introl eq_refl)) as (s & -> & _).
    simpl. unfold bind. simpl. rewrite IH; [reflexivity|].
    intros item Hitem. apply Hshort. now right. }
  unfold searchForAffectedFiles, bind. rewrite Ht.
  fold (kept_names items). now rewrite Hnone.
Qed.

Lemma short_names_are_not_searched_witness :
  searchForAffectedFiles Examples.breaking_fetchUser_world
    Examples.scenario_graph "R1" (JS.JArr MoreExamples.short_names) frame0
  = (Val [], frame0)
  /\ kept_names MoreExamples.short_names = [].
Proof.
  apply (short_names_are_not_searched Examples.breaking_fetchUser_world
           Examples.scenario_graph "R1" MoreExamples.short_names frame0).
  intros item Hitem. simpl in Hitem.
  destruct Hitem as [<-|[<-|[<-|[]]]]; eexists; split;
    try reflexivity; simpl; lia.
Defined.

(** *** Nothing that uses a name is missed *)

Lemma prefix_app sub s :
  String.prefix sub s = true <-> exists b, s = (sub ++ b)%string.
Proof.
  revert s. induction sub as [|c sub IH]; intros s; simpl.
  - split; [intros _; now exists s | intros _; now destruct s].
  - destruct s as [|d s]; simpl.
    + split; [discriminate | intros [b [=]]].
    + destruct (ascii_dec c d) as [->|Hne].
      * rewrite IH. split; intros [b Hb]; exists b; [now subst | now injection Hb].
      * split; [discriminate|]. intros [b [= -> _]]. now elim Hne.
Qed.

Lemma includes_app s sub :
  JS.includes s sub = true <->
  exists a b, s = (a ++ sub ++ b)%string.
Proof.
  induction s as [|c s IH]; cbn [JS.includes].
  - rewrite orb_false_r. rewrite prefix_app. split.
    + intros [b ->]. now exists EmptyString, b.
    + intros (a & b & H). destruct a as [|x a]; [now exists b | discriminate].
  - rewrite orb_true_iff, prefix_app, IH. split.
    + intros [[b ->]|(a & b & ->)].
      * now exists EmptyString, b.
      * now exists (String c a), b.
    + intros (a & b & H). destruct a as [|x a].
      * left. now exists b.
      * right. injection H as -> ->. now exists a, b.
Qed.

Lemma split_In_app sep s line :
  In line (JS.split sep s) -> exists a b, s = (a ++ line ++ b)%string.
Proof.
  revert line. induction s as [|c s IH]; intros line; simpl.
  - intros [<-|[]]. now exists EmptyString, EmptyString.
  - destruct (Ascii.eqb c sep).
    + intros [<-|H].
      * now exists EmptyString, (String c s).
      * destruct (IH _ H) as (a & b & ->). now exists (String c a), b.
    + destruct (JS.split sep s) as [|h t] eqn:E.
      * intros [<-|[]]. exists EmptyString, s. reflexivity.
      * intros [<-|H].
        -- destruct (IH h (or_introl eq_refl)) as (a & b & Hs).
           (* [h] is the first piece: nothing comes before it *)
           assert (exists b', s = (h ++ b')%string) as [b' ->].
           { clear -E. revert h t E.
             induction s as [|d s IHs]; intros h t; simpl.
             - intros [= <- <-]. now exists EmptyString.
             - destruct (Ascii.eqb d sep).
               + intros [= <- <-]. now exists (String d s).
               + destruct (JS.split sep s) as [|h' t'] eqn:E'.
                 * intros [= <- <-]. now exists s.
                 * intros [= <- <-].
                   destruct (IHs h' t' eq_refl) as [b' ->].
                   now exists b'. }
           now exists EmptyString, b'.
        -- destruct (IH _ (or_intror H)) as (a & b & ->).
           now exists (String c a), b.
Qed.

(** A name on a line of the content is in the content. *)
Lemma line_includes_content_includes text line fn :
  In line (JS.split JS.newline text) ->
  JS.includes line fn = true -> JS.includes text fn = true.
Proof.
  intros Hline Hinc.
  apply split_In_app in Hline as (a & b & ->).
  apply includes_app in Hinc as (a' & b' & ->).
  apply includes_app. exists (a ++ a')%string, (b' ++ b)%string.
  now rewrite <- !PathFacts.append_assoc.
Qed.

Lemma file_usages_some functionList text fn line :
  In fn functionList ->
  In line (JS.split JS.newline text) -> JS.includes line fn = true ->
  file_usages functionList text <> [].
Proof.
  intros Hfn Hline Hinc Hnil.
  destruct (first_line_including_some fn _ 0 line Hline Hinc) as [k Hk].
  assert (In (usage fn k) (file_usages functionList text)) as Hu.
  { unfold file_usages. apply in_flat_map. exists fn. split; [assumption|].
    rewrite (line_includes_content_includes _ _ _ Hline Hinc), Hk.
    now left. }
  rewrite Hnil in Hu. contradiction.
Qed.

Lemma scan_files_keeps w functionList files :
  forall acc l st st',
    scan_files w functionList files acc st = (Val l, st') ->
    incl acc l.
Proof.
  induction files as [|file rest IH]; intros acc l st st'; simpl.
  - intros [= <- _]. apply incl_refl.
  - unfold bind.
    destruct (try_catch _ _ st) as [[next|ex] st1] eqn:Estep; [|discriminate].
    intros Hrest. apply IH in Hrest.
    apply scan_step_sound in Estep as [->|(text & _ & _ & ->)];
      [assumption|].
    intros x Hx. apply Hrest. apply in_or_app. now left.
Qed.

Lemma scan_files_complete w functionList files :
  forall acc l st st' file text,
    scan_files w functionList files acc st = (Val l, st') ->
    In file files ->
    fs_file w (repo_of_id (n_id file)) (path_of_id (n_id file))
    = Content text ->
    file_usages functionList text <> [] ->
    exists e, In e l
              /\ repoId e = repo_of_id (n_id file)
              /\ filePath e = path_of_id (n_id file).
Proof.
  induction files as [|f rest IH]; intros acc l st st' file text; simpl;
    [intros _ []|].
  unfold bind.
  destruct (try_catch _ _ st) as [[next|ex] st1] eqn:Estep; [|discriminate].
  intros Hrest [->|Hin] Hfs Hne.
  - fold (repo_of_id (n_id file)) in Estep.
    fold (path_of_id (n_id file)) in Estep.
    unfold try_catch, scan_body, existsSync, readFileSync, bind in Estep.
    rewrite Hfs in Estep. simpl in Estep.
    destruct (file_usages functionList text) as [|u us] eqn:E;
      [now elim Hne|]. simpl in Estep. injection Estep as <- <-.
    eexists. split.
    + eapply scan_files_keeps; [exact Hrest|].
      apply in_or_app. right. now left.
    + split; reflexivity.
  - eapply IH; eassumption.
Qed.

(** X11.  Among the files the scan considers (the first 50 FILE nodes
    with a source extension whose id does not start with the source
    repository's id), every one that can be read and has a line holding
    one of the names looked for is reported. *)
Theorem scan_reports_every_file_that_uses_a_name
        (w : World) (g : Graph) (sourceRepoId : string)
        (items : list JS.json) (st : Frame) (l : list AffectedFile)
        (file : GraphNode) (text fn line : string) :
  fst (searchForAffectedFiles w g sourceRepoId (JS.JArr items) st) = Val l ->
  In file (firstn 50 (otherRepoFiles g sourceRepoId)) ->
  fs_file w (repo_of_id (n_id file)) (path_of_id (n_id file))
  = Content text ->
  In fn (kept_names items) ->
  In line (JS.split JS.newline text) ->
  JS.includes line fn = true ->
  exists e, In e l
            /\ repoId e = repo_of_id (n_id file)
            /\ filePath e = path_of_id (n_id file).
Proof.
  unfold searchForAffectedFiles, bind.
  destruct (map_trim items st) as [[trimmed|ex] st1] eqn:Et;
    [|simpl; discriminate].
  apply map_trim_val in Et. subst trimmed. fold (kept_names items).
  intros Hl Hfile Hfs Hfn Hline Hinc.
  destruct (length (kept_names items) =? 0) eqn:E0.
  - apply Nat.eqb_eq in E0.
    destruct (kept_names items); [contradiction | discriminate].
  - destruct (scan_files w (kept_names items)
                (firstn 50 (otherRepoFiles g sourceRepoId)) [] st1)
      as [[l'|ex] st2] eqn:Es; simpl in Hl; [|discriminate].
    injection Hl as <-.
    eapply scan_files_complete; try eassumption.
    eapply file_usages_some; eassumption.
Qed.

(** The scenario's scan for [fetchUser]: R2's [c.ts] is found. *)
Lemma scan_reports_every_file_that_uses_a_name_witness :
  exists e, In e [Examples.semantic_c]
            /\ repoId e = repo_of_id (n_id (Examples.fileNode "R2:c.ts"))
            /\ filePath e = path_of_id (n_id (Examples.fileNode "R2:c.ts")).
Proof.
  apply (scan_reports_every_file_that_uses_a_name
           Examples.breaking_fetchUser_world Examples.scenario_graph "R1"
           [JS.JStr "fetchUser"] frame0 [Examples.semantic_c]
           (Examples.fileNode "R2:c.ts")
           ("import x" ++ nl ++ "fetchUser()")%string
           "fetchUser" "fetchUser()");
    try reflexivity; simpl; auto.
Defined.

End ScanReportFacts.

(* ===================================================================== *)
(** ** Removing duplicates *)
(* ===================================================================== *)

Module MergeFacts.
Import ImpactAnalyzer Notions Dependents.

Lemma split_not_nil sep s : JS.split sep s <> [].
Proof.
  destruct s as [|c s]; simpl; [discriminate|].
  destruct (Ascii.eqb c sep); [discriminate|].
  destruct (JS.split sep s); discriminate.
Qed.

(** Splitting at the colons and joining with colons gives the string
    back. *)
Lemma join_split s : JS.join ":" (JS.split JS.colon s) = s.
Proof.
  unfold JS.join. induction s as [|c s IH]; [reflexivity|].
  cbn [JS.split]. pose proof (split_not_nil JS.colon s) as Hne.
  destruct (JS.split JS.colon s) as [|h t]; [now elim Hne|].
  destruct (Ascii.eqb c JS.colon) eqn:E.
  - apply Ascii.eqb_eq in E. subst c.
    change (String.concat ":" (EmptyString :: h :: t))
      with (String JS.colon (String.concat ":" (h :: t))).
    now rewrite IH.
  - destruct t as [|x t].
    + simpl in *. now rewrite IH.
    + change (String.concat ":" (String c h :: x :: t))
        with (String c (String.concat ":" (h :: x :: t))).
      now rewrite IH.
Qed.

Lemma split_colon_tail s :
  no_colon s = false -> tl (JS.split JS.colon s) <> [].
Proof.
  induction s as [|c s IH]; cbn [no_colon JS.split]; [discriminate|].
  destruct (Ascii.eqb c JS.colon) eqn:E; simpl.
  - intros _. apply split_not_nil.
  - intros H. specialize (IH H).
    destruct (JS.split JS.colon s) as [|h t]; [now elim IH|exact IH].
Qed.

(** The key of the entry of an id with a colon is the id. *)
Lemma key_of_id id :
  no_colon id = false ->
  (repo_of_id id ++ ":" ++ path_of_id id)%string = id.
Proof.
  intros H. apply split_colon_tail in H.
  pose proof (join_split id) as J. unfold repo_of_id, path_of_id.
  unfold JS.join in *.
  destruct (JS.split JS.colon id) as [|h [|x t]]; simpl in H;
    [now elim H | now elim H |].
  exact J.
Qed.

Lemma map_set_fresh {V} k (v : V) m :
  ~ In k (keys m) -> JS.map_set k v m = m ++ [(k, v)].
Proof.
  unfold keys. induction m as [|[k' v'] m IH]; simpl; [reflexivity|].
  intros H. destruct (String.eqb k k') eqn:E.
  - apply String.eqb_eq in E. elim H. now left.
  - f_equal. apply IH. tauto.
Qed.

Lemma fold_fresh l :
  forall m,
    NoDup (keys m ++ map dedup_key l) ->
    fold_left set_entry (map entry_of l) m = m ++ map entry_of l.
Proof.
  induction l as [|e l IH]; intros m Hnd; simpl.
  - now rewrite app_nil_r.
  - unfold set_entry at 2. simpl.
    rewrite map_set_fresh.
    + rewrite IH.
      * now rewrite <- app_assoc.
      * unfold keys in *. rewrite map_app, <- app_assoc. exact Hnd.
    + simpl in Hnd. apply NoDup_remove_2 in Hnd.
      intros Hin. apply Hnd. apply in_or_app. now left.
Qed.

(** A list whose keys are pairwise distinct passes unchanged. *)
Lemma uniqueAffectedFiles_distinct l :
  NoDup (map dedup_key l) -> uniqueAffectedFiles l = l.
Proof.
  intros Hnd. unfold uniqueAffectedFiles, JS.Map_of_entries, JS.map_values.
  change (fun m kv => JS.map_set (fst kv) (snd kv) m) with set_entry.
  change (map (fun f => (dedup_key f, f)) l) with (map entry_of l).
  rewrite fold_fresh; [|exact Hnd]. simpl.
  rewrite map_map. simpl. apply map_id.
Qed.

Lemma first_occurrences_length ks :
  length (first_occurrences ks) <= length ks.
Proof.
  induction ks as [|k ks IH]; simpl; [lia|].
  pose proof (filter_length_le (fun x => negb (String.eqb x k))
                               (first_occurrences ks)).
  lia.
Qed.

Lemma keys_of_reported pf changedNodeId sourceRepoId ids :
  Forall (fun id => no_colon id = false) ids ->
  map dedup_key (reported pf changedNodeId sourceRepoId ids)
  = filter (fun id => negb (String.eqb (repo_of_id id) sourceRepoId)) ids.
Proof.
  induction 1 as [|id ids Hid Hids IH]; [reflexivity|].
  unfold reported in *. cbn [flat_map filter].
  destruct (negb (String.eqb (repo_of_id id) sourceRepoId)).
  - cbn [app map]. rewrite IH. f_equal.
    unfold dedup_key. cbn [repoId filePath]. now apply key_of_id.
  - exact IH.
Qed.

(** X13.  When the ids of the importing files hold a colon, the entries
    the traversal returns have pairwise distinct keys, each key being
    the id of the file, so removing duplicates leaves them as they are:
    entries are merged only where the scan reports a file again. *)
Theorem structural_entries_are_not_merged
        (pf : Path.platform) (g : Graph)
        (changedNodeId sourceRepoId : string) :
  sources_have_colon g ->
  NoDup (map dedup_key (findAffectedFiles pf g changedNodeId sourceRepoId))
  /\ uniqueAffectedFiles (findAffectedFiles pf g changedNodeId sourceRepoId)
     = findAffectedFiles pf g changedNodeId sourceRepoId.
Proof.
  intros Hcolon.
  destruct (ReachFacts.visited_are_the_importers
              pf g changedNodeId sourceRepoId)
    as (st & others & _ & Hv & Hnotin & Hnd & Himp & ->).
  assert (Forall (fun id => no_colon id = false) others) as Hall.
  { apply Forall_forall. intros id Hid.
    assert (importer g changedNodeId id) as Hi
        by (apply Himp; rewrite Hv; now right).
    destruct Hi as [|e He Hty _]; [contradiction|]. now apply Hcolon. }
  assert (NoDup (map dedup_key
                     (reported pf changedNodeId sourceRepoId others))) as Hk.
  { rewrite keys_of_reported by exact Hall. now apply NoDup_filter. }
  split; [exact Hk | now apply uniqueAffectedFiles_distinct].
Qed.

Lemma structural_entries_are_not_merged_witness :
  NoDup (map dedup_key
             (findAffectedFiles Path.Posix Examples.scenario_graph
                                "R1:a.ts" "R1"))
  /\ uniqueAffectedFiles
       (findAffectedFiles Path.Posix Examples.scenario_graph "R1:a.ts" "R1")
     = findAffectedFiles Path.Posix Examples.scenario_graph "R1:a.ts" "R1".
Proof.
  apply (structural_entries_are_not_merged
           Path.Posix Examples.scenario_graph "R1:a.ts" "R1").
  intros e He _. simpl in He.
  repeat (destruct He as [<-|He]; [reflexivity|]). contradiction.
Defined.

(** X14.  Removing duplicates twice is removing them once; the result is
    never longer than the list, has pairwise distinct keys, and is the
    list itself when its keys are pairwise distinct already. *)
Theorem uniqueAffectedFiles_idempotent (l : list AffectedFile) :
  uniqueAffectedFiles (uniqueAffectedFiles l) = uniqueAffectedFiles l
  /\ NoDup (map dedup_key (uniqueAffectedFiles l))
  /\ length (uniqueAffectedFiles l) <= length l
  /\ (NoDup (map dedup_key l) -> uniqueAffectedFiles l = l).
Proof.
  destruct (DedupFacts.uniqueAffectedFiles_spec l) as (Hnd & Hkeys & _).
  split; [now apply uniqueAffectedFiles_distinct|].
  split; [exact Hnd|]. split; [|apply uniqueAffectedFiles_distinct].
  rewrite <- (length_map dedup_key (uniqueAffectedFiles l)), Hkeys.
  rewrite <- (length_map dedup_key l). apply first_occurrences_length.
Qed.

End MergeFacts.

(* ===================================================================== *)
(** ** The retry loop for any number of attempts *)
(* ===================================================================== *)

Module LoopFacts.
Import ImpactAnalyzer Notions Waiting.

Lemma delay_succ n : AIService.delay (S n) = 2 * AIService.delay n.
Proof. unfold AIService.delay. rewrite Nat.pow_succ_r'. lia. Qed.

Lemma delay_mono a b : a <= b -> AIService.delay a <= AIService.delay b.
Proof.
  intros H. unfold AIService.delay.
  apply Nat.mul_le_mono_r. apply Nat.pow_le_mono_r; lia.
Qed.

(** The loop from attempt [a] on, with [len] attempts left. *)
Lemma for_attempts_from w prompt retries :
  forall len a,
    a + len = S retries ->
    exists text evs j,
      (forall st,
          AIService.for_attempts w prompt retries (seq a len) st
          = (Val text, add_trace st evs))
      /\ j <= len
      /\ attempts_made evs = seq a j
      /\ (forall n, a <= n -> S n < a + j ->
                    exists error, model_generate w prompt n = Failed error)
      /\ ((exists j0, j = S j0
                      /\ model_generate w prompt (a + j0) = Replied text)
          \/ (j = len /\ text = EmptyString
              /\ forall j0, j = S j0 ->
                            exists error,
                              model_generate w prompt (a + j0) = Failed error))
      /\ slept evs <= AIService.delay retries - AIService.delay a.
Proof.
  induction len as [|len IH]; intros a Ha.
  - exists EmptyString, [], 0. split; [|split; [|split; [|split; [|split]]]].
    + intros st. simpl. unfold ret. now rewrite FrameFacts.add_trace_nil.
    + lia.
    + reflexivity.
    + intros n H1 H2. lia.
    + right. split; [reflexivity|split; [reflexivity|]]. intros j0 [=].
    + simpl. lia.
  - cbn [seq AIService.for_attempts].
    destruct (model_generate w prompt a) as [text|error] eqn:Em.
    + exists text, [Attempt prompt a], 1. split; [|split; [|split; [|split; [|split]]]].
      * intros st. reflexivity.
      * lia.
      * reflexivity.
      * intros n H1 H2. lia.
      * left. exists 0. rewrite Nat.add_0_r. now split.
      * simpl. lia.
    + destruct (IH (S a) ltac:(lia))
        as (text & evs & j & Hrun & Hj & Hatt & Hfail & Hend & Hsl).
      assert (forall n, a <= n -> S n < a + S j ->
                        exists error0,
                          model_generate w prompt n = Failed error0) as Hfail'.
      { intros n H1 H2. destruct (Nat.eq_dec n a) as [->|Hne].
        - now exists error.
        - apply Hfail; lia. }
      assert ((exists j0, S j = S j0
                          /\ model_generate w prompt (a + j0) = Replied text)
              \/ (S j = S len /\ text = EmptyString
                  /\ forall j0, S j = S j0 ->
                                exists error0,
                                  model_generate w prompt (a + j0)
                                  = Failed error0)) as Hend'.
      { destruct Hend as [(j0 & -> & Hr)|(-> & -> & Hlast)].
        - left. exists (S j0). split; [reflexivity|].
          now rewrite Nat.add_succ_r.
        - right. split; [reflexivity|split; [reflexivity|]].
          intros j0 [= <-].
          destruct len as [|len'].
          + rewrite Nat.add_0_r. now exists error.
          + rewrite Nat.add_succ_r. now apply (Hlast len'). }
      destruct (AIService.isRateLimit error && (a <? retries)) eqn:Erl.
      * apply andb_true_iff in Erl as [_ Hlt]. apply Nat.ltb_lt in Hlt.
        exists text, (Attempt prompt a :: Sleep (AIService.delay a) :: evs),
          (S j).
        split; [|split; [lia|split; [|split; [exact Hfail'|split;
                                                [exact Hend'|]]]]].
        -- intros st. unfold bind. rewrite !FrameFacts.emit_add_trace.
           rewrite Hrun, !FrameFacts.add_trace_app. reflexivity.
        -- simpl. now rewrite Hatt.
        -- simpl. pose proof (delay_succ a) as Hs.
           pose proof (delay_mono (S a) retries ltac:(lia)). lia.
      * destruct (a =? retries) eqn:Ea.
        -- apply Nat.eqb_eq in Ea. subst a.
           assert (len = 0) as -> by lia.
           exists EmptyString, [Attempt prompt retries], 1. split; [|split; [|split; [|split; [|split]]]].
           ++ intros st. reflexivity.
           ++ lia.
           ++ reflexivity.
           ++ intros n H1 H2. lia.
           ++ right. split; [reflexivity|split; [reflexivity|]].
              intros j0 [= <-].
              rewrite Nat.add_0_r. now exists error.
           ++ simpl. lia.
        -- exists text, (Attempt prompt a :: evs), (S j).
           split; [|split; [lia|split; [|split; [exact Hfail'|split;
                                                   [exact Hend'|]]]]].
           ++ intros st. unfold bind. rewrite !FrameFacts.emit_add_trace.
              rewrite Hrun, !FrameFacts.add_trace_app. reflexivity.
           ++ simpl. now rewrite Hatt.
           ++ simpl. pose proof (delay_succ a) as Hs. lia.
Qed.

(** X12.  With a configured client and any number [retries] of attempts,
    [generateContent] never throws.  It makes the attempts 1, 2, ..., k in
    order, with k at most [retries]; all but the last one failed; it
    returns the reply of attempt k, or [''] when attempt k = [retries]
    failed too (or [retries] is 0); and the time it waits in between adds
    up to at most [2^retries * 1000 - 2000] milliseconds. *)
Theorem generateContent_stops_at_the_first_reply
        (w : World) (prompt : string) (retries : nat) :
  genAI w = true ->
  exists text evs k,
    (forall st,
        AIService.generateContent w prompt retries st
        = (Val text, add_trace st evs))
    /\ k <= retries
    /\ attempts_made evs = seq 1 k
    /\ (forall n, 1 <= n < k ->
                  exists error, model_generate w prompt n = Failed error)
    /\ ((1 <= k /\ model_generate w prompt k = Replied text)
        \/ (k = retries /\ text = EmptyString
            /\ (retries = 0
                \/ exists error,
                    model_generate w prompt retries = Failed error)))
    /\ slept evs <= AIService.delay retries - 2000.
Proof.
  intros Hg.
  destruct (for_attempts_from w prompt retries retries 1 eq_refl)
    as (text & evs & k & Hrun & Hk & Hatt & Hfail & Hend & Hsl).
  exists text, evs, k.
  split; [|split; [exact Hk|split; [exact Hatt|split; [|split]]]].
  - intros st. unfold AIService.generateContent. rewrite Hg. apply Hrun.
  - intros n [H1 H2]. apply Hfail; lia.
  - destruct Hend as [(j0 & -> & Hr)|(-> & -> & Hlast)].
    + left. split; [lia | exact Hr].
    + right. split; [reflexivity|split; [reflexivity|]].
      destruct retries as [|r]; [now left|].
      right. exact (Hlast r eq_refl).
  - exact Hsl.
Qed.

(** A server error, then a reply: two attempts, no waiting. *)
Lemma generateContent_stops_at_the_first_reply_witness :
  exists text evs k,
    (forall st,
        AIService.generateContent Examples.flaky_world "p" 5 st
        = (Val text, add_trace st evs))
    /\ k <= 5
    /\ attempts_made evs = seq 1 k
    /\ (forall n, 1 <= n < k ->
                  exists error,
                    model_generate Examples.flaky_world "p" n = Failed error)
    /\ ((1 <= k /\ model_generate Examples.flaky_world "p" k = Replied text)
        \/ (k = 5 /\ text = EmptyString
            /\ (5 = 0
                \/ exists error,
                    model_generate Examples.flaky_world "p" 5
                    = Failed error)))
    /\ slept evs <= AIService.delay 5 - 2000.
Proof.
  apply (generateContent_stops_at_the_first_reply
           Examples.flaky_world "p" 5).
  reflexivity.
Defined.

End LoopFacts.

(* ===================================================================== *)
(** ** The code fence around a reply *)
(* ===================================================================== *)

Module FenceFacts.
Import Fence Fenced.

Lemma strip_prefix_app p s : strip_prefix p (p ++ s)%string = Some s.
Proof.
  induction p as [|c p IH]; simpl; [now destruct s|].
  now rewrite Ascii.eqb_refl.
Qed.

Lemma fence_here_other c s :
  Ascii.eqb c backtick = false -> fence_here (String c s) = None.
Proof.
  intros H. unfold fence_here, fence. cbn [strip_prefix].
  rewrite Ascii.eqb_sym. change "`"%char with backtick. now rewrite H.
Qed.

Lemma match_fence_skips before s :
  no_backtick before = true ->
  match_fence (before ++ s)%string = match_fence s.
Proof.
  induction before as [|c b IH]; [reflexivity|].
  cbn [no_backtick]. intros H. apply andb_prop in H as [Hc Hb].
  apply negb_true_iff in Hc.
  change (String c b ++ s)%string with (String c (b ++ s)%string).
  cbn [match_fence]. rewrite (fence_here_other _ _ Hc). now apply IH.
Qed.

Lemma match_fence_none s : no_backtick s = true -> match_fence s = None.
Proof.
  induction s as [|c s IH]; [reflexivity|].
  cbn [no_backtick]. intros H. apply andb_prop in H as [Hc Hs].
  apply negb_true_iff in Hc.
  cbn [match_fence]. rewrite (fence_here_other _ _ Hc). now apply IH.
Qed.

Lemma trimStart_white ws c s :
  all_white ws = true -> JS.isWhite c = false ->
  JS.trimStart (ws ++ String c s)%string = String c s.
Proof.
  intros Hws Hc. induction ws as [|x ws IH]; simpl.
  - now rewrite Hc.
  - simpl in Hws. apply andb_prop in Hws as [Hx Hws].
    rewrite Hx. now apply IH.
Qed.

(** No closing fence inside a body without backticks. *)
Lemma closes_inside body r :
  no_backtick body = true ->
  closes (body ++ String JS.rbrace r)%string = false.
Proof.
  unfold closes. induction body as [|c b IH]; intros H.
  - reflexivity.
  - cbn [no_backtick] in H. apply andb_prop in H as [Hc Hb].
    apply negb_true_iff in Hc.
    change (String c b ++ String JS.rbrace r)%string
      with (String c (b ++ String JS.rbrace r)%string).
    cbn [JS.trimStart]. destruct (JS.isWhite c); [now apply IH|].
    unfold fence. cbn [String.prefix].
    destruct (ascii_dec "`" c) as [<-|Hne]; [discriminate Hc|reflexivity].
Qed.

Lemma closes_fence ws after :
  all_white ws = true -> closes (ws ++ fence ++ after)%string = true.
Proof.
  unfold closes. induction ws as [|x ws IH]; intros H.
  - unfold fence. simpl. now destruct after.
  - simpl in H. apply andb_prop in H as [Hx Hws].
    cbn [append JS.trimStart]. rewrite Hx. now apply IH.
Qed.

Lemma lazy_body_spec body ws2 after :
  no_backtick body = true -> all_white ws2 = true ->
  lazy_body (body ++ String JS.rbrace (ws2 ++ fence ++ after))%string
  = Some (body ++ String JS.rbrace EmptyString)%string.
Proof.
  intros Hb Hw. induction body as [|c b IH].
  - cbn [append lazy_body].
    now rewrite Ascii.eqb_refl, closes_fence.
  - cbn [no_backtick] in Hb. apply andb_prop in Hb as [Hc Hb].
    change (String c b ++ String JS.rbrace (ws2 ++ fence ++ after))%string
      with (String c (b ++ String JS.rbrace (ws2 ++ fence ++ after))%string).
    cbn [lazy_body]. rewrite (closes_inside _ _ Hb), andb_false_r.
    rewrite (IH Hb). reflexivity.
Qed.

Lemma object_text_app body r :
  (object_text body ++ r)%string
  = String JS.lbrace (body ++ String JS.rbrace r)%string.
Proof.
  unfold object_text. cbn [append]. f_equal.
  now rewrite <- PathFacts.append_assoc.
Qed.

Lemma fence_here_fence r :
  fence_here (fence ++ r)%string
  = match JS.trimStart match strip_prefix "json" r with
                       | Some x => x
                       | None => r
                       end with
    | String c body =>
        if Ascii.eqb c JS.lbrace
        then option_map (String c) (lazy_body body)
        else None
    | EmptyString => None
    end.
Proof. unfold fence_here. now rewrite strip_prefix_app. Qed.

Lemma strip_json_white ws r :
  all_white ws = true ->
  strip_prefix "json" (ws ++ String JS.lbrace r)%string = None.
Proof.
  intros H. destruct ws as [|x ws]; [reflexivity|].
  simpl in H. apply andb_prop in H as [Hx _].
  cbn [append strip_prefix].
  destruct (Ascii.eqb "j" x) eqn:E; [|reflexivity].
  apply Ascii.eqb_eq in E. subst x. discriminate Hx.
Qed.

Lemma fence_here_spec tagged ws1 body ws2 after :
  no_backtick body = true -> all_white ws1 = true -> all_white ws2 = true ->
  fence_here (fenced tagged EmptyString ws1 body ws2 after)
  = Some (object_text body).
Proof.
  intros Hb H1 H2.
  change (fenced tagged EmptyString ws1 body ws2 after)
    with (fence ++ (if tagged then "json" else EmptyString)
                ++ ws1 ++ object_text body ++ ws2 ++ fence ++ after)%string.
  rewrite fence_here_fence, object_text_app.
  destruct tagged.
  - rewrite strip_prefix_app.
    rewrite trimStart_white by (assumption || reflexivity).
    rewrite Ascii.eqb_refl, lazy_body_spec by assumption.
    reflexivity.
  - change (EmptyString ++ ?x)%string with x.
    rewrite strip_json_white by assumption.
    rewrite trimStart_white by (assumption || reflexivity).
    rewrite Ascii.eqb_refl, lazy_body_spec by assumption.
    reflexivity.
Qed.

(** X15.  From a reply that wraps an object in a code fence, tagged
    [json] or not, with prose before it and anything after it, the text
    handed to [JSON.parse] is the object alone, the same text as when
    the reply is the bare object; a reply without a backtick is handed
    over whole. *)
Theorem fenced_object_is_extracted
        (tagged : bool) (before ws1 body ws2 after : string) :
  no_backtick before = true ->
  no_backtick body = true ->
  all_white ws1 = true ->
  all_white ws2 = true ->
  jsonText (fenced tagged before ws1 body ws2 after) = object_text body
  /\ jsonText (object_text body) = object_text body
  /\ jsonText before = before.
Proof.
  intros Hbefore Hbody H1 H2. unfold jsonText. split; [|split].
  - change (fenced tagged before ws1 body ws2 after)
      with (before ++ fenced tagged EmptyString ws1 body ws2 after)%string.
    rewrite match_fence_skips by assumption.
    destruct (fenced tagged EmptyString ws1 body ws2 after) eqn:E;
      cbn [match_fence]; rewrite <- E;
      now rewrite fence_here_spec by assumption.
  - rewrite match_fence_none; [reflexivity|].
    unfold object_text. cbn [no_backtick]. simpl.
    clear -Hbody. induction body as [|c b IH]; [reflexivity|].
    cbn [no_backtick] in Hbody. apply andb_prop in Hbody as [Hc Hb].
    cbn [append no_backtick]. rewrite Hc. now apply IH.
  - now rewrite match_fence_none.
Qed.

Lemma fenced_object_is_extracted_witness :
  jsonText MoreExamples.fenced_reply = "{reply}"
  /\ jsonText "{reply}" = "{reply}"
  /\ jsonText "Here you go:" = "Here you go:".
Proof.
  apply (fenced_object_is_extracted
           true "Here you go:" ImpactAnalyzer.nl "reply" ImpactAnalyzer.nl
           EmptyString); reflexivity.
Defined.

End FenceFacts.

(* ===================================================================== *)
(** ** The one-shot requests *)
(* ===================================================================== *)

Module RequestFacts.
Import ImpactAnalyzer Notions Fence Fenced AIRequests.

Lemma property_value parsed key st :
  parsed <> JS.JNull -> property parsed key st = (Val (prop_of parsed key), st).
Proof. intros H. destruct parsed; try reflexivity. now elim H. Qed.

Lemma answer_not_null w prompt parsed :
  answer w prompt = Some parsed -> parsed <> JS.JNull.
Proof.
  unfold answer. destruct (genAI w); [|discriminate].
  destruct (model_generate w prompt 1) as [text|]; [|discriminate].
  destruct (JSON_parse w (jsonText text)) as [[]|]; intros [= <-];
    discriminate.
Qed.

Lemma answer_none w prompt :
  genAI w = true ->
  (answer w prompt = None <-> no_usable_answer w prompt).
Proof.
  intros Hg. unfold answer, no_usable_answer. rewrite Hg.
  destruct (model_generate w prompt 1) as [text|]; [|tauto].
  destruct (JSON_parse w (jsonText text)) as [[]|]; split; intros H;
    try discriminate; try reflexivity; auto;
    destruct H as [H|H]; discriminate.
Qed.

Lemma ask_run w prompt st :
  ask w prompt st
  = (match model_generate w prompt 1 with
     | Replied text => Val text
     | Failed error => Throw (IOError match message error with
                                      | Some m => m
                                      | None => EmptyString
                                      end)
     end, add_trace st [Attempt prompt 1]).
Proof.
  unfold ask, bind, emit, add_trace. simpl.
  now destruct (model_generate w prompt 1).
Qed.

(** What the [try] block of a one-shot request comes to: the reply is
    read through [k], and every failure on the way ends in [failed]. *)
Lemma one_shot_run {A} w prompt (k : JS.json -> M A) (read : JS.json -> A)
      (failed : A) st :
  (forall parsed st0, parsed <> JS.JNull ->
                      k parsed st0 = (Val (read parsed), st0)) ->
  (forall st0, exists e, k JS.JNull st0 = (Throw e, st0)) ->
  genAI w = true ->
  try_catch (text <- ask w prompt ;;
             parsed <- parse w (jsonText text) ;;
             k parsed)
            (fun _ => ret failed) st
  = (Val match answer w prompt with
         | Some parsed => read parsed
         | None => failed
         end,
     add_trace st [Attempt prompt 1]).
Proof.
  intros Hk Hnull Hg. unfold try_catch, bind, answer. rewrite Hg.
  rewrite ask_run.
  destruct (model_generate w prompt 1) as [text|error]; [|reflexivity].
  unfold parse.
  destruct (JSON_parse w (jsonText text)) as [parsed|] eqn:Ep;
    [|reflexivity].
  unfold ret at 1.
  destruct parsed;
    try (rewrite Hk by discriminate; reflexivity).
  destruct (Hnull (add_trace st [Attempt prompt 1])) as [e ->].
  reflexivity.
Qed.

Lemma enrichNode_run w request st :
  genAI w = true ->
  enrichNode w request st
  = (Val match answer w (enrich_prompt request) with
         | Some parsed => read_enrichment request parsed
         | None => enrichment request (JS.JStr "Enrichment failed")
                              (JS.JStr "MEDIUM") (JS.JNum 5%float)
                              (JS.JArr [])
         end,
     add_trace st [Attempt (enrich_prompt request) 1]).
Proof.
  intros Hg. unfold enrichNode. rewrite Hg. cbn [negb].
  apply (one_shot_run w (enrich_prompt request) _ (read_enrichment request));
    [| |exact Hg].
  - intros parsed st0 Hp. unfold bind.
    rewrite !(property_value _ _ _ Hp). reflexivity.
  - intros st0. eexists. reflexivity.
Qed.

Lemma analyzeImpact_run w request prompt st :
  genAI w = true ->
  impact_prompt_of request = Some prompt ->
  analyzeImpact w request st
  = (Val match answer w prompt with
         | Some parsed => read_impact parsed
         | None => impact (JS.JArr []) (JS.JArr [])
                          (JS.JStr "Analysis failed")
         end,
     add_trace st [Attempt prompt 1]).
Proof.
  intros Hg Hp. unfold analyzeImpact. rewrite Hg. cbn [negb].
  assert (impact_prompt request st = (Val prompt, st)) as Hrun.
  { unfold impact_prompt, impact_prompt_of in *.
    destruct (ImpactAnalysisRequest.graphContext request);
      try discriminate; injection Hp as <-; reflexivity. }
  unfold bind at 1. rewrite Hrun.
  apply (one_shot_run w prompt _ read_impact); [| |exact Hg].
  - intros parsed st0 Hnn. unfold bind.
    rewrite !(property_value _ _ _ Hnn). reflexivity.
  - intros st0. eexists. reflexivity.
Qed.

Lemma classifyChange_run w oldSignature newSignature st :
  genAI w = true ->
  classifyChange w oldSignature newSignature st
  = (Val match answer w (classify_prompt oldSignature newSignature) with
         | Some parsed => read_classification parsed
         | None => classification (JS.JBool false)
                                  (JS.JStr "Classification failed")
         end,
     add_trace st [Attempt (classify_prompt oldSignature newSignature) 1]).
Proof.
  intros Hg. unfold classifyChange. rewrite Hg. cbn [negb].
  apply (one_shot_run w (classify_prompt oldSignature newSignature) _
                      read_classification); [| |exact Hg].
  - intros parsed st0 Hp. unfold bind.
    rewrite !(property_value _ _ _ Hp). reflexivity.
  - intros st0. eexists. reflexivity.
Qed.

Lemma or_default_cases v d :
  JS.or_default v d = d
  \/ (v = Some (JS.or_default v d) /\ JS.truthy (JS.or_default v d) = true).
Proof.
  destruct v as [x|]; simpl; [|now left].
  destruct (JS.truthy x) eqn:E; [right; now split | now left].
Qed.

(** X16.  [enrichNode] never throws and sends at most one request.  Its
    result names the node of the request, and none of its other fields
    is falsy: a reply that gives the risk level 0, or an empty
    description, comes back with the default in its place. *)
Theorem enrichNode_always_answers
        (w : World) (request : EnrichmentRequest.t) (st : Frame) :
  exists res st',
    enrichNode w request st = (Val res, st')
    /\ at_most_one_request (enrich_prompt request) st st'
    /\ EnrichmentResult.nodeId res = EnrichmentRequest.nodeId request
    /\ JS.truthy (EnrichmentResult.description res) = true
    /\ JS.truthy (EnrichmentResult.criticality res) = true
    /\ JS.truthy (EnrichmentResult.riskLevel res) = true
    /\ JS.truthy (EnrichmentResult.tags res) = true
    /\ EnrichmentResult.riskLevel res <> JS.JNum 0%float
    /\ EnrichmentResult.description res <> JS.JStr EmptyString.
Proof.
  destruct (genAI w) eqn:Hg.
  - rewrite (enrichNode_run w request st Hg).
    eexists. eexists. split; [reflexivity|]. split; [now right|].
    destruct (answer w (enrich_prompt request)) as [parsed|].
    + unfold read_enrichment, enrichment.
      cbn [EnrichmentResult.nodeId EnrichmentResult.description
           EnrichmentResult.criticality EnrichmentResult.riskLevel
           EnrichmentResult.tags].
      assert (JS.truthy
                (JS.or_default (prop_of parsed "riskLevel")
                               (JS.JNum 5%float)) = true) as Hr
          by now apply ResultFacts.or_default_truthy.
      assert (JS.truthy
                (JS.or_default (prop_of parsed "description")
                               (JS.JStr "Unknown")) = true) as Hd
          by now apply ResultFacts.or_default_truthy.
      split; [reflexivity|]. split; [exact Hd|].
      split; [now apply ResultFacts.or_default_truthy|].
      split; [exact Hr|].
      split; [now apply ResultFacts.or_default_truthy|].
      split; intros E.
      * rewrite E in Hr. discriminate Hr.
      * rewrite E in Hd. discriminate Hd.
    + repeat split; discriminate.
  - unfold enrichNode. rewrite Hg. cbn [negb].
    eexists. eexists. split; [reflexivity|]. split; [now left|].
    repeat split; discriminate.
Qed.

(** X17.  With a configured client, when the request fails, or the text
    chosen from the reply does not parse, or parses to [null],
    [enrichNode] returns the node with the description "Enrichment
    failed", the criticality MEDIUM, the risk level 5 and no tag, after
    its one request. *)
Theorem enrichNode_failure_value
        (w : World) (request : EnrichmentRequest.t) (st : Frame) :
  genAI w = true ->
  no_usable_answer w (enrich_prompt request) ->
  enrichNode w request st
  = (Val (enrichment request (JS.JStr "Enrichment failed")
                     (JS.JStr "MEDIUM") (JS.JNum 5%float) (JS.JArr [])),
     add_trace st [Attempt (enrich_prompt request) 1]).
Proof.
  intros Hg Hno. rewrite (enrichNode_run w request st Hg).
  apply (answer_none w _ Hg) in Hno. now rewrite Hno.
Qed.

(** Every request is refused as rate limited. *)
Lemma enrichNode_failure_value_witness :
  enrichNode Examples.throttled_world MoreExamples.parser_node frame0
  = (Val (enrichment MoreExamples.parser_node (JS.JStr "Enrichment failed")
                     (JS.JStr "MEDIUM") (JS.JNum 5%float) (JS.JArr [])),
     add_trace frame0 [Attempt (enrich_prompt MoreExamples.parser_node) 1]).
Proof.
  apply (enrichNode_failure_value
           Examples.throttled_world MoreExamples.parser_node frame0).
  - reflexivity.
  - exact I.
Defined.

(** X18.  [classifyChange] never throws, and it calls a change breaking
    only on the model's word: a truthy verdict is the [isBreaking] field
    of a reply that was received and parsed.  Without a client, on a
    failed request and on a reply that does not parse the verdict is
    [false]; the explanation is never empty. *)
Theorem classifyChange_breaking_only_on_the_models_word
        (w : World) (oldSignature newSignature : string) (st : Frame) :
  exists res st',
    classifyChange w oldSignature newSignature st = (Val res, st')
    /\ at_most_one_request (classify_prompt oldSignature newSignature) st st'
    /\ JS.truthy (Classification.explanation res) = true
    /\ (JS.truthy (Classification.isBreaking res) = true ->
        exists parsed,
          answer w (classify_prompt oldSignature newSignature) = Some parsed
          /\ prop_of parsed "isBreaking"
             = Some (Classification.isBreaking res))
    /\ (answer w (classify_prompt oldSignature newSignature) = None ->
        Classification.isBreaking res = JS.JBool false).
Proof.
  destruct (genAI w) eqn:Hg.
  - rewrite (classifyChange_run w oldSignature newSignature st Hg).
    eexists. eexists. split; [reflexivity|]. split; [now right|].
    destruct (answer w (classify_prompt oldSignature newSignature))
      as [parsed|].
    + unfold read_classification, classification.
      cbn [Classification.isBreaking Classification.explanation].
      split; [now apply ResultFacts.or_default_truthy|].
      split; [|discriminate].
      intros Ht. exists parsed. split; [reflexivity|].
      destruct (or_default_cases (prop_of parsed "isBreaking")
                                 (JS.JBool false)) as [E|[E _]].
      * rewrite E in Ht. discriminate Ht.
      * exact E.
    + split; [reflexivity|]. split; [discriminate | reflexivity].
  - unfold classifyChange. rewrite Hg. cbn [negb].
    eexists. eexists. split; [reflexivity|]. split; [now left|].
    split; [reflexivity|]. split; [discriminate | reflexivity].
Qed.

(** X19.  [analyzeImpact] builds its prompt before the [try], so what
    [JSON.stringify] throws on the graph context is thrown by
    [analyzeImpact], with no request sent; this happens only with a
    client, the answer without one being returned first.  In every other
    case it returns and sends at most one request; its three fields are
    never falsy, and it names affected nodes or paths only from a reply
    that was received and parsed: otherwise both lists are empty. *)
Theorem analyzeImpact_answers_unless_the_context_throws
        (w : World) (request : ImpactAnalysisRequest.t) (st : Frame) :
  (forall e,
      ImpactAnalysisRequest.graphContext request = StringifyThrows e ->
      analyzeImpact w request st
      = if genAI w then (Throw e, st)
        else (Val (impact (JS.JArr []) (JS.JArr [])
                          (JS.JStr "No AI analysis available")), st))
  /\ (forall prompt,
         impact_prompt_of request = Some prompt ->
         exists res st',
           analyzeImpact w request st = (Val res, st')
           /\ at_most_one_request prompt st st'
           /\ (genAI w = true -> st' = add_trace st [Attempt prompt 1])
           /\ JS.truthy (ImpactAnalysisResult.affectedNodes res) = true
           /\ JS.truthy (ImpactAnalysisResult.impactPaths res) = true
           /\ JS.truthy (ImpactAnalysisResult.summary res) = true
           /\ (answer w prompt = None ->
               ImpactAnalysisResult.affectedNodes res = JS.JArr []
               /\ ImpactAnalysisResult.impactPaths res = JS.JArr []
               /\ (ImpactAnalysisResult.summary res
                   = JS.JStr "No AI analysis available"
                   \/ ImpactAnalysisResult.summary res
                      = JS.JStr "Analysis failed"))
           /\ (forall parsed,
                  answer w prompt = Some parsed ->
                  res = read_impact parsed))
  /\ ((exists e, ImpactAnalysisRequest.graphContext request
                 = StringifyThrows e)
      \/ exists prompt, impact_prompt_of request = Some prompt).
Proof.
  split; [|split].
  - intros e He. unfold analyzeImpact, impact_prompt.
    destruct (genAI w); cbn [negb]; [|reflexivity].
    unfold bind at 1. now rewrite He.
  - intros prompt Hp. destruct (genAI w) eqn:Hg.
    + rewrite (analyzeImpact_run w request prompt st Hg Hp).
      eexists. eexists. split; [reflexivity|]. split; [now right|].
      split; [reflexivity|].
      destruct (answer w prompt) as [parsed|].
      * unfold read_impact, impact.
        cbn [ImpactAnalysisResult.affectedNodes
             ImpactAnalysisResult.impactPaths ImpactAnalysisResult.summary].
        split; [now apply ResultFacts.or_default_truthy|].
        split; [now apply ResultFacts.or_default_truthy|].
        split; [now apply ResultFacts.or_default_truthy|].
        split; [discriminate|]. now intros parsed' [= <-].
      * split; [reflexivity|]. split; [reflexivity|]. split; [reflexivity|].
        split; [|discriminate]. intros _. simpl. auto.
    + unfold analyzeImpact. rewrite Hg. cbn [negb].
      eexists. eexists. split; [reflexivity|]. split; [now left|].
      split; [discriminate|].
      split; [reflexivity|]. split; [reflexivity|]. split; [reflexivity|].
      split.
      * intros _. simpl. auto.
      * unfold answer. rewrite Hg. discriminate.
  - unfold impact_prompt_of.
    destruct (ImpactAnalysisRequest.graphContext request) as [text| |e].
    + right. now eexists.
    + right. now eexists.
    + left. now exists e.
Qed.

(** With a client, a graph context that points back to itself makes
    [analyzeImpact] throw before it sends anything. *)
Example analyzeImpact_rejects_a_cyclic_context :
  analyzeImpact Examples.breaking_world MoreExamples.cyclic_request frame0
  = (Throw (TypeError "Converting circular structure to JSON"), frame0).
Proof. reflexivity. Qed.

(** X20.  When the model wraps its answer in a code fence, with prose
    before it, [enrichNode] reads the fields of the object inside the
    fence, each with its default for a missing or falsy value. *)
Theorem enrichNode_reads_the_fenced_object
        (w : World) (request : EnrichmentRequest.t) (st : Frame)
        (tagged : bool) (before ws1 body ws2 after : string)
        (fields : list (string * JS.json)) :
  genAI w = true ->
  no_backtick before = true ->
  no_backtick body = true ->
  all_white ws1 = true ->
  all_white ws2 = true ->
  model_generate w (enrich_prompt request) 1
  = Replied (fenced tagged before ws1 body ws2 after) ->
  JSON_parse w (object_text body) = Some (JS.JObj fields) ->
  fst (enrichNode w request st)
  = Val (enrichment request
           (JS.or_default (JS.get_field "description" fields)
                          (JS.JStr "Unknown"))
           (JS.or_default (JS.get_field "criticality" fields)
                          (JS.JStr "MEDIUM"))
           (JS.or_default (JS.get_field "riskLevel" fields)
                          (JS.JNum 5%float))
           (JS.or_default (JS.get_field "tags" fields) (JS.JArr []))).
Proof.
  intros Hg Hbefore Hbody H1 H2 Hreply Hparse.
  rewrite (enrichNode_run w request st Hg). cbn [fst].
  unfold answer. rewrite Hg, Hreply.
  assert (jsonText (fenced tagged before ws1 body ws2 after)
          = object_text body) as ->.
  { unfold jsonText.
    change (fenced tagged before ws1 body ws2 after)
      with (before ++ fenced tagged EmptyString ws1 body ws2 after)%string.
    rewrite FenceFacts.match_fence_skips by assumption.
    destruct (fenced tagged EmptyString ws1 body ws2 after) eqn:E;
      cbn [match_fence]; rewrite <- E;
      now rewrite FenceFacts.fence_here_spec by assumption. }
  rewrite Hparse. reflexivity.
Qed.

(** The reply gives the risk level 0: the result says 5. *)
Lemma enrichNode_reads_the_fenced_object_witness :
  fst (enrichNode MoreExamples.enriching_world MoreExamples.parser_node
                  frame0)
  = Val (enrichment MoreExamples.parser_node
           (JS.JStr "Parses a repository") (JS.JStr "HIGH")
           (JS.JNum 5%float) (JS.JArr [JS.JStr "parser"])).
Proof.
  apply (enrichNode_reads_the_fenced_object
           MoreExamples.enriching_world MoreExamples.parser_node frame0
           true "Here you go:" nl "reply" nl EmptyString
           [("description", JS.JStr "Parses a repository");
            ("criticality", JS.JStr "HIGH");
            ("riskLevel", JS.JNum 0%float);
            ("tags", JS.JArr [JS.JStr "parser"])]); reflexivity.
Defined.

End RequestFacts.

(* ===================================================================== *)
(** ** The parser of a checked-out repository *)
(* ===================================================================== *)

Module ParserFacts.
Import ImpactAnalyzer Notions Dependents AstParser Checkout.

(** *** [getFiles] *)

Lemma each_none turns : each turns = None <-> In None turns.
Proof.
  induction turns as [|[found|] rest IH]; cbn [each In].
  - split; [discriminate | intros []].
  - destruct (each rest) as [more|].
    + split; [discriminate|]. intros [H|H]; [discriminate|].
      now apply IH in H.
    + split; [|reflexivity]. intros _. right. now apply IH.
  - split; [|reflexivity]. intros _. now left.
Qed.

Lemma each_some turns files :
  each turns = Some files ->
  forall p, In p files <-> exists found, In (Some found) turns /\ In p found.
Proof.
  revert files. induction turns as [|[found|] rest IH]; intros files;
    cbn [each].
  - intros [= <-] p. split; [intros [] | intros (found & [] & _)].
  - destruct (each rest) as [more|]; [|discriminate].
    intros [= <-] p. rewrite in_app_iff, (IH more eq_refl p). split.
    + intros [Hp|(found' & Hin & Hp)].
      * exists found. split; [now left | exact Hp].
      * exists found'. split; [now right | exact Hp].
    + intros (found' & [[= <-]|Hin] & Hp); [now left|].
      right. now exists found'.
  - discriminate.
Qed.

Lemma in_turns fs dir entries turn :
  In turn (map (fun entry => getFiles_entry fs dir (fst entry) (snd entry))
               entries)
  <-> exists file d, In (file, d) entries
                     /\ getFiles_entry fs dir file d = turn.
Proof.
  rewrite in_map_iff. split.
  - intros ([file d] & H & Hin). now exists file, d.
  - intros (file & d & Hin & H). now exists (file, d).
Qed.

(** When a turn of the [forEach] throws. *)
Lemma getFiles_entry_none fs d :
  forall dir file,
    getFiles_entry fs dir file d = None
    <-> d = Unstatable
        \/ (is_directory d = true /\ skipped_directory file = false
            /\ throws d).
Proof.
  induction d as [|entries IH| |] using dirent_rect_entries;
    intros dir file; cbn [getFiles_entry is_directory].
  - destruct (source_extension file); split; try discriminate;
      intros [H|(H & _)]; discriminate.
  - destruct (skipped_directory file) eqn:E; cbn [negb].
    + split; [discriminate|]. intros [H|(_ & H & _)]; discriminate.
    + rewrite each_none, in_turns. rewrite Forall_forall in IH. split.
      * intros (file' & d' & Hin & Hnone). right.
        split; [reflexivity|]. split; [reflexivity|].
        pose proof (IH _ Hin) as IHd. cbn [snd] in IHd.
        apply IHd in Hnone as [->|(Hd & Hs & Ht)].
        -- eapply throws_stat; eassumption.
        -- eapply throws_below; eassumption.
      * intros [H|(_ & _ & Ht)]; [discriminate|].
        inversion Ht as [d Hno|entries' file' Hin|entries' file' d' Hin Hd Hs Hd'];
          subst.
        -- now elim (Hno entries).
        -- exists file', Unstatable. split; [exact Hin|]. reflexivity.
        -- exists file', d'. split; [exact Hin|].
           pose proof (IH _ Hin) as IHd. cbn [snd] in IHd.
           apply IHd. right. auto.
  - destruct (skipped_directory file) eqn:E; cbn [negb].
    + split; [discriminate|]. intros [H|(_ & H & _)]; discriminate.
    + split; [|reflexivity]. intros _. right.
      split; [reflexivity|]. split; [reflexivity|].
      apply throws_readdir. discriminate.
  - split; [|reflexivity]. intros _. now left.
Qed.

(** [getFiles] throws exactly on the trees of [throws]. *)
Lemma getFiles_none fs dir d : getFiles fs dir d = None <-> throws d.
Proof.
  destruct d as [|entries| |]; cbn [getFiles];
    try (split; [intros _; apply throws_readdir; discriminate
                |reflexivity]).
  rewrite each_none, in_turns. split.
  - intros (file & d & Hin & Hnone).
    apply getFiles_entry_none in Hnone as [->|(Hd & Hs & Ht)].
    + eapply throws_stat; eassumption.
    + eapply throws_below; eassumption.
  - intros Ht.
    inversion Ht as [d Hno|entries' file Hin|entries' file d Hin Hd Hs Hd'];
      subst.
    + now elim (Hno entries).
    + exists file, Unstatable. split; [exact Hin | reflexivity].
    + exists file, d. split; [exact Hin|].
      apply getFiles_entry_none. right. auto.
Qed.

Lemma getFiles_entry_sound fs d :
  forall dir file found p entries,
    getFiles_entry fs dir file d = Some found ->
    In p found ->
    In (file, d) entries ->
    collected fs dir entries p.
Proof.
  induction d as [|sub IH| |] using dirent_rect_entries;
    intros dir file found p entries Hrun Hp Hin;
    cbn [getFiles_entry] in Hrun.
  - destruct (source_extension file) eqn:E; injection Hrun as <-;
      [|contradiction].
    destruct Hp as [<-|[]]. now apply collected_here.
  - destruct (skipped_directory file) eqn:E; cbn [negb] in Hrun;
      [injection Hrun as <-; contradiction|].
    apply (each_some _ _ Hrun) in Hp as (found' & Hturn & Hp).
    apply in_turns in Hturn as (file' & d' & Hentry & Hturn).
    rewrite Forall_forall in IH.
    eapply collected_below; [exact Hin | exact E|].
    exact (IH _ Hentry _ _ _ _ _ Hturn Hp Hentry).
  - destruct (skipped_directory file); cbn [negb] in Hrun;
      [injection Hrun as <-; contradiction | discriminate].
  - discriminate.
Qed.

Lemma getFiles_complete fs dir entries p :
  collected fs dir entries p ->
  forall files,
    getFiles fs dir (Directory entries) = Some files -> In p files.
Proof.
  induction 1 as [dir entries file Hin Hext
                 |dir entries file sub p Hin Hskip _ IH];
    intros files Hrun; cbn [getFiles] in Hrun;
    apply (each_some _ _ Hrun).
  - exists [path_join fs dir file]. split; [|now left].
    apply in_turns. exists file, File. split; [exact Hin|].
    cbn [getFiles_entry]. now rewrite Hext.
  - destruct (getFiles fs (path_join fs dir file) (Directory sub))
      as [found|] eqn:Esub.
    + exists found. split; [|now apply IH].
      apply in_turns. exists file, (Directory sub). split; [exact Hin|].
      cbn [getFiles_entry]. rewrite Hskip. exact Esub.
    + exfalso.
      assert (each (map (fun entry =>
                           getFiles_entry fs dir (fst entry) (snd entry))
                        entries) = None) as Hnone.
      { apply each_none, in_turns. exists file, (Directory sub).
        split; [exact Hin|]. cbn [getFiles_entry]. rewrite Hskip.
        exact Esub. }
      rewrite Hnone in Hrun. discriminate.
Qed.

(** X21.  [getFiles] returns exactly the files with the extension [.ts],
    [.tsx], [.js] or [.jsx] that lie in the directory or below it with
    no directory named [node_modules], [.git], [dist] or [build] on the
    way down, each under the path joined from the names on the way.  It
    returns unless the directory, or a directory below it that is not
    skipped, cannot be listed, or [statSync] throws on an entry of one
    of them. *)
Theorem getFiles_collects_the_source_files
        (fs : Fs) (dir : string) (d : dirent) :
  (getFiles fs dir d = None <-> throws d)
  /\ forall files,
      getFiles fs dir d = Some files ->
      exists entries,
        d = Directory entries
        /\ forall p, In p files <-> collected fs dir entries p.
Proof.
  split; [apply getFiles_none|].
  intros files Hrun.
  destruct d as [|entries| |]; try discriminate.
  exists entries. split; [reflexivity|]. intros p. split.
  - intros Hp. cbn [getFiles] in Hrun.
    apply (each_some _ _ Hrun) in Hp as (found & Hturn & Hp).
    apply in_turns in Hturn as (file & d & Hin & Hturn).
    exact (getFiles_entry_sound fs d dir file found p entries Hturn Hp Hin).
  - intros Hp. exact (getFiles_complete fs dir entries p Hp files Hrun).
Qed.

(** The checkout: the two source files of [src]; the note is left out,
    and [node_modules] is not read, so its cache does no harm. *)
Example getFiles_checkout :
  getFiles MoreExamples.checkout_fs "/repos/R1" MoreExamples.checkout
  = Some ["/repos/R1/src/a.ts"; "/repos/R1/src/b.ts"].
Proof. reflexivity. Qed.

(** A link to nothing in [src] makes [getFiles] throw. *)
Example getFiles_broken_checkout :
  getFiles MoreExamples.checkout_fs "/repos/R1" MoreExamples.broken_checkout
  = None.
Proof. reflexivity. Qed.

(** *** [parseRepo] *)

(** What the first pass leaves: a FILE node for each file, and a map
    whose keys are the relative paths of the files, each bound to the id
    of its node. *)
Lemma first_pass_from_spec fs dirPath repoId' files :
  forall acc,
    (forall k v, JS.map_get k (snd acc) = Some v ->
                 v = file_id repoId' k
                 /\ In (file_node repoId' k) (fst acc)) ->
    let passed := first_pass_from fs dirPath repoId' files acc in
    (forall k v, JS.map_get k (snd passed) = Some v ->
                 v = file_id repoId' k
                 /\ In (file_node repoId' k) (fst passed))
    /\ (forall file, In file files ->
                     JS.map_get (path_relative fs dirPath file) (snd passed)
                     = Some (file_id repoId'
                                     (path_relative fs dirPath file)))
    /\ (forall k v, JS.map_get k (snd acc) = Some v ->
                    JS.map_get k (snd passed) = Some v)
    /\ fst passed
       = fst acc
         ++ map (fun file => file_node repoId'
                               (path_relative fs dirPath file)) files.
Proof.
  induction files as [|file rest IH]; intros acc Hacc; cbn zeta.
  - cbn [first_pass_from fold_left map]. rewrite app_nil_r.
    split; [exact Hacc|]. split; [intros file []|].
    split; [auto | reflexivity].
  - cbn [first_pass_from fold_left].
    set (rel := path_relative fs dirPath file).
    set (acc' := (fst acc ++ [file_node repoId' rel],
                  JS.map_set rel (file_id repoId' rel) (snd acc))).
    assert (forall k v, JS.map_get k (snd acc') = Some v ->
                        v = file_id repoId' k
                        /\ In (file_node repoId' k) (fst acc')) as Hacc'.
    { intros k v. unfold acc'. cbn [fst snd].
      destruct (string_dec k rel) as [->|Hne].
      - rewrite DedupFacts.get_map_set_same. intros [= <-]. split; [reflexivity|].
        apply in_or_app. right. now left.
      - rewrite DedupFacts.get_map_set_other by exact Hne. intros H.
        apply Hacc in H as [-> H]. split; [reflexivity|].
        apply in_or_app. now left. }
    destruct (IH acc' Hacc') as (H1 & H2 & H3 & H4).
    fold (first_pass_from fs dirPath repoId' rest acc').
    split; [exact H1|]. split; [|split].
    + intros f [<-|Hf]; [|now apply H2].
      apply H3. unfold acc'. cbn [snd]. fold rel.
      apply DedupFacts.get_map_set_same.
    + intros k v Hk. apply H3. unfold acc'. cbn [snd].
      destruct (string_dec k rel) as [->|Hne].
      * rewrite DedupFacts.get_map_set_same. apply Hacc in Hk as [-> _]. reflexivity.
      * now rewrite DedupFacts.get_map_set_other.
    + rewrite H4. unfold acc'. cbn [fst map]. fold rel.
      now rewrite <- app_assoc.
Qed.

Lemma visit_statement_invariant fs repoId' fileMap dirPath file k acc node :
  JS.map_get k fileMap = Some (get_known fileMap k) ->
  pass_invariant repoId' fileMap acc ->
  pass_invariant repoId' fileMap
    (visit_statement fs fileMap dirPath file (get_known fileMap k) acc node)
  /\ incl (fst acc)
          (fst (visit_statement fs fileMap dirPath file
                                (get_known fileMap k) acc node)).
Proof.
  intros Hk Hinv.
  assert (forall acc' : list GraphNode * list GraphEdge,
             incl (fst acc) (fst acc') ->
             (forall e, In e (snd acc') -> In e (snd acc) \/
                  (exists k0, JS.map_get k0 fileMap = Some (e_source e))
                  /\ ((e_type e = "IMPORTS"
                       /\ exists k0,
                           JS.map_get k0 fileMap = Some (e_target e))
                      \/ (e_type e = "DEFINES"
                          /\ exists n, In n (fst acc') /\ n_id n = e_target e
                                       /\ n_type n = "FUNCTION"))) ->
             pass_invariant repoId' fileMap acc') as Hstep.
  { intros acc' Hincl Hnew e He.
    destruct (Hnew e He) as [Hold|Hfresh]; [|exact Hfresh].
    destruct (Hinv e Hold) as [Hs [Hi|(Hd & n & Hn & Hid & Hty)]].
    - split; [exact Hs | now left].
    - split; [exact Hs|]. right. split; [exact Hd|].
      exists n. split; [now apply Hincl | now split]. }
  destruct node as [[funcName|] startLine endLine|importPath|];
    cbn [visit_statement].
  - split; [|cbn [fst]; now apply incl_appl, incl_refl].
    apply Hstep; cbn [fst snd]; [now apply incl_appl, incl_refl|].
    intros e He. apply in_app_or in He as [He|[<-|[]]]; [now left|].
    right. cbn [e_source e_target e_type edge]. split; [now exists k|].
    right. split; [reflexivity|].
    eexists. split; [apply in_or_app; right; now left|]. now split.
  - split; [exact Hinv | apply incl_refl].
  - destruct (resolveImportPath fs importPath file dirPath) as [resolved|];
      [|split; [exact Hinv | apply incl_refl]].
    destruct (negb (String.eqb resolved EmptyString));
      [|split; [exact Hinv | apply incl_refl]].
    destruct (JS.map_get resolved fileMap) as [target|] eqn:Et;
      [|split; [exact Hinv | apply incl_refl]].
    split; [|apply incl_refl].
    apply Hstep; cbn [fst snd]; [apply incl_refl|].
    intros e He. apply in_app_or in He as [He|[<-|[]]]; [now left|].
    right. cbn [e_source e_target e_type edge]. split; [now exists k|].
    left. split; [reflexivity | now exists resolved].
  - split; [exact Hinv | apply incl_refl].
Qed.

Lemma fold_visit_invariant fs repoId' fileMap dirPath file k body :
  forall acc,
    JS.map_get k fileMap = Some (get_known fileMap k) ->
    pass_invariant repoId' fileMap acc ->
    pass_invariant repoId' fileMap
      (fold_left (visit_statement fs fileMap dirPath file
                                  (get_known fileMap k)) body acc)
    /\ incl (fst acc)
            (fst (fold_left (visit_statement fs fileMap dirPath file
                                             (get_known fileMap k))
                            body acc)).
Proof.
  induction body as [|node body IH]; intros acc Hk Hinv; cbn [fold_left].
  - split; [exact Hinv | apply incl_refl].
  - destruct (visit_statement_invariant fs repoId' fileMap dirPath file k
                                        acc node Hk Hinv) as [Hinv' Hincl].
    destruct (IH _ Hk Hinv') as [Hinv'' Hincl'].
    split; [exact Hinv''|]. eapply incl_tran; eassumption.
Qed.

Lemma second_pass_invariant fs parse repoId' fileMap dirPath files :
  forall acc out,
    (forall file, In file files ->
                  JS.map_get (path_relative fs dirPath file) fileMap
                  = Some (get_known fileMap (path_relative fs dirPath file))) ->
    pass_invariant repoId' fileMap acc ->
    second_pass fs parse fileMap dirPath files acc = Some out ->
    pass_invariant repoId' fileMap out /\ incl (fst acc) (fst out).
Proof.
  induction files as [|file rest IH]; intros acc out Hfiles Hinv;
    cbn [second_pass].
  - intros [= <-]. split; [exact Hinv | apply incl_refl].
  - destruct (readFileSync fs file) as [content|]; [|discriminate].
    intros Hrest.
    assert (JS.map_get (path_relative fs dirPath file) fileMap
            = Some (get_known fileMap (path_relative fs dirPath file)))
      as Hk by (apply Hfiles; now left).
    destruct (parse content) as [body|].
    + destruct (fold_visit_invariant fs repoId' fileMap dirPath file _ body
                                     acc Hk Hinv) as [Hinv' Hincl].
      destruct (IH _ _ (fun f Hf => Hfiles f (or_intror Hf)) Hinv' Hrest)
        as [Hout Hincl'].
      split; [exact Hout|]. eapply incl_tran; eassumption.
    + exact (IH _ _ (fun f Hf => Hfiles f (or_intror Hf)) Hinv Hrest).
Qed.

(** What [parseRepo] returns, in terms of the map of the first pass. *)
Lemma parseRepo_invariant fs parse tree dirPath repoId' parsed :
  parseRepo fs parse tree dirPath repoId' = Some parsed ->
  exists fileMap,
    (forall k v, JS.map_get k fileMap = Some v ->
                 v = file_id repoId' k
                 /\ In (file_node repoId' k) (nodes parsed))
    /\ pass_invariant repoId' fileMap (nodes parsed, edges parsed).
Proof.
  unfold parseRepo.
  destruct (getFiles fs dirPath tree) as [files|]; [|discriminate].
  cbv zeta. unfold first_pass.
  fold (first_pass_from fs dirPath repoId' files ([], [])).
  destruct (first_pass_from_spec fs dirPath repoId' files ([], []))
    as (Hmap & Hfiles & _ & _); [intros k v [=]|].
  set (passed := first_pass_from fs dirPath repoId' files ([], [])) in *.
  destruct (second_pass fs parse (snd passed) dirPath files (fst passed, []))
    as [out|] eqn:E; [|discriminate].
  intros [= <-]. cbn [nodes edges].
  apply second_pass_invariant with (repoId' := repoId') in E
      as [Hinv Hincl].
  - exists (snd passed). split.
    + intros k v Hk. destruct (Hmap k v Hk) as [-> Hn].
      split; [reflexivity | now apply Hincl].
    + now destruct out.
  - intros file Hf. unfold get_known. now rewrite (Hfiles file Hf).
  - intros e [].
Qed.

(** X22.  The graph [parseRepo] returns is closed: every edge starts at
    a FILE node of the graph; an IMPORTS edge ends at a FILE node of the
    graph and a DEFINES edge at a FUNCTION node of it; there is no other
    kind of edge. *)
Theorem parseRepo_graph_is_closed
        (fs : Fs) (parse : Parser) (tree : dirent)
        (dirPath repoId' : string) (parsed : Graph) :
  parseRepo fs parse tree dirPath repoId' = Some parsed ->
  closed_graph parsed.
Proof.
  intros H. apply parseRepo_invariant in H as (fileMap & Hmap & Hinv).
  assert (forall id, (exists k, JS.map_get k fileMap = Some id) ->
                     node_with parsed id "FILE") as Hfile.
  { intros id [k Hk]. destruct (Hmap k id Hk) as [-> Hn].
    exists (file_node repoId' k). now repeat split. }
  intros e He. destruct (Hinv e He) as [Hs [[Hty Ht]|[Hty Ht]]].
  - split; [now apply Hfile|]. left. split; [exact Hty | now apply Hfile].
  - split; [now apply Hfile|]. right. split; [exact Hty | exact Ht].
Qed.

Lemma parseRepo_graph_is_closed_witness :
  closed_graph MoreExamples.checkout_graph.
Proof.
  apply (parseRepo_graph_is_closed
           MoreExamples.checkout_fs MoreExamples.checkout_parser
           MoreExamples.checkout "/repos/R1" "R1").
  reflexivity.
Defined.

Lemma second_pass_none fs parse fileMap dirPath files :
  forall acc,
    second_pass fs parse fileMap dirPath files acc = None
    <-> exists file, In file files /\ readFileSync fs file = None.
Proof.
  induction files as [|file rest IH]; intros acc; cbn [second_pass].
  - split; [discriminate | intros (file & [] & _)].
  - destruct (readFileSync fs file) as [content|] eqn:E.
    + rewrite IH. split.
      * intros (f & Hf & Hr). exists f. split; [now right | exact Hr].
      * intros (f & [<-|Hf] & Hr); [congruence|]. now exists f.
    + split; [|reflexivity]. intros _. exists file. split; [now left|exact E].
Qed.

(** X27.  [parseRepo] fails exactly when [getFiles] throws (the
    directory, or a directory below it that is not skipped, cannot be
    listed, or [statSync] throws on an entry of one of them) or one of
    the files that [getFiles] collected cannot be read; a file that does
    not parse never makes it fail.  When it returns, every collected
    file has its FILE node, with the id [repoId:relativePath], whether
    it parsed or not. *)
Theorem parseRepo_fails_only_on_io_errors
        (fs : Fs) (parse : Parser) (tree : dirent)
        (dirPath repoId' : string) :
  (parseRepo fs parse tree dirPath repoId' = None
   <-> throws tree
       \/ exists files file,
           getFiles fs dirPath tree = Some files
           /\ In file files /\ readFileSync fs file = None)
  /\ forall parsed,
      parseRepo fs parse tree dirPath repoId' = Some parsed ->
      exists files,
        getFiles fs dirPath tree = Some files
        /\ forall file,
            In file files ->
            In (file_node repoId' (path_relative fs dirPath file))
               (nodes parsed).
Proof.
  unfold parseRepo.
  destruct (getFiles fs dirPath tree) as [files|] eqn:Eg.
  - cbv zeta. unfold first_pass.
    fold (first_pass_from fs dirPath repoId' files ([], [])).
    destruct (first_pass_from_spec fs dirPath repoId' files ([], []))
      as (Hmap & Hfiles & _ & Hnodes); [intros k v [=]|].
    set (passed := first_pass_from fs dirPath repoId' files ([], [])) in *.
    assert (~ throws tree) as Hfine.
    { intros Ht. apply (getFiles_none fs dirPath) in Ht. congruence. }
    split.
    + pose proof (second_pass_none fs parse (snd passed) dirPath files
                                   (fst passed, [])) as Hnone.
      destruct (second_pass fs parse (snd passed) dirPath files
                            (fst passed, [])) as [out|].
      * split; [discriminate|].
        intros [Ht|(files' & file & [= <-] & Hin & Hr)];
          [now elim Hfine|].
        enough (Some out = None) by discriminate.
        apply Hnone. now exists file.
      * split; [|reflexivity]. intros _. right.
        destruct (proj1 Hnone eq_refl) as (file & Hin & Hr).
        now exists files, file.
    + intros parsed.
      destruct (second_pass fs parse (snd passed) dirPath files
                            (fst passed, [])) as [out|] eqn:E; [|discriminate].
      intros [= <-]. exists files. split; [reflexivity|].
      intros file Hfile. cbn [nodes].
      apply second_pass_invariant with (repoId' := repoId') in E
          as [_ Hincl].
      * apply Hincl. cbn [fst]. rewrite Hnodes. cbn [fst app].
        apply in_map_iff. now exists file.
      * intros f0 Hf. unfold get_known. now rewrite (Hfiles f0 Hf).
      * intros e [].
  - split; [|discriminate].
    split; [|reflexivity]. intros _. left.
    now apply (getFiles_none fs dirPath).
Qed.

(** A link to nothing in [src]: the whole call fails. *)
Example parseRepo_broken_checkout :
  parseRepo MoreExamples.checkout_fs MoreExamples.checkout_parser
            MoreExamples.broken_checkout "/repos/R1" "R1" = None.
Proof. reflexivity. Qed.

(** *** Imports stay in the repository *)

(** The first component of an id is read before its first colon. *)
Lemma repo_of_file_id repoId' a b :
  repo_of_id (file_id repoId' a) = repo_of_id (file_id repoId' b).
Proof.
  unfold repo_of_id, file_id.
  induction repoId' as [|c r IH]; [reflexivity|].
  change (String c r ++ ":" ++ a)%string with (String c (r ++ ":" ++ a)%string).
  change (String c r ++ ":" ++ b)%string with (String c (r ++ ":" ++ b)%string).
  cbn [JS.split]. destruct (Ascii.eqb c JS.colon); [reflexivity|].
  pose proof (MergeFacts.split_not_nil JS.colon (r ++ ":" ++ a)%string) as Ha.
  pose proof (MergeFacts.split_not_nil JS.colon (r ++ ":" ++ b)%string) as Hb.
  destruct (JS.split JS.colon (r ++ ":" ++ a)%string) as [|ha ta];
    [now elim Ha|].
  destruct (JS.split JS.colon (r ++ ":" ++ b)%string) as [|hb tb];
    [now elim Hb|].
  cbn [hd] in *. now rewrite IH.
Qed.

Lemma repo_of_id_colon repoId' a :
  no_colon repoId' = true -> repo_of_id (file_id repoId' a) = repoId'.
Proof.
  unfold repo_of_id, file_id. intros H.
  induction repoId' as [|c r IH]; [reflexivity|].
  cbn [no_colon] in H. apply andb_prop in H as [Hc Hr].
  apply negb_true_iff in Hc.
  change (String c r ++ ":" ++ a)%string with (String c (r ++ ":" ++ a)%string).
  cbn [JS.split]. rewrite Hc.
  pose proof (MergeFacts.split_not_nil JS.colon (r ++ ":" ++ a)%string) as Ha.
  destruct (JS.split JS.colon (r ++ ":" ++ a)%string) as [|ha ta];
    [now elim Ha|].
  cbn [hd] in *. now rewrite (IH Hr).
Qed.

Lemma parseRepo_imports fs parse tree dirPath repoId' parsed e :
  parseRepo fs parse tree dirPath repoId' = Some parsed ->
  In e (edges parsed) -> e_type e = "IMPORTS" ->
  exists a b, e_source e = file_id repoId' a /\ e_target e = file_id repoId' b.
Proof.
  intros H He Hty. apply parseRepo_invariant in H as (fileMap & Hmap & Hinv).
  destruct (Hinv e He) as [[a Ha] [[_ [b Hb]]|[Hd _]]].
  - exists a, b. split.
    + now destruct (Hmap a _ Ha).
    + now destruct (Hmap b _ Hb).
  - rewrite Hty in Hd. discriminate Hd.
Qed.

Lemma indexed_imports_stay_in_repository g :
  indexed g -> imports_stay_in_repository g.
Proof.
  intros Hg e He Hty.
  destruct (Hg e He Hty)
    as (fs & parse & tree & dirPath & repoId' & parsed & Hrun & Hin).
  destruct (parseRepo_imports _ _ _ _ _ _ _ Hrun Hin Hty)
    as (a & b & -> & ->).
  apply repo_of_file_id.
Qed.

(** X23.  In a graph whose IMPORTS edges were all returned by
    [parseRepo], an import never leaves its repository; so for a changed
    file of the repository [repoId] (an id without a colon) the
    traversal of [findAffectedFiles] reports no file at all. *)
Theorem indexed_graph_has_no_structural_impact
        (pf : Path.platform) (g : Graph) (repoId' filePath' : string) :
  indexed g ->
  no_colon repoId' = true ->
  imports_stay_in_repository g
  /\ findAffectedFiles pf g (repoId' ++ ":" ++ filePath')%string repoId' = [].
Proof.
  intros Hg Hr.
  pose proof (indexed_imports_stay_in_repository g Hg) as Hstay.
  split; [exact Hstay|].
  apply ReachFacts.same_repository_reports_nothing. intros x Hx.
  rewrite (ReachFacts.importers_share_the_repository g _ x Hstay Hx).
  now apply repo_of_id_colon.
Qed.

Lemma indexed_graph_has_no_structural_impact_witness :
  imports_stay_in_repository MoreExamples.checkout_graph
  /\ findAffectedFiles Path.Posix MoreExamples.checkout_graph
                       "R1:src/a.ts" "R1" = [].
Proof.
  apply (indexed_graph_has_no_structural_impact
           Path.Posix MoreExamples.checkout_graph "R1" "src/a.ts").
  - intros e He Hty.
    exists MoreExamples.checkout_fs, MoreExamples.checkout_parser,
      MoreExamples.checkout, "/repos/R1", "R1", MoreExamples.checkout_graph.
    split; [reflexivity | exact He].
  - reflexivity.
Defined.

End ParserFacts.

(* ===================================================================== *)
(** ** The analysis of an indexed project *)
(* ===================================================================== *)

Module IndexedFacts.
Import ImpactAnalyzer Notions Dependents Replies AstParser Checkout.

(** What the scan returns, whatever it was given to look for: the
    names are an array of strings, and each entry is a file that can be
    read and holds one of the names kept. *)
Lemma search_sound w g sourceRepoId v st l e :
  fst (searchForAffectedFiles w g sourceRepoId v st) = Val l ->
  In e l ->
  exists items text fn,
    v = JS.JArr items
    /\ fs_file w (repoId e) (filePath e) = Content text
    /\ In fn (kept_names items)
    /\ JS.includes text fn = true
    /\ reason e
       = ("Uses modified functions: "
          ++ JS.join ", " (file_usages (kept_names items) text))%string.
Proof.
  destruct v as [| | | |items|]; try (simpl; discriminate).
  unfold searchForAffectedFiles, bind.
  destruct (map_trim items st) as [[trimmed|ex] st1] eqn:Et;
    [|simpl; discriminate].
  apply ScanReportFacts.map_trim_val in Et. subst trimmed.
  fold (kept_names items).
  destruct (length (kept_names items) =? 0).
  - simpl. intros [= <-] [].
  - destruct (scan_files w (kept_names items)
                (firstn 50 (otherRepoFiles g sourceRepoId)) [] st1)
      as [[l'|ex] st2] eqn:Es; simpl; [|discriminate].
    intros [= <-] He.
    destruct (ScanReportFacts.scan_files_sound _ _ _ _ _ _ _ Es e He)
      as [[]|(text & Hfs & Hne & Hreason)].
    destruct (ScanReportFacts.file_usages_not_nil _ _ Hne)
      as (fn & Hfn & Hinc).
    exists items, text, fn. auto.
Qed.

Lemma possibleNodeIds_file_id r f c :
  In c (possibleNodeIds r f) -> exists x, c = file_id r x.
Proof.
  unfold possibleNodeIds, file_id. cbn [In].
  intros [<-|[<-|[<-|[]]]]; eexists; reflexivity.
Qed.

(** X24.  In a project whose IMPORTS edges were all returned by
    [parseRepo], with a repository id that holds no colon, every
    affected file that [analyzeFileChange] reports was found by the scan
    for the changed function names: the reply parsed, its changed
    functions are an array, the file is a FILE node of another
    repository, it can be read on the disk and holds one of the names
    kept from that array, and its reason is the line of the usages of
    those names in it.  No file is reported for importing the changed
    one: the traversal from the changed file returns nothing. *)
Theorem indexed_project_reports_only_usages
        (w : World) (p r f : string) (old new : option string) (st : Frame) :
  indexed (getGraph w p) ->
  no_colon r = true ->
  exists res st',
    analyzeFileChange w p r f old new st = (Val res, st')
    /\ (forall c,
           find_changedNodeId (getGraph w p) (possibleNodeIds r f) = Some c ->
           findAffectedFiles (platform w) (getGraph w p) c r = [])
    /\ forall e, In e (affectedFiles res) ->
         exists result items text fn,
           parsed_reply w (content_of old) (content_of new) = Some result
           /\ JS.or_default (prop_of result "changedFunctions") (JS.JArr [])
              = JS.JArr items
           /\ repoId e <> r
           /\ (exists file,
                  In file (nodes (getGraph w p)) /\ n_type file = "FILE"
                  /\ repoId e = repo_of_id (n_id file)
                  /\ filePath e = path_of_id (n_id file))
           /\ fs_file w (repoId e) (filePath e) = Content text
           /\ In fn (kept_names items)
           /\ JS.includes text fn = true
           /\ reason e
              = ("Uses modified functions: "
                 ++ JS.join ", " (file_usages (kept_names items) text))
                %string.
Proof.
  intros Hg Hr.
  assert (forall c,
             In c (possibleNodeIds r f) ->
             findAffectedFiles (platform w) (getGraph w p) c r = [])
    as Hnone.
  { intros c Hc. apply possibleNodeIds_file_id in Hc as [x ->].
    pose proof (ParserFacts.indexed_imports_stay_in_repository _ Hg)
      as Hstay.
    apply ReachFacts.same_repository_reports_nothing. intros y Hy.
    rewrite (ReachFacts.importers_share_the_repository _ _ y Hstay Hy).
    now apply ParserFacts.repo_of_id_colon. }
  destruct (find_changedNodeId (getGraph w p) (possibleNodeIds r f))
    as [c|] eqn:E.
  - rewrite (AnalysisFacts.analyzeFileChange_found w p r f old new st _ E).
    eexists; eexists. split; [reflexivity|].
    apply find_some in E as [Hc _].
    split; [intros c' [= <-]; now apply Hnone|].
    rewrite (Hnone c Hc).
    unfold result_of. cbn [app].
    intros e He.
    assert (In e (loc_semanticAffectedFiles
                    (after_try w (getGraph w p) r old new st))) as Hsem.
    { destruct (JS.truthy (loc_isBreaking
                             (after_try w (getGraph w p) r old new st)));
        cbn [negb affectedFiles] in He; [|contradiction].
      now apply DedupFacts.uniqueAffectedFiles_incl. }
    clear He.
    destruct (ResultFacts.after_try_cases w (getGraph w p) r old new st)
      as [[evs Hl]|(_ & result & sem & evs & Hparsed & _ & Hl & Hscan)];
      rewrite Hl in Hsem; cbn [loc_semanticAffectedFiles add_trace
                               locals_init classified_frame] in Hsem;
      [contradiction|].
    destruct Hscan as [->|Hscan]; [contradiction|].
    assert (fst (searchForAffectedFiles w (getGraph w p) r
                   (JS.or_default (prop_of result "changedFunctions")
                                  (JS.JArr [])) st) = Val sem) as Hrun
        by now rewrite (Hscan st).
    destruct (search_sound _ _ _ _ _ _ _ Hrun Hsem)
      as (items & text & fn & Hitems & Hfs & Hfn & Hinc & Hreason).
    destruct (ImpactFacts.searchForAffectedFiles_other_repo
                _ _ _ _ _ _ Hrun) as [_ Hother].
    rewrite Forall_forall in Hother.
    destruct (Hother e Hsem) as [Hrepo Hnode].
    exists result, items, text, fn.
    split; [exact Hparsed|]. split; [exact Hitems|].
    split; [exact Hrepo|]. split; [exact Hnode|]. auto.
  - rewrite (AnalysisFacts.analyzeFileChange_not_found w p r f old new st E).
    eexists; eexists. split; [reflexivity|].
    split; [discriminate | intros e []].
Qed.

(** A breaking change to R1's [src/a.ts]: R1's [src/b.ts] imports it
    and is not reported; R2's [c.ts] calls the changed function and
    is. *)
Lemma indexed_project_reports_only_usages_witness :
  exists res st',
    analyzeFileChange MoreExamples.project_world "P" "R1" "src/a.ts"
                      (Some "old") (Some "new") frame0 = (Val res, st')
    /\ affectedFiles res
       = [{| repoId := "R2"; filePath := "c.ts";
             reason := "Uses modified functions: fetchUser (line 2)" |}]
    /\ forall e, In e (affectedFiles res) ->
         exists result items text fn,
           parsed_reply MoreExamples.project_world "old" "new" = Some result
           /\ JS.or_default (prop_of result "changedFunctions") (JS.JArr [])
              = JS.JArr items
           /\ repoId e <> "R1"
           /\ (exists file,
                  In file (nodes (getGraph MoreExamples.project_world "P"))
                  /\ n_type file = "FILE"
                  /\ repoId e = repo_of_id (n_id file)
                  /\ filePath e = path_of_id (n_id file))
           /\ fs_file MoreExamples.project_world (repoId e) (filePath e)
              = Content text
           /\ In fn (kept_names items)
           /\ JS.includes text fn = true
           /\ reason e
              = ("Uses modified functions: "
                 ++ JS.join ", " (file_usages (kept_names items) text))
                %string.
Proof.
  destruct (indexed_project_reports_only_usages
              MoreExamples.project_world "P" "R1" "src/a.ts"
              (Some "old") (Some "new") frame0)
    as (res & st' & Hrun & _ & Hall).
  - intros e He Hty.
    exists MoreExamples.checkout_fs, MoreExamples.checkout_parser,
      MoreExamples.checkout, "/repos/R1", "R1", MoreExamples.checkout_graph.
    split; [reflexivity | exact He].
  - reflexivity.
  - exists res, st'. split; [exact Hrun|]. split; [|exact Hall].
    vm_compute in Hrun. injection Hrun as <- _. reflexivity.
Defined.

End IndexedFacts.

(* ===================================================================== *)
(** ** The braces of a reply, and the lines of a diff *)
(* ===================================================================== *)

Module TextFacts.
Import Lines.

Lemma upto_last_rbrace_none s :
  lacks JS.rbrace s = true -> JS.upto_last_rbrace s = None.
Proof.
  induction s as [|c s IH]; [reflexivity|].
  cbn [lacks JS.upto_last_rbrace]. intros H.
  apply andb_prop in H as [Hc Hs]. apply negb_true_iff in Hc.
  now rewrite (IH Hs), Hc.
Qed.

Lemma upto_last_rbrace_app middle after :
  lacks JS.rbrace after = true ->
  JS.upto_last_rbrace (middle ++ String JS.rbrace after)%string
  = Some (middle ++ String JS.rbrace EmptyString)%string.
Proof.
  intros H. induction middle as [|c m IH].
  - cbn [append JS.upto_last_rbrace].
    now rewrite (upto_last_rbrace_none _ H), Ascii.eqb_refl.
  - change (String c m ++ String JS.rbrace after)%string
      with (String c (m ++ String JS.rbrace after)%string).
    cbn [JS.upto_last_rbrace]. now rewrite IH.
Qed.

(** X25.  From a reply with prose around it, the match that
    [analyzeFileChange] hands to [JSON.parse] runs from the first opening
    brace to the last closing brace: two objects in one reply are taken
    as one text, with what is between them. *)
Theorem braces_span_first_to_last (before middle after : string) :
  lacks JS.lbrace before = true ->
  lacks JS.rbrace after = true ->
  JS.match_braces
    (before ++ String JS.lbrace (middle ++ String JS.rbrace after))%string
  = Some (String JS.lbrace (middle ++ String JS.rbrace EmptyString))%string.
Proof.
  intros Hb Ha. induction before as [|c b IH].
  - cbn [append JS.match_braces]. rewrite Ascii.eqb_refl.
    now rewrite upto_last_rbrace_app.
  - cbn [lacks] in Hb. apply andb_prop in Hb as [Hc Hb].
    apply negb_true_iff in Hc.
    change (String c b
              ++ String JS.lbrace (middle ++ String JS.rbrace after))%string
      with (String c (b ++ String JS.lbrace
                        (middle ++ String JS.rbrace after))%string).
    cbn [JS.match_braces]. rewrite Hc. now apply IH.
Qed.

Lemma braces_span_first_to_last_witness :
  JS.match_braces "Either {a} or {b}, I think."
  = Some "{a} or {b}".
Proof.
  apply (braces_span_first_to_last "Either " "a} or {b" ", I think.");
    reflexivity.
Defined.

(** *** [getChangedFiles] *)

Lemma split_line name rest :
  lacks JS.newline name = true ->
  JS.split JS.newline (name ++ String JS.newline rest)%string
  = name :: JS.split JS.newline rest.
Proof.
  intros H. induction name as [|c n IH].
  - cbn [append JS.split]. now rewrite Ascii.eqb_refl.
  - cbn [lacks] in H. apply andb_prop in H as [Hc Hn].
    apply negb_true_iff in Hc.
    change (String c n ++ String JS.newline rest)%string
      with (String c (n ++ String JS.newline rest)%string).
    cbn [JS.split]. now rewrite Hc, (IH Hn).
Qed.

(** X26.  [getChangedFiles] gives back the names that git printed one
    to a line, in order and as printed (they are not trimmed); the empty
    piece after the last line feed is dropped, so an empty diff gives the
    empty list. *)
Theorem getChangedFiles_reads_the_printed_names (names : list string) :
  Forall printable names ->
  GitService.getChangedFiles (printed names) = names.
Proof.
  unfold GitService.getChangedFiles.
  induction 1 as [|name rest [Hline Hblank] _ IH]; [reflexivity|].
  cbn [printed]. rewrite (split_line _ _ Hline). cbn [filter].
  apply String.eqb_neq in Hblank. rewrite Hblank. cbn [negb].
  now rewrite IH.
Qed.

Lemma getChangedFiles_reads_the_printed_names_witness :
  GitService.getChangedFiles
    (printed ["src/a.ts"; " spaced name.ts "])
  = ["src/a.ts"; " spaced name.ts "].
Proof.
  apply (getChangedFiles_reads_the_printed_names
           ["src/a.ts"; " spaced name.ts "]).
  repeat constructor; discriminate.
Defined.

End TextFacts.
